(** * 9router: a shallow embedding of the gateway's helpers and engine contracts

    Part I holds the embedding (one module per source file or engine
    component), Part II the theorems about it. *)

From Stdlib Require Import ZArith Bool List Lia Ascii String.
From Stdlib Require Import Floats.
From Stdlib Require Import DecimalString DecimalZ.
From stdpp Require Import base option list gmap strings.

Set Default Proof Using "Type".
Local Open Scope Z_scope.

(* ===================================================================== *)
(** * Part I: the embedding *)
(* ===================================================================== *)

(** ** open-sse/utils/throughputCalc.js *)

Module ThroughputCalc.

(** The arguments are JavaScript numbers (IEEE-754 binary64), each of which
    may also be [undefined] or [null]; the kernel's primitive floats are
    binary64 with the same rounding, comparisons and special values. *)
Inductive jsnum : Type :=
| undefined
| null
| num (x : float).

(** [v <= 0] and [v > 0] on a value already known to be a number: both are
    false on NaN. *)
Definition le0 (x : float) : bool := (x <=? 0)%float.
Definition gt0 (x : float) : bool := (0 <? x)%float.

(** [v === undefined || v === null || v <= 0]. *)
Definition missing_or_le0 (v : jsnum) : bool :=
  match v with
  | undefined | null => true
  | num x => le0 x
  end.

(** [outputDurationMs !== undefined && outputDurationMs !== null &&
    outputDurationMs > 0 ? outputDurationMs : latencyMs]. *)
Definition durationMs (latencyMs : float) (outputDurationMs : jsnum) : float :=
  match outputDurationMs with
  | num d => if gt0 d then d else latencyMs
  | _ => latencyMs
  end.

(** [(completionTokens / durationMs) * 1000]. *)
Definition tokensPerSecond (completionTokens duration : float) : float :=
  ((completionTokens / duration) * 1000)%float.

(** [calculateThroughput]; [None] is the JavaScript [null] it returns. *)
Definition calculateThroughput
    (completionTokens latencyMs outputDurationMs : jsnum) : option float :=
  match completionTokens, latencyMs with
  | num c, num l =>
      if le0 c || le0 l then None
      else
        let d := durationMs l outputDurationMs in
        if le0 d then None
        else
          let throughput := tokensPerSecond c d in
          if negb (is_finite throughput) || (throughput <? 0)%float
          then None
          else Some throughput
  | _, _ => None
  end.

(** The same function as the specification words it: the duration is the
    output duration when that is positive and the latency otherwise; the
    result is unknown when that duration or the token count is missing or
    [<= 0], and tokens per second otherwise. *)
Definition effectiveDuration (latencyMs outputDurationMs : jsnum) : jsnum :=
  match outputDurationMs with
  | num d => if gt0 d then num d else latencyMs
  | _ => latencyMs
  end.

Definition calculateThroughput_as_specified
    (completionTokens latencyMs outputDurationMs : jsnum) : option float :=
  if missing_or_le0 completionTokens
     || missing_or_le0 (effectiveDuration latencyMs outputDurationMs)
  then None
  else
    match completionTokens, effectiveDuration latencyMs outputDurationMs with
    | num c, num d => Some (c / (d / 1000))%float
    | _, _ => None
    end.

(** [categorizeInputTokens]; [Number.isFinite] is false on what is not a
    number. *)
Definition categorizeInputTokens (promptTokens : jsnum) : option string :=
  match promptTokens with
  | num p =>
      if negb (is_finite p) || (p <? 0)%float then None
      else if (p <? 500)%float then Some "low"%string
      else if (p <=? 2000)%float then Some "medium"%string
      else Some "high"%string
  | _ => None
  end.

(** [categorizeOutputTokens]. *)
Definition categorizeOutputTokens (completionTokens : jsnum) : option string :=
  match completionTokens with
  | num c =>
      if negb (is_finite c) || (c <? 0)%float then None
      else if (c <? 100)%float then Some "short"%string
      else if (c <=? 500)%float then Some "medium"%string
      else Some "long"%string
  | _ => None
  end.

End ThroughputCalc.

(** ** [String.prototype.trim] on UTF-8 text *)

Module JsText.
Local Open Scope string_scope.

Definition bytes (codes : list N) : string :=
  string_of_list_ascii (map ascii_of_N codes).

(** The white space and line terminators of ECMAScript, as their UTF-8
    byte sequences: TAB, LF, VT, FF, CR, SPACE, U+00A0, U+1680, U+2000 to
    U+200A, U+2028, U+2029, U+202F, U+205F, U+3000 and U+FEFF. *)
Definition whiteSpace : list string :=
  map bytes
    [ [9]; [10]; [11]; [12]; [13]; [32]; [194; 160]; [225; 154; 128];
      [226; 128; 128]; [226; 128; 129]; [226; 128; 130]; [226; 128; 131];
      [226; 128; 132]; [226; 128; 133]; [226; 128; 134]; [226; 128; 135];
      [226; 128; 136]; [226; 128; 137]; [226; 128; 138]; [226; 128; 168];
      [226; 128; 169]; [226; 128; 175]; [226; 129; 159]; [227; 128; 128];
      [239; 187; 191] ]%N.

(** What is left of [s] after [prefix], when it starts with it. *)
Fixpoint dropPrefix (prefix s : string) : option string :=
  match prefix, s with
  | EmptyString, _ => Some s
  | String c prefix, String d s =>
      if Ascii.eqb c d then dropPrefix prefix s else None
  | String _ _, EmptyString => None
  end.

Fixpoint dropOne (sequences : list string) (s : string) : option string :=
  match sequences with
  | [] => None
  | sequence :: sequences =>
      match dropPrefix sequence s with
      | Some rest => Some rest
      | None => dropOne sequences s
      end
  end.

(** At most [fuel] leading sequences are dropped; every sequence has a
    byte, so the length of the string is fuel enough. *)
Fixpoint dropLeading (sequences : list string) (fuel : nat) (s : string)
  : string :=
  match fuel with
  | O => s
  | S fuel =>
      match dropOne sequences s with
      | Some rest => dropLeading sequences fuel rest
      | None => s
      end
  end.

Definition trimStart (s : string) : string :=
  dropLeading whiteSpace (String.length s) s.

Definition trimEnd (s : string) : string :=
  String.rev
    (dropLeading (map String.rev whiteSpace) (String.length s) (String.rev s)).

Definition trim (s : string) : string := trimEnd (trimStart s).

End JsText.

(** ** JavaScript string methods the sources use *)

Module JsString.
Local Open Scope string_scope.

(** Strings are sequences of bytes (UTF-8 text); [split], [startsWith] and
    the like cut at one-byte characters only, which no multi-byte sequence
    contains, and [trim] knows the white space that takes several bytes. *)

(** [s.startsWith(prefix)]. *)
Definition startsWith (s prefix : string) : bool := String.prefix prefix s.

(** [s.endsWith(suffix)]. *)
Definition endsWith (s suffix : string) : bool :=
  (String.length suffix <=? String.length s)%nat
  && String.eqb
       (substring (String.length s - String.length suffix)
                  (String.length suffix) s)
       suffix.

Definition isDigit (c : ascii) : bool :=
  (48 <=? N_of_ascii c)%N && (N_of_ascii c <=? 57)%N.

Fixpoint allDigits (s : string) : bool :=
  match s with
  | EmptyString => true
  | String c rest => isDigit c && allDigits rest
  end.

(** The one-byte white space and line terminators: TAB, LF, VT, FF, CR
    and SPACE. *)
Definition isWhiteSpace (c : ascii) : bool :=
  match N_of_ascii c with
  | 9 | 10 | 11 | 12 | 13 | 32 => true
  | _ => false
  end%N.

(** [s.trim()]: the white space and line terminators of ECMAScript, those
    beyond U+007F included, are dropped at both ends. *)
Definition trim (s : string) : string := JsText.trim s.

(** [s.split(sep)] for a one-character separator: the pieces between the
    separators, in order; a string without the separator is its own single
    piece. *)
Fixpoint split (sep : ascii) (s : string) : list string :=
  match s with
  | EmptyString => [EmptyString]
  | String c rest =>
      if Ascii.eqb c sep then EmptyString :: split sep rest
      else
        match split sep rest with
        | piece :: pieces => String c piece :: pieces
        | [] => [String c EmptyString]
        end
  end.

(** Whether the separator occurs in a string (used to state what the
    pieces of a key are). *)
Fixpoint contains (sep : ascii) (s : string) : bool :=
  match s with
  | EmptyString => false
  | String c rest => Ascii.eqb c sep || contains sep rest
  end.

(** [s.slice(n)]. *)
Definition sliceFrom (n : nat) (s : string) : string :=
  substring n (String.length s - n) s.

(** [s.toLowerCase()] on the letters A to Z. *)
Definition lowerChar (c : ascii) : ascii :=
  let n := N_of_ascii c in
  if (65 <=? n)%N && (n <=? 90)%N then ascii_of_N (n + 32) else c.

Fixpoint toLowerCase (s : string) : string :=
  match s with
  | EmptyString => EmptyString
  | String c rest => String (lowerChar c) (toLowerCase rest)
  end.

(** [Number(s)] for a string of decimal digits. *)
Definition digitValue (c : ascii) : N := N_of_ascii c - 48.

Fixpoint digitsValue (acc : N) (s : string) : N :=
  match s with
  | EmptyString => acc
  | String c rest => digitsValue (10 * acc + digitValue c)%N rest
  end.

Definition numberOfDigits (s : string) : N := digitsValue 0 s.

(** The pattern [/^(\d{1,3})\.(\d{1,3})\.(\d{1,3})\.(\d{1,3})$/] of
    validateBaseUrl.js and forwardAuth.js, with its four groups mapped
    through [Number]: exactly four pieces between dots, each of one to
    three digits. *)
Definition octetDigits (s : string) : bool :=
  allDigits s && (1 <=? String.length s)%nat && (String.length s <=? 3)%nat.

Definition matchIPv4 (s : string) : option (N * N * N * N) :=
  match split "." s with
  | [a; b; c; d] =>
      if octetDigits a && octetDigits b && octetDigits c && octetDigits d
      then Some (numberOfDigits a, numberOfDigits b, numberOfDigits c,
                 numberOfDigits d)
      else None
  | _ => None
  end.

End JsString.

(** ** cloud/src/utils/apiKey.js *)

Module ApiKey.
Local Open Scope string_scope.
Import JsString.

Definition LEGACY_API_KEY_SECRET : string := "endpoint-proxy-api-key-secret".

(** Strings are sequences of bytes (UTF-8 text), which is also what
    [TextEncoder.encode] hands to the MAC. *)
Definition encode (s : string) : list Byte.byte := list_byte_of_string s.

(** [(secret && secret.trim()) || LEGACY_API_KEY_SECRET]; [None] is an
    omitted (undefined) secret, and the empty string is falsy. *)
Definition effectiveSecret (secret : option string) : string :=
  match secret with
  | None => LEGACY_API_KEY_SECRET
  | Some s =>
      if String.eqb s "" then LEGACY_API_KEY_SECRET
      else if String.eqb (trim s) "" then LEGACY_API_KEY_SECRET
      else trim s
  end.

(** [b.toString(16).padStart(2, "0")] for a byte [b]. *)
Definition hexDigit (n : N) : ascii :=
  match String.get (N.to_nat n) "0123456789abcdef" with
  | Some c => c
  | None => "0"%char
  end.

Definition hex2 (b : Byte.byte) : string :=
  let n := Byte.to_N b in
  String (hexDigit (n / 16)) (String (hexDigit (n mod 16)) EmptyString).

(** [hashArray.map(...).join("")]. *)
Definition hashHex (bytes : list Byte.byte) : string :=
  fold_right (fun b acc => hex2 b +:+ acc) EmptyString bytes.

Record ParsedKey : Type := {
  machineId : option string;
  keyId : string;
  isNewFormat : bool
}.

Section WebCrypto.
(** [crypto.subtle.sign("HMAC", key, data)] with an imported raw
    SHA-256 key: the platform's primitive, from key bytes and message
    bytes to the MAC's bytes. *)
Variable hmacSha256 : list Byte.byte -> list Byte.byte -> list Byte.byte.

Definition generateCrc (machineId keyId : string) (secret : option string) : string :=
  let keyData := encode (effectiveSecret secret) in
  let data := encode (machineId +:+ keyId) in
  let signature := hmacSha256 keyData data in
  substring 0 8 (hashHex signature).

(** [parseApiKey]; [None] is the [null] result. *)
Definition parseApiKey (apiKey : string) (apiKeySecret : option string)
  : option ParsedKey :=
  if String.eqb apiKey "" || negb (String.prefix "sk-" apiKey) then None
  else
    match split "-" apiKey with
    | [_; machineId; keyId; crc] =>
        let expectedCrc := generateCrc machineId keyId apiKeySecret in
        if negb (String.eqb crc expectedCrc) then None
        else Some {| machineId := Some machineId; keyId := keyId;
                     isNewFormat := true |}
    | [_; id] =>
        Some {| machineId := None; keyId := id; isNewFormat := false |}
    | _ => None
    end.
End WebCrypto.

(** [extractBearerToken], from what [request.headers.get("Authorization")]
    returns ([None] for its [null]). *)
Definition extractBearerToken (authHeader : option string) : option string :=
  match authHeader with
  | None => None
  | Some h =>
      if String.eqb h "" || negb (startsWith h "Bearer ") then None
      else Some (sliceFrom 7 h)
  end.

End ApiKey.

(** ** HMAC-SHA-256, the MAC behind [crypto.subtle.sign] *)

Module WebCrypto.
Local Open Scope N_scope.

(** SHA-256 as FIPS 180-4 defines it, on 32-bit words held in [N]. *)
Definition word (x : N) : N := x mod 2 ^ 32.

Definition rotr (n x : N) : N :=
  N.lor (N.shiftr x n) (word (N.shiftl x (32 - n))).

Definition complement (x : N) : N := N.lxor x (2 ^ 32 - 1).

Definition ch (x y z : N) : N :=
  N.lxor (N.land x y) (N.land (complement x) z).

Definition maj (x y z : N) : N :=
  N.lxor (N.lxor (N.land x y) (N.land x z)) (N.land y z).

Definition bigSigma0 (x : N) : N :=
  N.lxor (N.lxor (rotr 2 x) (rotr 13 x)) (rotr 22 x).

Definition bigSigma1 (x : N) : N :=
  N.lxor (N.lxor (rotr 6 x) (rotr 11 x)) (rotr 25 x).

Definition smallSigma0 (x : N) : N :=
  N.lxor (N.lxor (rotr 7 x) (rotr 18 x)) (N.shiftr x 3).

Definition smallSigma1 (x : N) : N :=
  N.lxor (N.lxor (rotr 17 x) (rotr 19 x)) (N.shiftr x 10).

(** FIPS 180-4 takes its constants from the first primes: the round
    constants are the first 32 bits of the fractional parts of the cube
    roots of the first 64 primes, the initial hash value those of the
    square roots of the first 8. *)
Definition isPrime (n : N) : bool :=
  forallb (fun d => negb (n mod N.of_nat d =? 0)) (seq 2 (N.to_nat n - 2)).

Definition firstPrimes (count : nat) : list N :=
  take count (List.filter isPrime (map N.of_nat (seq 2 400))).

(** The integer cube root, bit by bit from the top. *)
Definition cubeRoot (n : N) : N :=
  foldl (fun r bit =>
           let larger := r + 2 ^ N.of_nat bit in
           if larger * larger * larger <=? n then larger else r)
        0 (rev (seq 0 48)).

Definition roundConstants : list N :=
  Eval vm_compute in map (fun p => word (cubeRoot (p * 2 ^ 96))) (firstPrimes 64).

Definition initialHash : list N :=
  Eval vm_compute in map (fun p => word (N.sqrt (p * 2 ^ 64))) (firstPrimes 8).

(** The message schedule: the 16 words of the block, then 48 more, each
    from the 16 before it. *)
Fixpoint schedule (more : nat) (window : list N) : list N :=
  match more with
  | O => []
  | S more =>
      let next :=
        word (smallSigma1 (nth 14 window 0) + nth 9 window 0
              + smallSigma0 (nth 1 window 0) + nth 0 window 0) in
      next :: schedule more (tl window ++ [next])
  end.

(** One round on the working variables a to h. *)
Definition round (state : list N) (kw : N * N) : list N :=
  match state with
  | [a; b; c; d; e; f; g; h] =>
      let t1 := h + bigSigma1 e + ch e f g + kw.1 + kw.2 in
      let t2 := bigSigma0 a + maj a b c in
      [word (t1 + t2); a; b; c; word (d + t1); e; f; g]
  | _ => state
  end.

Definition compress (hash block : list N) : list N :=
  let words := block ++ schedule 48 block in
  let final := foldl round hash (zip roundConstants words) in
  zip_with (fun x y => word (x + y)) hash final.

(** Big-endian words and bytes. *)
Fixpoint wordsOf (bytes : list N) : list N :=
  match bytes with
  | a :: b :: c :: d :: rest =>
      (N.shiftl a 24 + N.shiftl b 16 + N.shiftl c 8 + d) :: wordsOf rest
  | _ => []
  end.

Definition bytesOf (x : N) : list N :=
  [ N.shiftr x 24 mod 256; N.shiftr x 16 mod 256; N.shiftr x 8 mod 256;
    x mod 256 ].

(** The message, a 1 bit, zeros, and the length in bits on 8 bytes, filling
    whole blocks of 64 bytes. *)
Definition padded (message : list N) : list N :=
  let n := length message in
  let zeros := ((64 - (n + 9) mod 64) mod 64)%nat in
  let bits := 8 * N.of_nat n in
  message ++ [128] ++ replicate zeros 0
    ++ bytesOf (N.shiftr bits 32) ++ bytesOf (word bits).

Fixpoint blocks (count : nat) (words : list N) : list (list N) :=
  match count with
  | O => []
  | S count => take 16 words :: blocks count (drop 16 words)
  end.

Definition sha256 (message : list N) : list N :=
  let words := wordsOf (padded message) in
  let hash := foldl compress initialHash (blocks (length words / 16) words) in
  hash ≫= bytesOf.

(** HMAC as RFC 2104 defines it, with SHA-256 and its block of 64 bytes. *)
Definition hmac (key message : list N) : list N :=
  let key := if (64 <? length key)%nat then sha256 key else key in
  let key := key ++ replicate (64 - length key) 0 in
  let inner := sha256 (map (N.lxor 0x36) key ++ message) in
  sha256 (map (N.lxor 0x5c) key ++ inner).

Definition byteOf (n : N) : Byte.byte :=
  default Byte.x00 (Byte.of_N n).

(** [crypto.subtle.sign("HMAC", key, data)] for a raw SHA-256 key. *)
Definition hmacSha256 (key data : list Byte.byte) : list Byte.byte :=
  map byteOf (hmac (map Byte.to_N key) (map Byte.to_N data)).

End WebCrypto.

(** ** The key check as the claim words it *)

Module ApiKeyAsSpecified.
Local Open Scope string_scope.
Import JsString ApiKey.

Section WebCrypto.
Variable hmacSha256 : list Byte.byte -> list Byte.byte -> list Byte.byte.

(** The crc "under the configured secret (or the legacy default when none
    is configured)": the secret keys the MAC as it is configured. *)
Definition generateCrc_as_specified (machineId keyId : string)
    (secret : option string) : string :=
  let configured :=
    match secret with
    | None => LEGACY_API_KEY_SECRET
    | Some s => if String.eqb s "" then LEGACY_API_KEY_SECRET else s
    end in
  substring 0 8
    (hashHex (hmacSha256 (encode configured) (encode (machineId +:+ keyId)))).

Definition parseApiKey_as_specified (apiKey : string)
    (apiKeySecret : option string) : option ParsedKey :=
  if String.eqb apiKey "" || negb (String.prefix "sk-" apiKey) then None
  else
    match split "-" apiKey with
    | [_; machineId; keyId; crc] =>
        if String.eqb crc (generateCrc_as_specified machineId keyId apiKeySecret)
        then Some {| machineId := Some machineId; keyId := keyId;
                     isNewFormat := true |}
        else None
    | [_; id] =>
        Some {| machineId := None; keyId := id; isNewFormat := false |}
    | _ => None
    end.
End WebCrypto.

End ApiKeyAsSpecified.

(** ** src/lib/middlewareAuth.js *)

Module MiddlewareAuth.
Local Open Scope string_scope.
Import JsString.

Definition PUBLIC_API_PREFIXES : list string :=
  [ "/api/auth/login";
    "/api/auth/logout";
    "/api/settings/require-login";
    "/api/v1/";
    "/api/cloud/auth" ].

(** The callback of [some]. *)
Definition matchesPrefix (pathname prefix : string) : bool :=
  if String.eqb pathname prefix then true
  else if endsWith prefix "/" then startsWith pathname prefix
  else startsWith pathname (prefix +:+ "/").

Definition isPublicApiPath (pathname : string) : bool :=
  existsb (matchesPrefix pathname) PUBLIC_API_PREFIXES.

End MiddlewareAuth.

(** ** cloud/src/utils/forwardAuth.js *)

Module ForwardAuth.
Local Open Scope string_scope.
Import JsString.

(** The fields of a parsed [URL] that the checks read. *)
Record URL : Type := {
  protocol : string;
  hostname : string
}.

Inductive Validation : Type :=
| Valid
| Invalid (error : string).

(** The private, loopback and link-local IPv4 ranges, on the first two
    numbers of a dotted quad. *)
Definition privateRange (a b : N) : bool :=
  ((a =? 10)
   || ((a =? 172) && (16 <=? b) && (b <=? 31))
   || ((a =? 192) && (b =? 168))
   || (a =? 127)
   || ((a =? 169) && (b =? 254)))%N.

(** [isPrivateOrLocalHost]; the empty string is the falsy hostname. *)
Definition isPrivateOrLocalHost (hostname : string) : bool :=
  if String.eqb hostname "" then true
  else
    let h := toLowerCase hostname in
    if String.eqb h "localhost" || String.eqb h "127.0.0.1" || endsWith h ".local"
    then true
    else
      match matchIPv4 hostname with
      | Some (a, b, _, _) =>
          if privateRange a b then true
          else String.eqb h "[::1]" || startsWith h "fe80:" || startsWith h "::1"
      | None => String.eqb h "[::1]" || startsWith h "fe80:" || startsWith h "::1"
      end.

Section Platform.
(** [new URL(s)]: the platform's parser, [None] when it throws. *)
Variable parseURL : string -> option URL.

Definition validateForwardUrl (targetUrl : string) : Validation :=
  match parseURL targetUrl with
  | None => Invalid "Invalid URL"
  | Some url =>
      if negb (String.eqb (protocol url) "https:")
      then Invalid "Only HTTPS URLs are allowed"
      else if isPrivateOrLocalHost (hostname url)
      then Invalid "Private or localhost URLs are not allowed"
      else Valid
  end.
End Platform.

End ForwardAuth.

(** ** src/lib/validateBaseUrl.js *)

Module ValidateBaseUrl.
Local Open Scope string_scope.
Import JsString.

Section Platform.
Variable parseURL : string -> option ForwardAuth.URL.

(** [validateBaseUrlForFetch]; a [None] argument is one that is missing or
    not a string. *)
Definition validateBaseUrlForFetch (baseUrl : option string) : ForwardAuth.Validation :=
  match baseUrl with
  | None => ForwardAuth.Invalid "Invalid base URL"
  | Some baseUrl =>
      if String.eqb baseUrl "" then ForwardAuth.Invalid "Invalid base URL"
      else
        match parseURL (trim baseUrl) with
        | None => ForwardAuth.Invalid "Invalid base URL"
        | Some url =>
            if negb (String.eqb (ForwardAuth.protocol url) "https:")
            then ForwardAuth.Invalid "Only HTTPS URLs are allowed for validation"
            else
              let hostname := toLowerCase (ForwardAuth.hostname url) in
              if String.eqb hostname "localhost"
                 || String.eqb hostname "127.0.0.1"
                 || endsWith hostname ".local"
              then ForwardAuth.Invalid "Localhost URLs are not allowed for validation"
              else
                match matchIPv4 (ForwardAuth.hostname url) with
                | Some (a, b, _, _) =>
                    if (a =? 10)%N
                    then ForwardAuth.Invalid "Private IP ranges are not allowed"
                    else if ((a =? 172) && (16 <=? b) && (b <=? 31))%N
                    then ForwardAuth.Invalid "Private IP ranges are not allowed"
                    else if ((a =? 192) && (b =? 168))%N
                    then ForwardAuth.Invalid "Private IP ranges are not allowed"
                    else if (a =? 127)%N
                    then ForwardAuth.Invalid "Loopback is not allowed"
                    else if ((a =? 169) && (b =? 254))%N
                    then ForwardAuth.Invalid "Link-local is not allowed"
                    else ForwardAuth.Valid
                | None => ForwardAuth.Valid
                end
        end
  end.
End Platform.

End ValidateBaseUrl.

(** ** JavaScript values and objects, as the settings route handles them *)

Module Js.
Local Open Scope string_scope.
Local Set Warnings "-register-all".

Inductive value : Type :=
| Undefined
| Null
| Bool (b : bool)
| Number (x : float)
| Str (s : string)
| Array (items : list value)
| Object (fields : list (string * value)).

(** [v !== undefined]. *)
Definition isDefined (v : value) : bool :=
  match v with Undefined => false | _ => true end.

(** ToBoolean. *)
Definition truthy (v : value) : bool :=
  match v with
  | Undefined | Null => false
  | Bool b => b
  | Number x => negb (is_zero x || is_nan x)
  | Str s => negb (String.eqb s "")
  | Array _ | Object _ => true
  end.

(** An object is its own (data) properties together with those of the
    objects on its prototype chain, nearest first. *)
Record object : Type := {
  own : gmap string value;
  protos : list (gmap string value)
}.

Fixpoint getFrom (chain : list (gmap string value)) (k : string) : value :=
  match chain with
  | [] => Undefined
  | props :: rest =>
      match props !! k with
      | Some v => v
      | None => getFrom rest k
      end
  end.

(** The property read [o[k]]: it walks the chain and yields [undefined]
    when no object on it has [k]. *)
Definition get (o : object) (k : string) : value :=
  getFrom (own o :: protos o) k.

(** [o[k] = v] and [delete o[k]] act on the own properties. *)
Definition set (o : object) (k : string) (v : value) : object :=
  {| own := <[ k := v ]> (own o); protos := protos o |}.

Definition delete (o : object) (k : string) : object :=
  {| own := base.delete k (own o); protos := protos o |}.

End Js.

(** ** src/lib/settingsAllowlist.js *)

Module SettingsAllowlist.
Local Open Scope string_scope.
Import Js.

Definition ALLOWED_SETTINGS_KEYS : list string :=
  [ "cloudEnabled";
    "cloudUrl";
    "stickyRoundRobinLimit";
    "requireLogin";
    "observabilityEnabled";
    "observabilityMaxRecords";
    "observabilityBatchSize";
    "observabilityFlushIntervalMs";
    "observabilityMaxJsonSize";
    "password" ].

(** The loop body: [if (body[key] !== undefined) updates[key] = body[key]]. *)
Definition copyKey (body : object) (updates : gmap string value) (key : string)
  : gmap string value :=
  if isDefined (get body key) then <[ key := get body key ]> updates
  else updates.

(** [filterAllowedSettings]: the fresh object [updates], by its own
    properties. *)
Definition filterAllowedSettings (body : object) : gmap string value :=
  foldl (copyKey body) ∅ ALLOWED_SETTINGS_KEYS.

End SettingsAllowlist.

(** ** src/app/api/settings/route.js, the PATCH handler *)

Module SettingsRoute.
Local Open Scope string_scope.
Import Js SettingsAllowlist.

(** What the handler does with a request: it answers with an error status
    and updates nothing (400 or 401 from a check, 500 with the error's
    message from its [catch]), or it hands [updates] to [updateSettings]. *)
Inductive outcome : Type :=
| Rejected (status : Z) (message : string)
| Caught
| Updated (updates : gmap string value).

Section Handler.
(** The collaborators: bcryptjs ([None] when it throws, which the
    handler's [catch] turns into a 500), the salt [genSalt] drew, the
    stored settings and [process.env.NODE_ENV === "production"]. *)
Variable bcryptCompare : value -> value -> option bool.
Variable bcryptHash : value -> string -> option string.
Variable salt : string.
Variable settings : gmap string value.
Variable production : bool.

Definition isDefaultPassword (v : value) : bool :=
  match v with Str s => String.eqb s "123456" | _ => false end.

Definition storedPassword : value :=
  match settings !! "password" with Some v => v | None => Undefined end.

(** The check of the current password inside [if (body.newPassword)];
    [None] lets the handler go on. *)
Definition checkCurrentPassword (body : object) : option outcome :=
  let currentHash := storedPassword in
  let currentPassword := get body "currentPassword" in
  if truthy currentHash then
    if negb (truthy currentPassword)
    then Some (Rejected 400 "Current password required")
    else
      match bcryptCompare currentPassword currentHash with
      | None => Some Caught
      | Some false => Some (Rejected 401 "Invalid current password")
      | Some true => None
      end
  else
    if production && isDefaultPassword currentPassword
    then Some (Rejected 400 "Change the default password before setting a new one")
    else if truthy currentPassword && negb (isDefaultPassword currentPassword)
    then Some (Rejected 401 "Invalid current password")
    else None.

Definition PATCH (body : object) : outcome :=
  if truthy (get body "newPassword") then
    match checkCurrentPassword body with
    | Some rejected => rejected
    | None =>
        match bcryptHash (get body "newPassword") salt with
        | None => Caught
        | Some hashed =>
            let body := set body "password" (Str hashed) in
            let body := delete body "newPassword" in
            let body := delete body "currentPassword" in
            Updated (filterAllowedSettings body)
        end
    end
  else Updated (filterAllowedSettings body).
End Handler.

End SettingsRoute.

(** ** The later revision of the allowlist and of the PATCH handler
       (src/lib/settingsAllowlist.js and src/app/api/settings/route.js as
       tests/security/settingsAllowlist.test.js expects them) *)

Module SettingsHardened.
Local Open Scope string_scope.
Import Js.

(** "password" is intentionally excluded; the route updates it only after
    hashing. *)
Definition ALLOWED_SETTINGS_KEYS : list string :=
  [ "cloudEnabled";
    "cloudUrl";
    "stickyRoundRobinLimit";
    "requireLogin";
    "observabilityEnabled";
    "observabilityMaxRecords";
    "observabilityBatchSize";
    "observabilityFlushIntervalMs";
    "observabilityMaxJsonSize" ].

Definition filterAllowedSettings (body : object) : gmap string value :=
  foldl (SettingsAllowlist.copyKey body) ∅ ALLOWED_SETTINGS_KEYS.

Section Handler.
Variable bcryptCompare : value -> value -> option bool.
Variable bcryptHash : value -> string -> option string.
Variable salt : string.
Variable settings : gmap string value.
Variable production : bool.

(** [PATCH]: the password is set from [hashedNewPassword] alone, after the
    filter. *)
Definition PATCH (body : object) : SettingsRoute.outcome :=
  if truthy (get body "newPassword") then
    match SettingsRoute.checkCurrentPassword bcryptCompare settings production body with
    | Some rejected => rejected
    | None =>
        match bcryptHash (get body "newPassword") salt with
        | None => SettingsRoute.Caught
        | Some hashedNewPassword =>
            let body := delete body "newPassword" in
            let body := delete body "currentPassword" in
            let updates := filterAllowedSettings body in
            SettingsRoute.Updated (<[ "password" := Str hashedNewPassword ]> updates)
        end
    end
  else SettingsRoute.Updated (filterAllowedSettings body).
End Handler.

End SettingsHardened.

(** ** src/lib/oauth/utils/redirectUri.js *)

Module RedirectUri.
Local Open Scope string_scope.
Import JsString.

(** The fields of a parsed [URL] that the check reads. *)
Record URL : Type := {
  pathname : string;
  origin : string;
  hostname : string;
  port : string
}.

(** [/^\d+$/.test(s)]. *)
Definition isNumeric (s : string) : bool :=
  negb (String.eqb s "") && allDigits s.

(** The conditions under which a requested URI is accepted, as the file's
    header comment words them. *)
Definition callbackPath (u : URL) : Prop :=
  pathname u = "/callback" \/ endsWith (pathname u) "/callback" = true.

Definition sameOrigin (origin : string) (u : URL) : Prop :=
  RedirectUri.origin u = origin.

Definition localCallback (u : URL) : Prop :=
  (hostname u = "localhost" \/ hostname u = "127.0.0.1")
  /\ (port u = "" \/ isNumeric (port u) = true).

Section Platform.
(** [new URL(s)]: the platform's parser, [None] when it throws. *)
Variable parseURL : string -> option URL.

(** [getAllowedRedirectUri]; a [None] argument is a [null] or
    [undefined] one, a [None] result is [null]. *)
Definition getAllowedRedirectUri (origin : string)
    (requestedRedirectUri : option string) : option string :=
  let defaultCallback := origin +:+ "/callback" in
  match requestedRedirectUri with
  | None => Some defaultCallback
  | Some requested =>
      if String.eqb requested "" then Some defaultCallback
      else
        match parseURL requested with
        | None => None
        | Some u =>
            if negb (String.eqb (pathname u) "/callback")
               && negb (endsWith (pathname u) "/callback")
            then None
            else
              let sameOrigin := String.eqb (RedirectUri.origin u) origin in
              let localCallback :=
                (String.eqb (hostname u) "localhost"
                 || String.eqb (hostname u) "127.0.0.1")
                && (String.eqb (port u) "" || isNumeric (port u)) in
              if sameOrigin || localCallback then Some requested
              else None
        end
  end.
End Platform.

End RedirectUri.

(** ** The engine: Streaming Controller (specification section 4.4) *)

Module Streaming.

(** Modelled from the spec: what the upstream source delivers (the
    controller itself, open-sse/utils/stream.js, is not among the
    sources).  A content event carries its payload and the tokens it
    emits; a keep-alive carries nothing; the explicit end-of-stream marker
    is the terminal event. *)
Inductive UpstreamEvent : Type :=
| ContentDelta (payload : string) (tokens : nat)
| KeepAlive
| EndOfStream.

(** Modelled from the spec: one suspension point of the controller, which
    is missing from the sources: the clock when the bytes arrive, the
    event they carry, and the caller's cancellation signal as checked at
    that chunk.  An upstream is the list of these up to the connection's
    close. *)
Record Observation : Type := {
  arrivedAt : Z;
  event : UpstreamEvent;
  callerGone : bool
}.

(** Modelled from the spec: StreamTelemetry of section 3 (its producer is
    missing from the sources). *)
Record StreamTelemetry : Type := {
  requestStart : Z;
  timeToFirstByte : option Z;
  timeOfLastByte : option Z;
  chunkCount : nat;
  emittedTokens : nat
}.

(** Modelled from the spec: the stream errors of section 7 and the
    controller's two outcomes, a completion record or a failed response,
    each with the telemetry finalized at that point. *)
Inductive StreamError : Type :=
| StreamTruncatedError
| Cancelled.

Inductive StreamResult : Type :=
| Completed (telemetry : StreamTelemetry)
| Failed (error : StreamError) (telemetry : StreamTelemetry).

(** Modelled from the spec: the target mode of the missing controller;
    passthrough re-emits the upstream frame, translate reshapes it into a
    canonical chunk and then into the caller's format. *)
Inductive Mode (Chunk : Type) : Type :=
| Passthrough
| Translate (toCanonicalChunk : string -> Chunk) (toCallerFrame : Chunk -> string).
Arguments Passthrough {Chunk}.
Arguments Translate {Chunk} _ _.

Definition emit {Chunk} (mode : Mode Chunk) (payload : string) : string :=
  match mode with
  | Passthrough => payload
  | Translate toCanonicalChunk toCallerFrame =>
      toCallerFrame (toCanonicalChunk payload)
  end.

(** Modelled from the spec: "on the first byte observed, record
    time-to-first-byte". *)
Definition observeByte (now : Z) (t : StreamTelemetry) : StreamTelemetry :=
  match timeToFirstByte t with
  | Some _ => t
  | None =>
      {| requestStart := requestStart t; timeToFirstByte := Some now;
         timeOfLastByte := timeOfLastByte t; chunkCount := chunkCount t;
         emittedTokens := emittedTokens t |}
  end.

(** Modelled from the spec: a content frame adds to the chunk count and
    to the emitted tokens. *)
Definition countChunk (tokens : nat) (t : StreamTelemetry) : StreamTelemetry :=
  {| requestStart := requestStart t; timeToFirstByte := timeToFirstByte t;
     timeOfLastByte := timeOfLastByte t; chunkCount := S (chunkCount t);
     emittedTokens := (emittedTokens t + tokens)%nat |}.

(** Modelled from the spec: "on the terminal event, record
    time-of-last-byte". *)
Definition recordLastByte (now : Z) (t : StreamTelemetry) : StreamTelemetry :=
  {| requestStart := requestStart t; timeToFirstByte := timeToFirstByte t;
     timeOfLastByte := Some now; chunkCount := chunkCount t;
     emittedTokens := emittedTokens t |}.

(** Modelled from the spec: the controller's loop, missing from the
    sources.  It yields the frames emitted to the caller, in order, and
    the outcome: completion at the end-of-stream marker; a
    StreamTruncatedError when the connection closes first (the list
    ends), whatever was emitted; Cancelled when the caller is gone at a
    chunk. *)
Fixpoint consume {Chunk} (mode : Mode Chunk) (upstream : list Observation)
    (t : StreamTelemetry) : list string * StreamResult :=
  match upstream with
  | [] => ([], Failed StreamTruncatedError t)
  | o :: rest =>
      if callerGone o then ([], Failed Cancelled t)
      else
        let t := observeByte (arrivedAt o) t in
        match event o with
        | EndOfStream => ([], Completed (recordLastByte (arrivedAt o) t))
        | KeepAlive => consume mode rest t
        | ContentDelta payload tokens =>
            let '(frames, result) := consume mode rest (countChunk tokens t) in
            (emit mode payload :: frames, result)
        end
  end.

(** Modelled from the spec: telemetry is "created at execution start". *)
Definition startTelemetry (start : Z) : StreamTelemetry :=
  {| requestStart := start; timeToFirstByte := None; timeOfLastByte := None;
     chunkCount := 0; emittedTokens := 0 |}.

Definition stream {Chunk} (mode : Mode Chunk) (start : Z)
    (upstream : list Observation) : list string * StreamResult :=
  consume mode upstream (startTelemetry start).

(** Modelled from the spec: the telemetry an outcome carries. *)
Definition telemetryOf (r : StreamResult) : StreamTelemetry :=
  match r with
  | Completed t => t
  | Failed _ t => t
  end.

(** The upstream never sends the terminal marker, and the caller stays. *)
Definition closesWithoutMarker (upstream : list Observation) : Prop :=
  Forall (fun o => event o <> EndOfStream /\ callerGone o = false) upstream.

(** The clock does not run backwards from the request's start on. *)
Fixpoint clockMonotone (from : Z) (upstream : list Observation) : Prop :=
  match upstream with
  | [] => True
  | o :: rest => from <= arrivedAt o /\ clockMonotone (arrivedAt o) rest
  end.

End Streaming.

(** ** The engine: Account Fallback Policy and the Orchestrator's loop
       (specification sections 3, 4.3, 7 and the state machine) *)

Module Fallback.

(** Modelled from the spec: the four classes of section 4.3 (the policy
    itself is not among the sources). *)
Inductive ErrorClass : Type :=
| Transient
| AuthExpired
| QuotaExceeded
| Fatal.

(** Modelled from the spec: the ExecutionError of section 4.2, missing
    from the sources: an HTTP status or a transport error kind, and the
    vendor's error body as far as the classification reads it. *)
Inductive Status : Type :=
| Http (code : Z)
| NetworkTimeout.

Record ExecutionError : Type := {
  status : Status;
  tokenExpiryIndicator : bool;
  quotaExceededBody : bool;
  vendorMessage : string
}.

(** Modelled from the spec: [classify] of section 4.3, whose code is
    missing: 401/403 with a token-expiry indicator is AuthExpired; 429 or
    a quota-exceeded body is QuotaExceeded; timeouts and 5xx are
    Transient; every other failure is Fatal. *)
Definition classify (e : ExecutionError) : ErrorClass :=
  match status e with
  | Http code =>
      if ((code =? 401) || (code =? 403)) && tokenExpiryIndicator e
      then AuthExpired
      else if (code =? 429) || quotaExceededBody e then QuotaExceeded
      else if (500 <=? code) && (code <=? 599) then Transient
      else Fatal
  | NetworkTimeout => Transient
  end.

(** Modelled from the spec: an Account of section 3 as the policy reads
    it (who it is and whose it is), and its mutable cooldown state, which
    lives in the caller's credential store under the account's id; an
    account with no entry was never cooled down. *)
Record Account : Type := {
  accountId : string;
  provider : string
}.

Record Cooldown : Type := {
  cooledDownUntil : Z;
  lastErrorClass : ErrorClass
}.

(** Modelled from the spec: "whose cooledDownUntil is in the future". *)
Definition cooledDown (store : gmap string Cooldown) (now : Z) (a : Account) : bool :=
  match store !! accountId a with
  | Some c => now <? cooledDownUntil c
  | None => false
  end.

(** Modelled from the spec: what one account's attempt left behind, for
    the aggregated error of section 7. *)
Inductive Failure : Type :=
| ExecutionFailed (e : ExecutionError)
| RefreshFailed
| CoolingDown (c : Cooldown).

(** Modelled from the spec: the ExecutionContext of section 3, less the
    request it carries: the position in the Combo, the last error of
    each attempted account, and the attempt counter. *)
Record ExecutionContext : Type := {
  position : nat;
  errors : gmap string Failure;
  attempts : nat
}.

(** Modelled from the spec: the result of [selectNext], an Account (with
    the index it sits at) or Exhausted. *)
Inductive Selection : Type :=
| Selected (a : Account) (index : nat)
| Exhausted.

(** Modelled from the spec: the scan behind [selectNext], missing from
    the sources: the first candidate that is not cooled down. *)
Fixpoint scan (store : gmap string Cooldown) (now : Z)
    (candidates : list Account) (index : nat) : Selection :=
  match candidates with
  | [] => Exhausted
  | a :: rest =>
      if cooledDown store now a then scan store now rest (S index)
      else Selected a index
  end.

(** Modelled from the spec: [selectNext(combo, context)] of section 4.3,
    whose code is missing; it reads the cooldowns of the store at the
    moment [now] and only looks from the context's position on. *)
Definition selectNext (store : gmap string Cooldown) (now : Z)
    (combo : list Account) (context : ExecutionContext) : Selection :=
  scan store now (drop (position context) combo) (position context).

(** Modelled from the spec: what the Orchestrator's surroundings answer,
    indexed by the attempt counter at the suspension point: the
    executor's network call, the forced credential refresh, the clock
    and the caller's cancellation signal. *)
Inductive Response : Type :=
| Succeeded (body : string)
| Rejected (e : ExecutionError).

Record Upstream : Type := {
  execute : nat -> Account -> Response;
  refreshCredentials : nat -> Account -> bool;
  clock : nat -> Z;
  cancelled : nat -> bool
}.

(** Modelled from the spec: the two constants section 9 leaves open, the
    provider's backoff window and the cap on Transient retries. *)
Record Policy : Type := {
  backoff : string -> Z;
  transientCap : nat
}.

(** Modelled from the spec: what the loop did, newest first. *)
Inductive Event : Type :=
| SelectNextCalled (result : Selection)
| Executed (a : Account) (r : Response)
| Refreshed (a : Account) (ok : bool).

Record State : Type := {
  context : ExecutionContext;
  cooldowns : gmap string Cooldown;
  log : list Event
}.

(** Modelled from the spec: the terminal errors of section 7 that the
    loop can end in, and the request's result. *)
Inductive EngineError : Type :=
| ComboExhaustedError (entries : gmap string Failure)
| CancelledError.

Inductive Result : Type :=
| Completed (a : Account) (body : string)
| Failed (e : EngineError).

Inductive AttemptOutcome : Type :=
| Done (body : string)
| GiveUp
| Stop.

Definition logged (ev : Event) (st : State) : State :=
  {| context := context st; cooldowns := cooldowns st; log := ev :: log st |}.

Definition ticked (st : State) : State :=
  {| context := {| position := position (context st);
                   errors := errors (context st);
                   attempts := S (attempts (context st)) |};
     cooldowns := cooldowns st; log := log st |}.

Definition failedWith (a : Account) (f : Failure) (st : State) : State :=
  {| context := {| position := position (context st);
                   errors := <[ accountId a := f ]> (errors (context st));
                   attempts := attempts (context st) |};
     cooldowns := cooldowns st; log := log st |}.

Definition advancedTo (index : nat) (st : State) : State :=
  {| context := {| position := index;
                   errors := errors (context st);
                   attempts := attempts (context st) |};
     cooldowns := cooldowns st; log := log st |}.

Section Orchestrator.
Variable policy : Policy.
Variable upstream : Upstream.
Variable combo : list Account.

Definition now (st : State) : Z := clock upstream (attempts (context st)).

(** Modelled from the spec: QuotaExceeded sets cooledDownUntil "to now
    + a provider-specific backoff window". *)
Definition coolDown (a : Account) (st : State) : State :=
  {| context := context st;
     cooldowns :=
       <[ accountId a := {| cooledDownUntil := now st + backoff policy (provider a);
                            lastErrorClass := QuotaExceeded |} ]> (cooldowns st);
     log := log st |}.

(** Modelled from the spec: one network call of the executor; a
    rejection becomes the account's last error. *)
Definition callOnce (a : Account) (st : State) : Response * State :=
  let r := execute upstream (attempts (context st)) a in
  let st := ticked (logged (Executed a r) st) in
  match r with
  | Succeeded _ => (r, st)
  | Rejected e => (r, failedWith a (ExecutionFailed e) st)
  end.

(** Modelled from the spec: the attempts against one selected account
    (the loop is missing from the sources).  Cancellation is checked
    before each network call; QuotaExceeded cools the account down and
    gives up on it; Transient retries the same account while the cap
    lasts; Fatal gives up at once; AuthExpired is left to
    [onAuthExpired]. *)
Fixpoint tryAccount (onAuthExpired : nat -> State -> AttemptOutcome * State)
    (transientLeft : nat) (a : Account) (st : State) : AttemptOutcome * State :=
  if cancelled upstream (attempts (context st)) then (Stop, st)
  else
    let '(r, st) := callOnce a st in
    match r with
    | Succeeded body => (Done body, st)
    | Rejected e =>
        match classify e with
        | QuotaExceeded => (GiveUp, coolDown a st)
        | Transient =>
            match transientLeft with
            | S fewer => tryAccount onAuthExpired fewer a st
            | O => (GiveUp, st)
            end
        | AuthExpired => onAuthExpired transientLeft st
        | Fatal => (GiveUp, st)
        end
    end.

(** Modelled from the spec: after the one forced refresh, AuthExpired
    again is Fatal. *)
Definition retryAfterRefresh : nat -> Account -> State -> AttemptOutcome * State :=
  tryAccount (fun _ st => (GiveUp, st)).

(** Modelled from the spec: the first AuthExpired forces a refresh and
    retries the same account once; a refresh that fails (RefreshError)
    counts as AuthExpired recurring, hence Fatal. *)
Definition forceRefresh (a : Account) (transientLeft : nat) (st : State)
  : AttemptOutcome * State :=
  if cancelled upstream (attempts (context st)) then (Stop, st)
  else
    let ok := refreshCredentials upstream (attempts (context st)) a in
    let st := ticked (logged (Refreshed a ok) st) in
    if ok then retryAfterRefresh transientLeft a st
    else (GiveUp, failedWith a RefreshFailed st).

Definition attempt (a : Account) (st : State) : AttemptOutcome * State :=
  tryAccount (forceRefresh a) (transientCap policy) a st.

(** Modelled from the spec: the entry of one account in the aggregated
    error: its last failure in this request, or else the cooldown that
    kept it from being selected. *)
Definition lastFailureById (st : State) (id : string) : option Failure :=
  match errors (context st) !! id with
  | Some f => Some f
  | None => CoolingDown <$> cooldowns st !! id
  end.

Definition lastFailureOf (st : State) (a : Account) : option Failure :=
  lastFailureById st (accountId a).

Definition aggregate (st : State) : gmap string Failure :=
  foldr (fun a entries =>
           match lastFailureOf st a with
           | Some f => <[ accountId a := f ]> entries
           | None => entries
           end) ∅ combo.

(** Modelled from the spec: the Orchestrator's loop over the Combo,
    AccountSelected -> Executing -> Classifying -> AccountSelected or
    Exhausted -> Failed (its code is missing).  Each round calls
    [selectNext] once; giving up on the selected account advances the
    position past it.  [None] is a loop cut short by [fuel]. *)
Fixpoint loop (fuel : nat) (st : State) : option (Result * State) :=
  match fuel with
  | O => None
  | S fuel =>
      let selection := selectNext (cooldowns st) (now st) combo (context st) in
      let st := logged (SelectNextCalled selection) st in
      match selection with
      | Exhausted => Some (Failed (ComboExhaustedError (aggregate st)), st)
      | Selected a index =>
          match attempt a st with
          | (Done body, st) => Some (Completed a body, st)
          | (Stop, st) => Some (Failed CancelledError, st)
          | (GiveUp, st) => loop fuel (advancedTo (S index) st)
          end
      end
  end.

Definition start (store : gmap string Cooldown) : State :=
  {| context := {| position := 0; errors := ∅; attempts := 0 |};
     cooldowns := store; log := [] |}.

(** One round per account and one more to find the Combo exhausted. *)
Definition run (store : gmap string Cooldown) : option (Result * State) :=
  loop (S (length combo)) (start store).
End Orchestrator.

(** Modelled from the spec: readings of the log. *)
Definition isSelectNext (ev : Event) : bool :=
  match ev with SelectNextCalled _ => true | _ => false end.

Definition isNetworkCall (ev : Event) : bool :=
  match ev with Executed _ _ | Refreshed _ _ => true | _ => false end.

Definition selections (events : list Event) : list Selection :=
  omap (fun ev => match ev with SelectNextCalled s => Some s | _ => None end)
       (reverse events).

Definition networkCalls (events : list Event) : nat :=
  length (filter (fun ev => isNetworkCall ev = true) events).

(** The last failure the log (newest first) holds for an account. *)
Fixpoint lastFailureInLog (id : string) (events : list Event) : option Failure :=
  match events with
  | [] => None
  | Executed a (Rejected e) :: older =>
      if String.eqb (accountId a) id then Some (ExecutionFailed e)
      else lastFailureInLog id older
  | Refreshed a false :: older =>
      if String.eqb (accountId a) id then Some RefreshFailed
      else lastFailureInLog id older
  | _ :: older => lastFailureInLog id older
  end.

(** What the theorems say the loop maintains.  The errors of the context
    are the last failures of the log. *)
Definition consistent (st : State) : Prop :=
  forall id, errors (context st) !! id = lastFailureInLog id (log st).

(** What the attempts against one account may change: they leave the
    position alone, forget no error and no cooldown, and call no
    [selectNext]. *)
Record Step (st st' : State) : Prop := {
  step_position : position (context st') = position (context st);
  step_errors : forall id, is_Some (errors (context st) !! id) ->
                           is_Some (errors (context st') !! id);
  step_cooldowns : forall id, is_Some (cooldowns st !! id) ->
                              is_Some (cooldowns st' !! id);
  step_log : exists recent, log st' = (recent ++ log st)%list
                            /\ Forall (fun ev => isSelectNext ev = false) recent;
  step_consistent : consistent st -> consistent st'
}.

(** An account has its failure on record. *)
Definition recorded (a : Account) (st : State) : Prop :=
  is_Some (errors (context st) !! accountId a).

Definition Good (a : Account) (st : State) (result : AttemptOutcome * State) : Prop :=
  Step st (snd result) /\ (fst result = GiveUp -> recorded a (snd result)).

(** Every account before the position has left a failure or a cooldown. *)
Definition covered (combo : list Account) (st : State) : Prop :=
  forall j b, (j < position (context st))%nat -> combo !! j = Some b ->
              is_Some (lastFailureOf st b).

End Fallback.

(** ** The engine: Format Registry (specification sections 3 and 4.1) *)

Module FormatRegistry.
Local Open Scope string_scope.

(** Modelled from the spec: the canonical schema of section 3 (the
    translators are not among the sources): a message has a role and
    content parts, which are text, image, tool-call or tool-result. *)
Inductive Role : Type :=
| System
| User
| Assistant
| Tool.

Inductive ContentPart : Type :=
| Text (text : string)
| Image (reference : string)
| ToolCall (callId name arguments : string)
| ToolResult (callId output : string).

Record Message : Type := {
  role : Role;
  content : list ContentPart
}.

Record ToolDefinition : Type := {
  toolName : string;
  parameterSchema : string
}.

(** Modelled from the spec: a vendor's wire request, which the missing
    translators read and write: named fields, each holding a string, a
    flag, a number, the message list under the vendor's role names, the
    tool definitions, or some vendor-specific value kept as it came. *)
Record WireMessage : Type := {
  wireRole : string;
  wireContent : list ContentPart
}.

Inductive Field : Type :=
| FString (s : string)
| FBool (b : bool)
| FNumber (x : float)
| FMessages (messages : list WireMessage)
| FTools (tools : list ToolDefinition)
| FVendor (rawJson : string).

(** Modelled from the spec: the passthrough side-channel of section 4.1,
    the fields that have no canonical equivalent, tagged with the format
    they came in. *)
Record Passthrough : Type := {
  source : string;
  extras : gmap string Field
}.

(** Modelled from the spec: CanonicalRequest of section 3: messages, model
    identifier, sampling parameters, tool definitions, the stream flag, and
    the passthrough side-channel.  What a request may leave out (a
    sampling parameter, the tool definitions, the stream flag) is
    optional here too, so that the canonical request tells a field that was
    left out from one that was set. *)
Record CanonicalRequest : Type := {
  model : string;
  messages : list Message;
  temperature : option float;
  topP : option float;
  maxTokens : option float;
  tools : option (list ToolDefinition);
  stream : option bool;
  passthrough : Passthrough
}.

(** Modelled from the spec: one format, that is, the vendor's own names
    for the fields and roles of the canonical schema (canonical values
    never carry these names).  A vendor need not have a name for every
    role. *)
Record Vendor : Type := {
  modelField : string;
  messagesField : string;
  temperatureField : string;
  topPField : string;
  maxTokensField : string;
  toolsField : string;
  streamField : string;
  roleName : Role -> option string
}.

Definition allRoles : list Role := [System; User; Assistant; Tool].

Definition canonicalFields (v : Vendor) : list string :=
  [ modelField v; messagesField v; temperatureField v; topPField v;
    maxTokensField v; toolsField v; streamField v ].

Definition roleNames (v : Vendor) : list string := omap (roleName v) allRoles.

(** A format can be told apart on the wire when its field names differ
    from one another and so do the role names it has. *)
Definition wellFormed (v : Vendor) : Prop :=
  NoDup (canonicalFields v) /\ NoDup (roleNames v).

(** Modelled from the spec: "formats are registered under a stable key"
    in a mapping "built once during process initialization" (sections 4.1
    and 8).  Registration refuses a format whose names clash, which then
    stays unsupported. *)
Definition register (registry : gmap string Vendor) (entry : string * Vendor)
  : gmap string Vendor :=
  if decide (wellFormed entry.2) then <[ entry.1 := entry.2 ]> registry
  else registry.

Definition buildRegistry (formats : list (string * Vendor))
  : gmap string Vendor :=
  foldl register ∅ formats.

(** Modelled from the spec: the errors of section 7 a translation ends in. *)
Inductive TranslationFailure : Type :=
| UnsupportedFormatError (format : string)
| TranslationError (field : string).

Inductive Outcome (A : Type) : Type :=
| Ok (a : A)
| Failed (e : TranslationFailure).
Arguments Ok {A} a.
Arguments Failed {A} e.

#[global] Instance Outcome_bind : MBind Outcome := fun A B k o =>
  match o with
  | Ok a => k a
  | Failed e => Failed e
  end.

Fixpoint traverse {A B} (f : A -> Outcome B) (l : list A) : Outcome (list B) :=
  match l with
  | [] => Ok []
  | x :: rest => y ← f x; ys ← traverse f rest; Ok (y :: ys)
  end.

(** Modelled from the spec: the registry "must fail closed": an
    unregistered format is an UnsupportedFormatError. *)
Definition lookupFormat (registry : gmap string Vendor) (format : string)
  : Outcome Vendor :=
  match registry !! format with
  | Some v => Ok v
  | None => Failed (UnsupportedFormatError format)
  end.

Definition decodeRole (v : Vendor) (name : string) : option Role :=
  List.find (fun r => bool_decide (roleName v r = Some name)) allRoles.

Definition decodeMessage (v : Vendor) (w : WireMessage) : Outcome Message :=
  match decodeRole v (wireRole w) with
  | Some r => Ok {| role := r; content := wireContent w |}
  | None => Failed (TranslationError "role")
  end.

(** A role the vendor has no name for cannot be written: the translation
    fails rather than put another role in its place. *)
Definition encodeMessage (v : Vendor) (m : Message) : Outcome WireMessage :=
  match roleName v (role m) with
  | Some name => Ok {| wireRole := name; wireContent := content m |}
  | None => Failed (TranslationError "role")
  end.

Definition requireString (raw : gmap string Field) (k : string) : Outcome string :=
  match raw !! k with
  | Some (FString s) => Ok s
  | _ => Failed (TranslationError k)
  end.

Definition requireMessages (raw : gmap string Field) (k : string)
  : Outcome (list WireMessage) :=
  match raw !! k with
  | Some (FMessages ws) => Ok ws
  | _ => Failed (TranslationError k)
  end.

Definition optionalNumber (raw : gmap string Field) (k : string)
  : Outcome (option float) :=
  match raw !! k with
  | None => Ok None
  | Some (FNumber x) => Ok (Some x)
  | Some _ => Failed (TranslationError k)
  end.

Definition optionalTools (raw : gmap string Field) (k : string)
  : Outcome (option (list ToolDefinition)) :=
  match raw !! k with
  | None => Ok None
  | Some (FTools ts) => Ok (Some ts)
  | Some _ => Failed (TranslationError k)
  end.

Definition optionalBool (raw : gmap string Field) (k : string)
  : Outcome (option bool) :=
  match raw !! k with
  | None => Ok None
  | Some (FBool b) => Ok (Some b)
  | Some _ => Failed (TranslationError k)
  end.

(** Modelled from the spec: [toCanonical(sourceFormat, rawRequest)] of
    section 4.1, whose code is missing: the canonical fields are read under
    the vendor's names, and every other field goes to the passthrough
    side-channel. *)
Definition toCanonical (registry : gmap string Vendor) (sourceFormat : string)
    (raw : gmap string Field) : Outcome CanonicalRequest :=
  v ← lookupFormat registry sourceFormat;
  m ← requireString raw (modelField v);
  ws ← requireMessages raw (messagesField v);
  ms ← traverse (decodeMessage v) ws;
  t ← optionalNumber raw (temperatureField v);
  p ← optionalNumber raw (topPField v);
  n ← optionalNumber raw (maxTokensField v);
  ts ← optionalTools raw (toolsField v);
  s ← optionalBool raw (streamField v);
  Ok {| model := m; messages := ms; temperature := t; topP := p;
        maxTokens := n; tools := ts; stream := s;
        passthrough :=
          {| source := sourceFormat;
             extras := filter (fun kx => kx.1 ∉ canonicalFields v) raw |} |}.

(** The canonical fields under a vendor's names, in the order of
    [canonicalFields], the messages already under the vendor's role
    names; a field that is not set writes nothing. *)
Definition canonicalEntries (v : Vendor) (c : CanonicalRequest)
    (ws : list WireMessage) : list (string * option Field) :=
  [ (modelField v, Some (FString (model c)));
    (messagesField v, Some (FMessages ws));
    (temperatureField v, FNumber <$> temperature c);
    (topPField v, FNumber <$> topP c);
    (maxTokensField v, FNumber <$> maxTokens c);
    (toolsField v, FTools <$> tools c);
    (streamField v, FBool <$> stream c) ].

Definition writeField (entry : string * option Field) (raw : gmap string Field)
  : gmap string Field :=
  match entry.2 with
  | Some x => <[ entry.1 := x ]> raw
  | None => raw
  end.

(** Modelled from the spec: [fromCanonical(targetFormat, canonical)] of
    section 4.1 on a request, whose code is missing: the canonical fields
    under the target's names, over the passthrough fields when they came
    in this very format (those of another vendor are dropped). *)
Definition fromCanonical (registry : gmap string Vendor) (targetFormat : string)
    (c : CanonicalRequest) : Outcome (gmap string Field) :=
  v ← lookupFormat registry targetFormat;
  ws ← traverse (encodeMessage v) (messages c);
  let kept :=
    if String.eqb (source (passthrough c)) targetFormat
    then extras (passthrough c)
    else ∅ in
  Ok (foldr writeField kept (canonicalEntries v c ws)).

End FormatRegistry.

(** ** The engine: credential refresh before execution
       (specification sections 4.2 and 5) *)

Module Refresh.

(** Modelled from the spec: the OAuth token pair of an Account (section 3);
    the executors that refresh it are not among the sources. *)
Record Credentials : Type := {
  accessToken : string;
  refreshToken : string;
  expiry : Z
}.

(** Modelled from the spec: what a request proceeds with once the shared
    base behaviour has run: a token, or the RefreshError of section 7. *)
Inductive Observed : Type :=
| UsesToken (token : string)
| RefreshError.

(** Modelled from the spec: one Account as the requests sharing it see it
    (the state the per-Account mutual-exclusion section of section 5
    guards): its credentials, whether a refresh is in flight, the requests
    waiting for that refresh, what each request went on with, in order,
    and how many [refreshCredentials] calls were issued. *)
Record Slot : Type := {
  credentials : Credentials;
  inFlight : bool;
  waiting : list nat;
  proceeded : list (nat * Observed);
  refreshCalls : nat
}.

(** Modelled from the spec: what can happen to an Account between two
    suspension points: a request reaches the refresh gate at some time, or
    the in-flight [refreshCredentials] call returns (a new pair, or a
    failure). *)
Inductive Event : Type :=
| RequestArrives (request : nat) (now : Z)
| RefreshReturns (fresh : Credentials)
| RefreshFails.

(** Modelled from the spec: "account.expiry is within a safety margin of
    now". *)
Definition due (margin now : Z) (c : Credentials) : bool :=
  expiry c - now <=? margin.

(** Modelled from the spec: the refresh gate of section 4.2, whose code is
    missing.  A request that finds a refresh in flight waits for its
    result; one that finds the credentials due issues the one call and
    waits too; any other goes on with the current token.  When the call
    returns, the new pair is persisted and every waiting request goes on
    with its token; when it fails, they go on with the error. *)
Definition stepSlot (margin : Z) (s : Slot) (ev : Event) : Slot :=
  match ev with
  | RequestArrives request now =>
      if inFlight s then
        {| credentials := credentials s; inFlight := true;
           waiting := waiting s ++ [request];
           proceeded := proceeded s; refreshCalls := refreshCalls s |}
      else if due margin now (credentials s) then
        {| credentials := credentials s; inFlight := true;
           waiting := [request];
           proceeded := proceeded s; refreshCalls := S (refreshCalls s) |}
      else
        {| credentials := credentials s; inFlight := false;
           waiting := waiting s;
           proceeded := proceeded s
                        ++ [(request, UsesToken (accessToken (credentials s)))];
           refreshCalls := refreshCalls s |}
  | RefreshReturns fresh =>
      if inFlight s then
        {| credentials := fresh; inFlight := false; waiting := [];
           proceeded := proceeded s
                        ++ ((fun r => (r, UsesToken (accessToken fresh))) <$> waiting s);
           refreshCalls := refreshCalls s |}
      else s
  | RefreshFails =>
      if inFlight s then
        {| credentials := credentials s; inFlight := false; waiting := [];
           proceeded := proceeded s ++ ((fun r => (r, RefreshError)) <$> waiting s);
           refreshCalls := refreshCalls s |}
      else s
  end.

(** Modelled from the spec: the credential store, one slot per Account id,
    and a schedule: the events of all accounts in the order the tasks
    happen to run. *)
Definition step (margin : Z) (store : gmap string Slot) (ev : string * Event)
  : gmap string Slot :=
  alter (fun s => stepSlot margin s ev.2) ev.1 store.

Definition run (margin : Z) (store : gmap string Slot)
    (schedule : list (string * Event)) : gmap string Slot :=
  foldl (step margin) store schedule.

(** The events of one account in a schedule. *)
Definition eventsOf (account : string) (schedule : list (string * Event))
  : list Event :=
  omap (fun ev => if String.eqb ev.1 account then Some ev.2 else None) schedule.

Definition arrivals (requests : list (nat * Z)) : list Event :=
  (fun r => RequestArrives r.1 r.2) <$> requests.

End Refresh.

(** ** cloud/src/utils/forwardAuth.js, the shared-secret check *)

Module ForwardSecret.
Local Open Scope string_scope.
Import JsString.

(** Header values are byte strings, one character per byte, and a secret
    can only equal one when its characters are below U+0100 too.  Among
    those characters the white space of [\s] and of [trim] is TAB, LF, VT,
    FF, CR, SPACE and NBSP. *)
Definition isSpace (c : ascii) : bool :=
  isWhiteSpace c || (N_of_ascii c =? 160)%N.

Fixpoint skipSpace (s : string) : string :=
  match s with
  | String c rest => if isSpace c then skipSpace rest else s
  | EmptyString => EmptyString
  end.

Definition trimSpace (s : string) : string :=
  String.rev (skipSpace (String.rev (skipSpace s))).

(** [s.replace(/^Bearer\s+/i, "")]: the word in any case, then as much
    white space as follows it, and at least one. *)
Definition stripBearer (s : string) : string :=
  if String.eqb (toLowerCase (substring 0 6 s)) "bearer" then
    match sliceFrom 6 s with
    | String c rest => if isSpace c then skipSpace rest else s
    | EmptyString => s
    end
  else s.

(** A request by what [request.headers.get] returns, [None] for [null];
    an environment by its binding, [None] when it is not set. *)
Record Request : Type := {
  headers_get : string -> option string
}.

Record Env : Type := {
  FORWARD_SECRET : option string
}.

Definition DEFAULT_SECRET : string := "9router-default-forward-secret-change-me".

Definition checkForwardAuth (request : Request) (env : Env)
  : ForwardAuth.Validation :=
  let secret := default DEFAULT_SECRET (FORWARD_SECRET env) in
  let header :=
    match headers_get request "X-Forward-Secret" with
    | Some h => Some h
    | None => stripBearer <$> headers_get request "Authorization"
    end in
  match header with
  | None => ForwardAuth.Invalid "Missing or invalid X-Forward-Secret"
  | Some header =>
      if String.eqb header "" || negb (String.eqb header secret)
      then ForwardAuth.Invalid "Missing or invalid X-Forward-Secret"
      else ForwardAuth.Valid
  end.

End ForwardSecret.

(** ** The later revision of the shared-secret check (no default secret) *)

Module ForwardSecretHardened.
Local Open Scope string_scope.
Import JsString ForwardSecret.

(** [env?.FORWARD_SECRET?.trim()]; [env] itself may be missing. *)
Definition configuredSecret (env : option Env) : option string :=
  match env with
  | None => None
  | Some env => trimSpace <$> FORWARD_SECRET env
  end.

Definition checkForwardAuth (request : Request) (env : option Env)
  : ForwardAuth.Validation :=
  match configuredSecret env with
  | None =>
      ForwardAuth.Invalid "Forward endpoint is not configured (set FORWARD_SECRET)"
  | Some secret =>
      if String.eqb secret ""
      then ForwardAuth.Invalid "Forward endpoint is not configured (set FORWARD_SECRET)"
      else
        let header :=
          match headers_get request "X-Forward-Secret" with
          | Some h => h
          | None =>
              match headers_get request "Authorization" with
              | Some a => stripBearer a
              | None => ""
              end
          end in
        if String.eqb (trimSpace header) ""
           || negb (String.eqb (trimSpace header) secret)
        then ForwardAuth.Invalid "Missing or invalid X-Forward-Secret"
        else ForwardAuth.Valid
  end.

End ForwardSecretHardened.

(** ** src/middleware.js *)

Module Middleware.
Local Open Scope string_scope.
Import JsString MiddlewareAuth.

(** What the middleware answers: [NextResponse.next()], a redirect to a
    path of the same site, or a JSON error. *)
Inductive Response : Type :=
| Next
| Redirect (path : string)
| Json (status : Z) (error : string).

(** The request by what the middleware reads: [nextUrl.pathname],
    [nextUrl.origin] and [cookies.get("auth_token")?.value]. *)
Record Request : Type := {
  pathname : string;
  origin : string;
  auth_token : option string
}.

Section Platform.
(** [jwtVerify(token, SECRET)]: whether it resolves rather than throws. *)
Variable jwtVerify : string -> bool.
(** [data.requireLogin] of the JSON fetched from
    [origin + "/api/settings/require-login"]; [None] when the fetch, the
    parsing or the property read throws. *)
Variable fetchRequireLogin : string -> option Js.value.

(** The local [validSession]. *)
Definition validSession (request : Request) : bool :=
  match auth_token request with
  | Some token => negb (String.eqb token "") && jwtVerify token
  | None => false
  end.

Definition middleware (request : Request) : Response :=
  let pathname := pathname request in
  if startsWith pathname "/v1" || isPublicApiPath pathname then Next
  else if startsWith pathname "/dashboard" || String.eqb pathname "/" then
    if validSession request then
      if String.eqb pathname "/" then Redirect "/dashboard" else Next
    else
      match fetchRequireLogin (origin request) with
      | Some (Js.Bool false) =>
          if String.eqb pathname "/" then Redirect "/dashboard" else Next
      | _ => Redirect "/login"
      end
  else if startsWith pathname "/api/" then
    if negb (validSession request) then Json 401 "Unauthorized" else Next
  else Next.

End Platform.

End Middleware.

(** ** The later revision of the middleware, [proxy] *)

Module Proxy.
Local Open Scope string_scope.
Import JsString MiddlewareAuth Middleware.

Definition DEFAULT_JWT_SECRET : string := "9router-default-secret-change-me".

(** [process.env], by the two variables read. *)
Record ProcessEnv : Type := {
  NODE_ENV : option string;
  JWT_SECRET : option string
}.

Definition isProduction (env : ProcessEnv) : bool :=
  match NODE_ENV env with
  | Some v => String.eqb v "production"
  | None => false
  end.

Definition isDefaultJwtSecret (env : ProcessEnv) : bool :=
  match JWT_SECRET env with
  | Some v => String.eqb v "" || String.eqb v DEFAULT_JWT_SECRET
  | None => true
  end.

Section Platform.
Variable jwtVerify : string -> bool.
Variable fetchRequireLogin : string -> option Js.value.
Variable env : ProcessEnv.

Definition proxy (request : Request) : Response :=
  let pathname := pathname request in
  if startsWith pathname "/v1" || isPublicApiPath pathname then Next
  else if startsWith pathname "/api/" && isProduction env && isDefaultJwtSecret env
  then Json 503 "Server misconfigured: set JWT_SECRET in production"
  else if startsWith pathname "/dashboard" && isProduction env
          && isDefaultJwtSecret env
  then Redirect "/login"
  else if startsWith pathname "/dashboard" || String.eqb pathname "/" then
    if validSession jwtVerify request then
      if String.eqb pathname "/" then Redirect "/dashboard" else Next
    else
      match fetchRequireLogin (origin request) with
      | Some (Js.Bool false) =>
          if String.eqb pathname "/" then Redirect "/dashboard" else Next
      | _ => Redirect "/login"
      end
  else if startsWith pathname "/api/" then
    if negb (validSession jwtVerify request) then Json 401 "Unauthorized"
    else Next
  else Next.

End Platform.

End Proxy.

(** ** The login route, [POST] *)

Module Login.
Local Open Scope string_scope.
Import Js.

Definition DEFAULT_JWT_SECRET : string := "9router-default-secret-change-me".

Record ProcessEnv : Type := {
  NODE_ENV : option string;
  JWT_SECRET : option string;
  INITIAL_PASSWORD : option string;
  AUTH_COOKIE_SECURE : option string
}.

(** What the handler answers: an error status with its message, the 500
    of its [catch], or success with the [auth_token] cookie it set. *)
Inductive outcome : Type :=
| Rejected (status : Z) (error : string)
| Caught
| LoggedIn (token : string) (secure : bool).

(** [a || b] on environment strings. *)
Definition orElse (v : option string) (fallback : string) : string :=
  match v with
  | Some s => if String.eqb s "" then fallback else s
  | None => fallback
  end.

(** [v === s] for a string [s]. *)
Definition isString (v : value) (s : string) : bool :=
  match v with Str t => String.eqb t s | _ => false end.

Section Handler.
(** The collaborators; [None] stands for a call that throws.
    [requestJson] is the parsed body ([None] also when it is [null],
    whose destructuring throws; a body that is no object reads as one
    without properties), [signJWT] the token jose signs. *)
Variable env : ProcessEnv.
Variable getSettings : option (gmap string value).
Variable bcryptCompare : value -> value -> option bool.
Variable signJWT : option string.

Definition misconfigured : bool :=
  match NODE_ENV env with
  | Some v =>
      String.eqb v "production"
      && match JWT_SECRET env with
         | Some s => String.eqb s "" || String.eqb s DEFAULT_JWT_SECRET
         | None => true
         end
  | None => false
  end.

(** The local [isValid]. *)
Definition isValid (settings : gmap string value) (password : value)
  : option bool :=
  let storedHash := default Undefined (settings !! "password") in
  if truthy storedHash then bcryptCompare password storedHash
  else
    let initialPassword := orElse (INITIAL_PASSWORD env) "123456" in
    Some (isString password initialPassword).

Definition POST (forwardedProto : option string) (requestJson : option object)
  : outcome :=
  if misconfigured
  then Rejected 503 "Server misconfigured: set JWT_SECRET in production"
  else
    match requestJson, getSettings with
    | Some body, Some settings =>
        match isValid settings (get body "password") with
        | None => Caught
        | Some true =>
            let forceSecureCookie :=
              match AUTH_COOKIE_SECURE env with
              | Some v => String.eqb v "true"
              | None => false
              end in
            let isHttpsRequest :=
              match forwardedProto with
              | Some v => String.eqb v "https"
              | None => false
              end in
            let useSecureCookie := forceSecureCookie || isHttpsRequest in
            match signJWT with
            | Some token => LoggedIn token useSecureCookie
            | None => Caught
            end
        | Some false => Rejected 401 "Invalid password"
        end
    | _, _ => Caught
    end.

End Handler.

End Login.

(** ** src/lib/openCodeModels.js *)

Module OpenCodeModels.
Local Open Scope string_scope.

(** The records read: [combo.name], [conn.provider] and [conn.isActive],
    [model.id] and [model.name].  A name that is missing reads as the
    empty string, which is as falsy. *)
Record Combo : Type := {
  combo_name : string
}.

Record Connection : Type := {
  provider : string;
  isActive : Js.value
}.

Record Model : Type := {
  id : string;
  name : string
}.

(** What [PROVIDER_ID_TO_ALIAS[provider] || provider] can be: a string, or
    a member that the constant's object inherits from [Object.prototype]
    (a function or an object, which is truthy and equals no string). *)
Inductive Alias : Type :=
| Named (alias : string)
| Inherited (member : string).

#[global] Instance Alias_eq_dec : EqDecision Alias.
Proof. solve_decision. Defined.

Definition objectPrototypeMembers : list string :=
  [ "constructor"; "hasOwnProperty"; "isPrototypeOf"; "propertyIsEnumerable";
    "toLocaleString"; "toString"; "valueOf"; "__defineGetter__";
    "__defineSetter__"; "__lookupGetter__"; "__lookupSetter__"; "__proto__" ].

(** [models[id] = { name }] on the literal [models]: the key "__proto__"
    sets the prototype and adds no property. *)
Definition assign (models : gmap string string) (id name : string)
  : gmap string string :=
  if String.eqb id "__proto__" then models else <[ id := name ]> models.

(** [c.isActive !== false]. *)
Definition notInactive (c : Connection) : bool :=
  match isActive c with
  | Js.Bool false => false
  | _ => true
  end.

Section Constants.
(** The imported constants: [Object.entries(PROVIDER_MODELS)] and the own
    properties of [PROVIDER_ID_TO_ALIAS]. *)
Variable PROVIDER_MODELS : list (string * list Model).
Variable PROVIDER_ID_TO_ALIAS : gmap string string.

Definition aliasOf (provider : string) : Alias :=
  match PROVIDER_ID_TO_ALIAS !! provider with
  | Some alias => if String.eqb alias "" then Named provider else Named alias
  | None =>
      if bool_decide (provider ∈ objectPrototypeMembers) then Inherited provider
      else Named provider
  end.

(** The three loops. *)
Definition addCombo (models : gmap string string) (combo : Combo)
  : gmap string string :=
  let id := combo_name combo in
  if negb (String.eqb id "") then assign models id (id +:+ " (combo)")
  else models.

Definition addModel (alias : string) (models : gmap string string)
    (model : Model) : gmap string string :=
  let id := alias +:+ "/" +:+ id model in
  assign models id (if String.eqb (name model) "" then OpenCodeModels.id model
                    else name model).

Definition addProvider (activeConnections : list Connection)
    (activeAliases : list Alias) (models : gmap string string)
    (entry : string * list Model) : gmap string string :=
  let '(alias, providerModels) := entry in
  if (0 <? length activeConnections)%nat
     && negb (bool_decide (Named alias ∈ activeAliases))
  then models
  else foldl (addModel alias) models providerModels.

(** [buildOpenCodeModelsMap]; [None] is a missing argument. *)
Definition buildOpenCodeModelsMap (combos : option (list Combo))
    (connections : option (list Connection)) : gmap string string :=
  let activeConnections := List.filter notInactive (default [] connections) in
  let activeAliases := map (fun conn => aliasOf (provider conn)) activeConnections in
  let models := foldl addCombo ∅ (default [] combos) in
  foldl (addProvider activeConnections activeAliases) models PROVIDER_MODELS.

End Constants.

End OpenCodeModels.

(** ** src/lib/analytics/percentileService.js *)

Module PercentileService.
Local Open Scope string_scope.
Import JsString.

(** The filter options, each a string or missing. *)
Record Filter : Type := {
  provider : option string;
  model : option string;
  startDate : option string;
  endDate : option string;
  status : option string
}.

(** Whether an option is truthy: present and not the empty string. *)
Definition given (v : option string) : bool :=
  match v with
  | Some s => negb (String.eqb s "")
  | None => false
  end.

(** [v || 'all']. *)
Definition orAll (v : option string) : string :=
  match v with
  | Some s => if String.eqb s "" then "all" else s
  | None => "all"
  end.

(** [parts.join(sep)]. *)
Fixpoint join (sep : string) (parts : list string) : string :=
  match parts with
  | [] => ""
  | [part] => part
  | part :: rest => part +:+ sep +:+ join sep rest
  end.

Definition generateCacheKey (filter : Filter) : string :=
  let keyParts :=
    [ orAll (provider filter);
      orAll (model filter);
      orAll (startDate filter);
      orAll (endDate filter);
      orAll (status filter) ] in
  join "|" keyParts.

(** A bound parameter of a statement: a string or a number ([None] for
    NaN). *)
Inductive Param : Type :=
| Text (s : string)
| Num (n : option Z).

(** How often a character occurs in a string (used to count the
    placeholders of a statement). *)
Fixpoint occurrences (c : ascii) (s : string) : nat :=
  match s with
  | EmptyString => 0
  | String d rest => (if Ascii.eqb d c then 1 else 0) + occurrences c rest
  end.

(** What a generator has done when it stops: it returned after yielding
    some values, it threw after yielding some, or (in this model only) it
    was cut short. *)
Inductive Stream : Type :=
| Returned (values : list float)
| Threw (values : list float)
| Unfinished (values : list float).

Definition yieldFirst (rows : list float) (rest : Stream) : Stream :=
  match rest with
  | Returned values => Returned (rows ++ values)
  | Threw values => Threw (rows ++ values)
  | Unfinished values => Unfinished (rows ++ values)
  end.

Definition batchSize : nat := 1000.

Section Database.
(** [new Date(s).getTime()], [None] for NaN, and
    [db.prepare(query).all(...params)] by the column
    throughput_tokens_per_sec of its rows, [None] when it throws. *)
Variable getTime : string -> option Z.
Variable all : string -> list Param -> option (list float).

(** One [if (filter.x) { query += ...; params.push(...) }]. *)
Definition andWhere (field : option string) (condition : string)
    (param : string -> Param) (statement : string * list Param)
  : string * list Param :=
  match field with
  | Some v =>
      if String.eqb v "" then statement
      else (statement.1 +:+ condition, (statement.2 ++ [param v])%list)
  | None => statement
  end.

(** The statement [streamThroughputValues] builds before it loops. *)
Definition selectStatement (filter : Filter) : string * list Param :=
  let statement :=
    ("SELECT throughput_tokens_per_sec FROM request_details WHERE throughput_tokens_per_sec IS NOT NULL",
     []) in
  let statement := andWhere (provider filter) " AND provider = ?" Text statement in
  let statement := andWhere (model filter) " AND model = ?" Text statement in
  let statement :=
    andWhere (startDate filter) " AND timestamp >= ?"
             (fun v => Num (getTime v)) statement in
  let statement :=
    andWhere (endDate filter) " AND timestamp <= ?"
             (fun v => Num (getTime v)) statement in
  let statement := andWhere (status filter) " AND status = ?" Text statement in
  (statement.1 +:+ " ORDER BY throughput_tokens_per_sec ASC", statement.2).

(** The loop [while (hasMore)], at most [fuel] batches of it. *)
Fixpoint fetchBatches (fuel : nat) (query : string) (params : list Param)
    (offset : nat) : Stream :=
  match fuel with
  | O => Unfinished []
  | S fuel =>
      let batchQuery := query +:+ " LIMIT ? OFFSET ?" in
      let batchParams :=
        (params ++ [Num (Some (Z.of_nat batchSize));
                    Num (Some (Z.of_nat offset))])%list in
      match all batchQuery batchParams with
      | None => Threw []
      | Some rows =>
          if (length rows =? 0)%nat then Returned []
          else if (length rows =? batchSize)%nat
          then yieldFirst rows (fetchBatches fuel query params (offset + batchSize))
          else Returned rows
      end
  end.

Definition streamThroughputValues (fuel : nat) (filter : Filter) : Stream :=
  let statement := selectStatement filter in
  fetchBatches fuel statement.1 statement.2 0.

End Database.

End PercentileService.

(** ** src/app/api/analytics/throughput/route.js *)

Module ThroughputRoute.
Local Open Scope string_scope.
Import JsString PercentileService.

(** 30 days. *)
Definition MAX_DATE_RANGE_MS : Z := 30 * 24 * 60 * 60 * 1000.

Definition DEFAULT_PERCENTILES : list string := ["p50"; "p95"; "p99"].

(** The query parameters read, each a string or missing. *)
Record Query : Type := {
  q_provider : option string;
  q_model : option string;
  q_startDate : option string;
  q_endDate : option string;
  q_percentiles : option string
}.

Definition emptyFilter : Filter :=
  {| provider := None; model := None; startDate := None; endDate := None;
     status := None |}.

Section Dates.
(** [new Date(s).getTime()], [None] for NaN, and [toISOString] of the
    date with a given time value. *)
Variable getTime : string -> option Z.
Variable toISOString : Z -> string.

(** One [if (query.xDate) { ... }]: [inr] is the early return. *)
Definition readDate (field : option string) (error : string)
  : option string + string :=
  match field with
  | Some v =>
      if String.eqb v "" then inl None
      else
        match getTime v with
        | None => inr error
        | Some time => inl (Some (toISOString time))
        end
  | None => inl None
  end.

(** [buildFilter]: the filter and the error, if any. *)
Definition buildFilter (query : Query) : Filter * option string :=
  let provider := if given (q_provider query) then q_provider query else None in
  let model := if given (q_model query) then q_model query else None in
  match readDate (q_startDate query) "Invalid startDate format" with
  | inr error => (emptyFilter, Some error)
  | inl startDate =>
      match readDate (q_endDate query) "Invalid endDate format" with
      | inr error => (emptyFilter, Some error)
      | inl endDate =>
          let filter :=
            {| PercentileService.provider := provider;
               PercentileService.model := model;
               PercentileService.startDate := startDate;
               PercentileService.endDate := endDate;
               status := None |} in
          match startDate, endDate with
          | Some isoStart, Some isoEnd =>
              if negb (String.eqb isoStart "") && negb (String.eqb isoEnd "")
              then
                match getTime isoStart, getTime isoEnd with
                | Some start, Some end_ =>
                    let range := (end_ - start)%Z in
                    if (range <? 0)%Z
                    then (emptyFilter, Some "startDate must be before endDate")
                    else if (MAX_DATE_RANGE_MS <? range)%Z
                    then (emptyFilter, Some "Date range cannot exceed 30 days")
                    else (filter, None)
                | _, _ => (filter, None)
                end
              else (filter, None)
          | _, _ => (filter, None)
          end
      end
  end.

End Dates.

(** [parsePercentiles]. *)
Definition parsePercentiles (value : option string) : list string :=
  if given value then
    let parsed :=
      map (fun p => toLowerCase (JsText.trim p)) (split "," (default "" value)) in
    let valid := ["p0"; "p25"; "p50"; "p75"; "p90"; "p95"; "p99"; "p100"] in
    List.filter (fun p => existsb (String.eqb p) valid) parsed
  else DEFAULT_PERCENTILES.

End ThroughputRoute.

(** ** src/lib/analytics/percentileService.js, the cached percentiles *)

Module PercentileCache.
Local Open Scope string_scope.
Import PercentileService.

(** 5 minutes. *)
Definition CACHE_TTL_MS : Z := 5 * 60 * 1000.

(** The result object and an entry of [percentileCache]. *)
Record Percentiles : Type := {
  p50 : float;
  p95 : float;
  p99 : float;
  sampleSize : nat;
  calculatedAt : Z
}.

Record Entry : Type := {
  data : Percentiles;
  expiresAt : Z
}.

(** The database handle, by what the service reads of it: its [prepare]
    method (absent in the cloud), there reduced to what
    [prepare(query).all(...params)] returns for the one column, and its
    [name]. *)
Record Database : Type := {
  prepare : option (string -> list Param -> option (list float));
  name : option string
}.

(** The number of an array length. *)
Definition ofLength (n : nat) : float :=
  PrimFloat.of_uint63 (Uint63.of_Z (Z.of_nat n)).

Section Platform.
(** The platform's part: [Math.floor], [Math.ceil], [Math.round], the
    index that a number denotes as a property key (if any),
    [values.sort((a, b) => a - b)] and [new Date(s).getTime()]. *)
Variable floor : float -> float.
Variable ceil : float -> float.
Variable round : float -> float.
Variable indexOf : float -> option nat.
Variable sortAscending : list float -> list float.
Variable getTime : string -> option Z.

(** [sortedData[i]]; an element that is not there is [undefined], which
    arithmetic and [Math.round] turn into NaN. *)
Definition element (sortedData : list float) (i : float) : float :=
  match indexOf i with
  | Some n => default nan (sortedData !! n)
  | None => nan
  end.

Definition calculatePercentile (sortedData : list float) (percentile : float)
  : float :=
  match sortedData with
  | [] => 0
  | [only] => only
  | _ =>
      let index := (percentile / 100 * ofLength (length sortedData - 1))%float in
      let lower := floor index in
      let upper := ceil index in
      let weight := (index - lower)%float in
      if (lower =? upper)%float then element sortedData lower
      else (element sortedData lower * (1 - weight)
            + element sortedData upper * weight)%float
  end.

(** The percentiles of the values read, before they are cached. *)
Definition summarise (now : Z) (values : list float) : Percentiles :=
  let sortedData := sortAscending values in
  let p50 := calculatePercentile sortedData 50 in
  let p95 := calculatePercentile sortedData 95 in
  let p99 := calculatePercentile sortedData 99 in
  {| p50 := (round (p50 * 100) / 100)%float;
     p95 := (round (p95 * 100) / 100)%float;
     p99 := (round (p99 * 100) / 100)%float;
     sampleSize := length sortedData;
     calculatedAt := now |}.

(** The cleanup after a result was cached: beyond 100 entries, those that
    have expired are deleted. *)
Definition cleanup (now : Z) (cache : gmap string Entry) : gmap string Entry :=
  if (100 <? size cache)%nat
  then filter (fun entry => now < expiresAt entry.2)%Z cache
  else cache.

(** [calculateThroughputPercentiles] at time [now], over the handle that
    [getRequestDetailsDb] resolves to, as a transition of
    [percentileCache]: the result and the cache afterwards, or [None] when
    reading the values throws (or is cut short by [fuel]). *)
Definition calculateThroughputPercentiles (fuel : nat) (now : Z)
    (db : Database) (filter : Filter) (cache : gmap string Entry)
  : option (Percentiles * gmap string Entry) :=
  let cacheKey := generateCacheKey filter in
  let fresh :=
    match cache !! cacheKey with
    | Some cached => if (now <? expiresAt cached)%Z then Some (data cached) else None
    | None => None
    end in
  match fresh with
  | Some cached => Some (cached, cache)
  | None =>
      let isCloud :=
        match prepare db with
        | None => true
        | Some _ =>
            match name db with
            | Some n => String.eqb n "mock"
            | None => false
            end
        end in
      match isCloud, prepare db with
      | false, Some all =>
          match streamThroughputValues getTime all fuel filter with
          | Returned values =>
              let result := summarise now values in
              let cache :=
                <[ cacheKey := {| data := result;
                                  expiresAt := (now + CACHE_TTL_MS)%Z |} ]> cache in
              Some (result, cleanup now cache)
          | _ => None
          end
      | _, _ =>
          let result :=
            {| p50 := 0; p95 := 0; p99 := 0; sampleSize := 0;
               calculatedAt := now |} in
          Some (result,
                <[ cacheKey := {| data := result;
                                  expiresAt := (now + CACHE_TTL_MS)%Z |} ]> cache)
      end
  end.

End Platform.

End PercentileCache.

(** ** src/app/api/settings/route.js, the GET handler *)

Module SettingsGet.
Local Open Scope string_scope.
Import Js.

(** What the handler answers: the JSON object, by its properties, or the
    500 of its [catch]. *)
Inductive response : Type :=
| Json (body : gmap string value)
| Caught.

(** [GET], from what [getSettings] resolves to ([None] when it throws) and
    from [process.env.ENABLE_REQUEST_LOGS]. *)
Definition GET (getSettings : option (gmap string value))
    (ENABLE_REQUEST_LOGS : option string) : response :=
  match getSettings with
  | None => Caught
  | Some settings =>
      let password := default Undefined (settings !! "password") in
      let safeSettings := base.delete "password" settings in
      let enableRequestLogs :=
        match ENABLE_REQUEST_LOGS with
        | Some v => String.eqb v "true"
        | None => false
        end in
      Json (<[ "hasPassword" := Bool (truthy password) ]>
              (<[ "enableRequestLogs" := Bool enableRequestLogs ]> safeSettings))
  end.

End SettingsGet.

(** ** Sample data: the scenarios of the specification *)

(** The scenario of the specification: three content deltas, then the
    connection closes without a terminal marker. *)
Definition threeDeltasThenClose : list Streaming.Observation :=
  [ {| Streaming.arrivedAt := 120; Streaming.event := Streaming.ContentDelta "Hel" 1;
       Streaming.callerGone := false |};
    {| Streaming.arrivedAt := 135; Streaming.event := Streaming.ContentDelta "lo " 1;
       Streaming.callerGone := false |};
    {| Streaming.arrivedAt := 150; Streaming.event := Streaming.ContentDelta "you" 1;
       Streaming.callerGone := false |} ].

(** The same deltas followed by the marker: a completion record whose two
    timestamps are the first and the last arrival. *)
Definition threeDeltasThenMarker : list Streaming.Observation :=
  (threeDeltasThenClose ++
   [ {| Streaming.arrivedAt := 151; Streaming.event := Streaming.EndOfStream;
        Streaming.callerGone := false |} ])%list.

(** A clock that is set back while the response streams: the first byte
    is read at 120, the end-of-stream marker at 110. *)
Definition clockSetBack : list Streaming.Observation :=
  [ {| Streaming.arrivedAt := 120; Streaming.event := Streaming.ContentDelta "Hi" 1;
       Streaming.callerGone := false |};
    {| Streaming.arrivedAt := 110; Streaming.event := Streaming.EndOfStream;
       Streaming.callerGone := false |} ].

(** Three accounts; the first two answer 429, the third answers. *)
Definition subscription : Fallback.Account :=
  {| Fallback.accountId := "acct-subscription"; Fallback.provider := "claude" |}.
Definition payPerUse : Fallback.Account :=
  {| Fallback.accountId := "acct-pay-per-use"; Fallback.provider := "openai" |}.
Definition freeTier : Fallback.Account :=
  {| Fallback.accountId := "acct-free"; Fallback.provider := "gemini" |}.

Definition tooManyRequests : Fallback.ExecutionError :=
  {| Fallback.status := Fallback.Http 429; Fallback.tokenExpiryIndicator := false;
     Fallback.quotaExceededBody := false; Fallback.vendorMessage := "rate limited" |}.

Definition samplePolicy : Fallback.Policy :=
  {| Fallback.backoff := fun _ => 60000; Fallback.transientCap := 2 |}.

Definition twoQuotaFailures : Fallback.Upstream :=
  {| Fallback.execute := fun _ a =>
       if String.eqb (Fallback.accountId a) "acct-free"
       then Fallback.Succeeded "ok"
       else Fallback.Rejected tooManyRequests;
     Fallback.refreshCredentials := fun _ _ => true;
     Fallback.clock := fun n => 1000 + 10 * Z.of_nat n;
     Fallback.cancelled := fun _ => false |}.

(** The scenario of the specification: every account is cooled down when
    the request starts. *)
Definition allCooledDown : gmap string Fallback.Cooldown :=
  {[ "acct-subscription"%string :=
       {| Fallback.cooledDownUntil := 5000; Fallback.lastErrorClass := Fallback.QuotaExceeded |};
     "acct-pay-per-use"%string :=
       {| Fallback.cooledDownUntil := 7000; Fallback.lastErrorClass := Fallback.QuotaExceeded |};
     "acct-free"%string :=
       {| Fallback.cooledDownUntil := 9000; Fallback.lastErrorClass := Fallback.QuotaExceeded |} ]}.

(** Two formats to run the registry on; the field and role names are
    sample data, not taken from the specification.  The second has no
    name for the system role. *)
Definition openaiFormat : FormatRegistry.Vendor :=
  {| FormatRegistry.modelField := "model";
     FormatRegistry.messagesField := "messages";
     FormatRegistry.temperatureField := "temperature";
     FormatRegistry.topPField := "top_p";
     FormatRegistry.maxTokensField := "max_tokens";
     FormatRegistry.toolsField := "tools";
     FormatRegistry.streamField := "stream";
     FormatRegistry.roleName := fun r =>
       match r with
       | FormatRegistry.System => Some "system"
       | FormatRegistry.User => Some "user"
       | FormatRegistry.Assistant => Some "assistant"
       | FormatRegistry.Tool => Some "tool"
       end%string |}.

Definition geminiFormat : FormatRegistry.Vendor :=
  {| FormatRegistry.modelField := "model";
     FormatRegistry.messagesField := "contents";
     FormatRegistry.temperatureField := "temperature";
     FormatRegistry.topPField := "topP";
     FormatRegistry.maxTokensField := "maxOutputTokens";
     FormatRegistry.toolsField := "tools";
     FormatRegistry.streamField := "stream";
     FormatRegistry.roleName := fun r =>
       match r with
       | FormatRegistry.System => None
       | FormatRegistry.User => Some "user"
       | FormatRegistry.Assistant => Some "model"
       | FormatRegistry.Tool => Some "function"
       end%string |}.

(** A format that names two fields alike. *)
Definition clashingFormat : FormatRegistry.Vendor :=
  {| FormatRegistry.modelField := "model";
     FormatRegistry.messagesField := "messages";
     FormatRegistry.temperatureField := "temperature";
     FormatRegistry.topPField := "temperature";
     FormatRegistry.maxTokensField := "max_tokens";
     FormatRegistry.toolsField := "tools";
     FormatRegistry.streamField := "stream";
     FormatRegistry.roleName := FormatRegistry.roleName openaiFormat |}.

Definition sampleFormats : list (string * FormatRegistry.Vendor) :=
  [ ("openai"%string, openaiFormat);
    ("gemini"%string, geminiFormat);
    ("clashing"%string, clashingFormat) ].

Definition sampleRegistry : gmap string FormatRegistry.Vendor :=
  FormatRegistry.buildRegistry sampleFormats.

(** The request of the specification's scenario, with one field only this
    vendor knows. *)
Definition sampleRequest : gmap string FormatRegistry.Field :=
  {[ "model"%string := FormatRegistry.FString "gpt-x";
     "messages"%string :=
       FormatRegistry.FMessages
         [ {| FormatRegistry.wireRole := "user";
              FormatRegistry.wireContent := [FormatRegistry.Text "hi"] |} ];
     "stream"%string := FormatRegistry.FBool false;
     "logit_bias"%string := FormatRegistry.FVendor "{}" ]}.

Definition sampleCanonical : FormatRegistry.CanonicalRequest :=
  {| FormatRegistry.model := "gpt-x";
     FormatRegistry.messages :=
       [ {| FormatRegistry.role := FormatRegistry.User;
            FormatRegistry.content := [FormatRegistry.Text "hi"] |} ];
     FormatRegistry.temperature := None;
     FormatRegistry.topP := None;
     FormatRegistry.maxTokens := None;
     FormatRegistry.tools := None;
     FormatRegistry.stream := Some false;
     FormatRegistry.passthrough :=
       {| FormatRegistry.source := "openai";
          FormatRegistry.extras :=
            {[ "logit_bias"%string := FormatRegistry.FVendor "{}" ]} |} |}.

(** The same request in the second format: its own name for the messages,
    and no vendor-only field of the first. *)
Definition sampleGeminiRequest : gmap string FormatRegistry.Field :=
  {[ "model"%string := FormatRegistry.FString "gpt-x";
     "contents"%string :=
       FormatRegistry.FMessages
         [ {| FormatRegistry.wireRole := "user";
              FormatRegistry.wireContent := [FormatRegistry.Text "hi"] |} ];
     "stream"%string := FormatRegistry.FBool false ]}.

(** A request that opens with a system message. *)
Definition sampleSystemRequest : gmap string FormatRegistry.Field :=
  {[ "model"%string := FormatRegistry.FString "gpt-x";
     "messages"%string :=
       FormatRegistry.FMessages
         [ {| FormatRegistry.wireRole := "system";
              FormatRegistry.wireContent := [FormatRegistry.Text "be brief"] |};
           {| FormatRegistry.wireRole := "user";
              FormatRegistry.wireContent := [FormatRegistry.Text "hi"] |} ] ]}.

(** Three requests share an account whose token expires at 130, with a
    safety margin of 60: two arrive before the refresh returns, one after;
    a request of another account runs in between. *)
Definition staleSlot : Refresh.Slot :=
  {| Refresh.credentials :=
       {| Refresh.accessToken := "old"; Refresh.refreshToken := "r0";
          Refresh.expiry := 130 |};
     Refresh.inFlight := false; Refresh.waiting := [];
     Refresh.proceeded := []; Refresh.refreshCalls := 0 |}.

Definition freshCredentials : Refresh.Credentials :=
  {| Refresh.accessToken := "new"; Refresh.refreshToken := "r1";
     Refresh.expiry := 3700 |}.

Definition sampleStore : gmap string Refresh.Slot :=
  {[ "acct-a"%string := staleSlot; "acct-b"%string := staleSlot ]}.

Definition sampleSchedule : list (string * Refresh.Event) :=
  [ ("acct-a", Refresh.RequestArrives 1 100);
    ("acct-b", Refresh.RequestArrives 7 100);
    ("acct-a", Refresh.RequestArrives 2 101);
    ("acct-a", Refresh.RefreshReturns freshCredentials);
    ("acct-a", Refresh.RequestArrives 3 150) ]%string.

(** A parser that knows three URLs, to run the URL checks on. *)
Definition sampleParser (s : string) : option ForwardAuth.URL :=
  if String.eqb s "https://10.0.0.5/v1"
  then Some {| ForwardAuth.protocol := "https:"; ForwardAuth.hostname := "10.0.0.5" |}
  else if String.eqb s "https://api.example.com/v1"
  then Some {| ForwardAuth.protocol := "https:";
               ForwardAuth.hostname := "api.example.com" |}
  else if String.eqb s "http://api.example.com/v1"
  then Some {| ForwardAuth.protocol := "http:";
               ForwardAuth.hostname := "api.example.com" |}
  else None.

(** What [new URL] makes of some of the URLs in
    tests/security/redirectUri.test.js. *)
Definition redirectTestParser (s : string) : option RedirectUri.URL :=
  if String.eqb s "http://localhost:8080/callback"
  then Some {| RedirectUri.pathname := "/callback";
               RedirectUri.origin := "http://localhost:8080";
               RedirectUri.hostname := "localhost"; RedirectUri.port := "8080" |}
  else if String.eqb s "http://127.0.0.1/callback"
  then Some {| RedirectUri.pathname := "/callback";
               RedirectUri.origin := "http://127.0.0.1";
               RedirectUri.hostname := "127.0.0.1"; RedirectUri.port := "" |}
  else if String.eqb s "https://attacker.org/oauth/callback"
  then Some {| RedirectUri.pathname := "/oauth/callback";
               RedirectUri.origin := "https://attacker.org";
               RedirectUri.hostname := "attacker.org"; RedirectUri.port := "" |}
  else if String.eqb s "http://localhost:20128/dashboard"
  then Some {| RedirectUri.pathname := "/dashboard";
               RedirectUri.origin := "http://localhost:20128";
               RedirectUri.hostname := "localhost"; RedirectUri.port := "20128" |}
  else if String.eqb s "http://localhost:20128/oauth/callback"
  then Some {| RedirectUri.pathname := "/oauth/callback";
               RedirectUri.origin := "http://localhost:20128";
               RedirectUri.hostname := "localhost"; RedirectUri.port := "20128" |}
  else None.

(** A database of three rows that answers LIMIT and OFFSET, to run the
    cursor of the percentile service on. *)
Definition sampleRows : list float := [12.5; 40; 55.25]%float.

Definition sampleDb (query : string) (params : list PercentileService.Param)
  : option (list float) :=
  match params with
  | [PercentileService.Num (Some limit); PercentileService.Num (Some offset)] =>
      Some (take (Z.to_nat limit) (drop (Z.to_nat offset) sampleRows))
  | _ => None
  end.

(** Dates written as "T" and the decimal time value, to run the date
    checks on. *)
Definition sampleGetTime (s : string) : option Z :=
  match s with
  | String "T" digits => Z.of_int <$> NilEmpty.int_of_string digits
  | _ => None
  end.

Definition sampleToISOString (time : Z) : string :=
  String "T" (NilEmpty.string_of_int (Z.to_int time)).

(* ===================================================================== *)
(** * Part II: theorems *)
(* ===================================================================== *)

Section ThroughputCalcFacts.
Import ThroughputCalc.

Example throughput_streaming :
  calculateThroughput (num 100) (num 2000) (num 500) = Some 200%float.
Proof. reflexivity. Qed.

Example throughput_non_streaming :
  calculateThroughput (num 100) (num 2000) undefined = Some 50%float.
Proof. reflexivity. Qed.

Example throughput_nan_tokens :
  calculateThroughput (num nan) (num 2000) undefined = None.
Proof. reflexivity. Qed.

Example throughput_overflow :
  calculateThroughput (num 0x1p1023) (num 1) (num 0x1p-1000) = None.
Proof. reflexivity. Qed.

Lemma calculateThroughput_missing c l o :
  missing_or_le0 c || missing_or_le0 l = true ->
  calculateThroughput c l o = None.
Proof.
  destruct c as [| |c], l as [| |l]; simpl; try reflexivity.
  intros ->. reflexivity.
Qed.

Lemma durationMs_effective l o :
  effectiveDuration (num l) o = num (durationMs l o).
Proof. destruct o as [| |d]; simpl; try reflexivity. destruct (gt0 d); reflexivity. Qed.

Lemma calculateThroughput_some c l o r :
  calculateThroughput c l o = Some r ->
  exists c' l',
    c = num c' /\ l = num l' /\ le0 c' = false /\ le0 l' = false /\
    le0 (durationMs l' o) = false /\
    r = tokensPerSecond c' (durationMs l' o) /\
    is_finite r = true /\ (r <? 0)%float = false.
Proof.
  destruct c as [| |c], l as [| |l]; simpl; try discriminate.
  destruct (le0 c) eqn:Hc; [discriminate|].
  destruct (le0 l) eqn:Hl; [discriminate|]. simpl.
  destruct (le0 (durationMs l o)) eqn:Hd; [discriminate|].
  destruct (is_finite (tokensPerSecond c (durationMs l o))) eqn:Hf; [|discriminate].
  destruct (tokensPerSecond c (durationMs l o) <? 0)%float eqn:Hn; [discriminate|].
  simpl. intros [= <-]. exists c, l. repeat split; assumption.
Qed.

(** C1, as amended.  [calculateThroughput] never returns a negative or
    non-finite number.  It returns null whenever completionTokens or
    latencyMs is undefined, null or [<= 0] (whatever outputDurationMs is),
    hence also whenever the effective duration is [<= 0]; otherwise it
    returns [(completionTokens / durationMs) * 1000] when that number is
    finite and not negative, and null when it is not, where durationMs is
    outputDurationMs when that is a number [> 0] and latencyMs otherwise. *)
Theorem C1_calculateThroughput_characterised c l o :
  (forall r, calculateThroughput c l o = Some r ->
             is_finite r = true /\ (r <? 0)%float = false /\ is_nan r = false)
  /\ (missing_or_le0 c || missing_or_le0 l = true ->
      calculateThroughput c l o = None)
  /\ (missing_or_le0 c || missing_or_le0 (effectiveDuration l o) = true ->
      calculateThroughput c l o = None)
  /\ (forall c' l',
        c = num c' -> l = num l' -> le0 c' = false -> le0 l' = false ->
        let t := tokensPerSecond c' (durationMs l' o) in
        calculateThroughput c l o =
          if is_finite t && negb (t <? 0)%float then Some t else None).
Proof.
  split; [|split; [|split]].
  - intros r Hr.
    destruct (calculateThroughput_some _ _ _ _ Hr)
      as (c' & l' & _ & _ & _ & _ & _ & _ & Hfin & Hneg).
    repeat split; try assumption.
    unfold is_finite in Hfin. apply negb_true_iff, orb_false_iff in Hfin.
    apply Hfin.
  - apply calculateThroughput_missing.
  - intros H. apply orb_true_iff in H as [H|H].
    + apply calculateThroughput_missing. rewrite H. reflexivity.
    + destruct c as [| |c]; try reflexivity.
      destruct l as [| |l]; try reflexivity.
      rewrite durationMs_effective in H. simpl in H. simpl.
      destruct (le0 c || le0 l); [reflexivity|]. rewrite H. reflexivity.
  - intros c' l' -> -> Hc Hl t. simpl. rewrite Hc, Hl. simpl.
    assert (Hd : le0 (durationMs l' o) = false).
    { destruct o as [| |d]; simpl; try assumption.
      destruct (gt0 d) eqn:Hgt; [|assumption].
      unfold gt0, le0 in *. rewrite leb_spec. rewrite ltb_spec in Hgt.
      unfold SFleb, SFltb in *. change (Prim2SF 0) with (S754_zero false) in *.
      destruct (Prim2SF d) as [[|]|[|]| |[|] m e]; simpl in *;
        try reflexivity; discriminate. }
    rewrite Hd. fold t.
    destruct (is_finite t), (t <? 0)%float; reflexivity.
Qed.

(** C1, the claim as stated fails: with completionTokens = 100,
    latencyMs = 0 and outputDurationMs = 500 the tokens and the effective
    duration (500 ms) are positive, the stated result is 200 tokens per
    second, and the function returns null; and a returned number need not
    be strictly positive, since the quotient can underflow to 0. *)
Lemma C1_counterexample :
  calculateThroughput (num 100) (num 0) (num 500) = None
  /\ calculateThroughput_as_specified (num 100) (num 0) (num 500)
     = Some 200%float
  /\ calculateThroughput (num 0x1p-1074) (num 1) (num 0x1p1023)
     = Some 0%float.
Proof. repeat split; reflexivity. Qed.

End ThroughputCalcFacts.

Section ApiKeyFacts.
Import JsString ApiKey.
Local Open Scope string_scope.

Lemma split_nonempty sep s : split sep s <> [].
Proof.
  destruct s as [|c s]; simpl; [discriminate|].
  destruct (Ascii.eqb c sep); [discriminate|].
  destruct (split sep s); discriminate.
Qed.

Lemma split_without_sep sep s :
  contains sep s = false -> split sep s = [s].
Proof.
  induction s as [|c s IH]; simpl; [reflexivity|].
  intros H. apply orb_false_iff in H as [Hc Hs].
  rewrite Hc, (IH Hs). reflexivity.
Qed.

Lemma split_app sep a rest :
  contains sep a = false ->
  split sep (a +:+ String sep rest) = a :: split sep rest.
Proof.
  induction a as [|c a IH]; simpl; intros H.
  - rewrite Ascii.eqb_refl. reflexivity.
  - apply orb_false_iff in H as [Hc Ha].
    change (String c a +:+ String sep rest)
      with (String c (a +:+ String sep rest)).
    simpl. rewrite Hc, (IH Ha). reflexivity.
Qed.

Lemma split_length_contains sep s :
  length (split sep s) = 1%nat <-> contains sep s = false.
Proof.
  split; [|intros H; rewrite split_without_sep by assumption; reflexivity].
  induction s as [|c s IH]; simpl; [reflexivity|].
  destruct (Ascii.eqb c sep); simpl.
  - intros H. pose proof (split_nonempty sep s).
    destruct (split sep s); [congruence|discriminate].
  - destruct (split sep s) eqn:E; simpl in *; [intros _|exact IH].
    exfalso. exact (split_nonempty sep s E).
Qed.

Lemma prefix_sk rest :
  String.prefix "sk-" (String "s" (String "k" (String "-" rest))) = true.
Proof.
  unfold String.prefix.
  repeat (destruct (ascii_dec _ _); [|congruence]).
  destruct rest; reflexivity.
Qed.

Variable hmacSha256 : list Byte.byte -> list Byte.byte -> list Byte.byte.

Lemma parseApiKey_new_format machineId keyId crc secret :
  contains "-" machineId = false ->
  contains "-" keyId = false ->
  contains "-" crc = false ->
  parseApiKey hmacSha256
    ("sk-" +:+ machineId +:+ "-" +:+ keyId +:+ "-" +:+ crc) secret
  = if String.eqb crc (generateCrc hmacSha256 machineId keyId secret)
    then Some {| ApiKey.machineId := Some machineId; ApiKey.keyId := keyId;
                 isNewFormat := true |}
    else None.
Proof.
  intros Hm Hk Hc. unfold parseApiKey.
  change ("sk-" +:+ machineId +:+ "-" +:+ keyId +:+ "-" +:+ crc)
    with (String "s" (String "k" (String "-"
            (machineId +:+ String "-" (keyId +:+ String "-" crc))))).
  rewrite prefix_sk. cbn [String.eqb orb negb].
  cbn [split Ascii.eqb Bool.eqb].
  rewrite (split_app _ _ _ Hm), (split_app _ _ _ Hk), (split_without_sep _ _ Hc).
  destruct (String.eqb crc _); reflexivity.
Qed.

Lemma parseApiKey_old_format id secret :
  contains "-" id = false ->
  parseApiKey hmacSha256 ("sk-" +:+ id) secret
  = Some {| machineId := None; keyId := id; isNewFormat := false |}.
Proof.
  intros Hid. unfold parseApiKey.
  change ("sk-" +:+ id) with (String "s" (String "k" (String "-" id))).
  rewrite prefix_sk. cbn [String.eqb orb negb].
  cbn [split Ascii.eqb Bool.eqb].
  rewrite (split_without_sep _ _ Hid). reflexivity.
Qed.

Lemma parseApiKey_rejects apiKey secret :
  String.prefix "sk-" apiKey = false
  \/ (length (split "-" apiKey) <> 2%nat /\ length (split "-" apiKey) <> 4%nat) ->
  parseApiKey hmacSha256 apiKey secret = None.
Proof.
  unfold parseApiKey. intros [Hp|[H2 H4]].
  - rewrite Hp. simpl. rewrite orb_true_r. reflexivity.
  - destruct (_ || _); [reflexivity|].
    destruct (split "-" apiKey) as [|p0 [|p1 [|p2 [|p3 [|p4 ps]]]]];
      simpl in *; congruence.
Qed.

Lemma effectiveSecret_trim s :
  effectiveSecret (Some s)
  = if String.eqb (trim s) "" then LEGACY_API_KEY_SECRET else trim s.
Proof.
  unfold effectiveSecret. destruct (String.eqb_spec s "") as [->|]; reflexivity.
Qed.

Lemma effectiveSecret_clean s :
  s <> "" -> trim s = s -> effectiveSecret (Some s) = s.
Proof.
  intros Hs Ht. unfold effectiveSecret. rewrite Ht.
  destruct (String.eqb_spec s ""); [contradiction|reflexivity].
Qed.

(** C8.  [parseApiKey] returns null for a string that does not start with
    "sk-" or that "-" does not split into exactly 2 or 4 parts.  For a
    key sk-{machineId}-{keyId}-{crc} it returns
    {machineId, keyId, isNewFormat: true} exactly when crc is the first 8
    hex characters of the HMAC-SHA256 of machineId + keyId under the
    effective secret, and null otherwise; the effective secret is the
    configured one with the white space at both ends trimmed off, or the
    legacy default when no secret is configured or the configured one is
    empty or all white space.  For a key sk-{id} it returns
    {machineId: null, keyId: id, isNewFormat: false}, whatever the secret
    and the MAC are. *)
Theorem C8_parseApiKey_formats apiKey secret :
  (String.prefix "sk-" apiKey = false
   \/ (length (split "-" apiKey) <> 2%nat
       /\ length (split "-" apiKey) <> 4%nat) ->
   parseApiKey hmacSha256 apiKey secret = None)
  /\ (forall machineId keyId crc,
        contains "-" machineId = false ->
        contains "-" keyId = false ->
        contains "-" crc = false ->
        apiKey = "sk-" +:+ machineId +:+ "-" +:+ keyId +:+ "-" +:+ crc ->
        let mac := hmacSha256 (encode (effectiveSecret secret))
                              (encode (machineId +:+ keyId)) in
        let parsed := {| ApiKey.machineId := Some machineId;
                         ApiKey.keyId := keyId; isNewFormat := true |} in
        (parseApiKey hmacSha256 apiKey secret = Some parsed
         <-> crc = substring 0 8 (hashHex mac))
        /\ (crc <> substring 0 8 (hashHex mac) ->
            parseApiKey hmacSha256 apiKey secret = None))
  /\ (forall id,
        contains "-" id = false ->
        apiKey = "sk-" +:+ id ->
        forall otherMac otherSecret,
          parseApiKey otherMac apiKey otherSecret
          = Some {| machineId := None; keyId := id; isNewFormat := false |})
  /\ effectiveSecret None = LEGACY_API_KEY_SECRET
  /\ (forall s, effectiveSecret (Some s)
                = if String.eqb (trim s) "" then LEGACY_API_KEY_SECRET
                  else trim s).
Proof.
  split; [apply parseApiKey_rejects|].
  split; [|split; [|split]].
  - intros machineId keyId crc Hm Hk Hc -> mac parsed.
    rewrite (parseApiKey_new_format _ _ _ _ Hm Hk Hc).
    fold (generateCrc hmacSha256 machineId keyId secret).
    destruct (String.eqb_spec crc (generateCrc hmacSha256 machineId keyId secret))
      as [E|E]; unfold generateCrc in E; fold mac in E.
    + split; [split; [intros _; exact E|reflexivity]|].
      intros Hne. contradiction.
    + split; [split; [discriminate|intros E'; contradiction]|reflexivity].
  - intros id Hid -> otherMac otherSecret.
    unfold parseApiKey.
    change ("sk-" +:+ id) with (String "s" (String "k" (String "-" id))).
    rewrite prefix_sk. cbn [String.eqb orb negb].
    cbn [split Ascii.eqb Bool.eqb].
    rewrite (split_without_sep _ _ Hid). reflexivity.
  - reflexivity.
  - apply effectiveSecret_trim.
Qed.

End ApiKeyFacts.

(** The constants derived from the primes are those FIPS 180-4 lists. *)
Example sha256_constants :
  length WebCrypto.roundConstants = 64%nat
  /\ head WebCrypto.roundConstants = Some 0x428a2f98%N
  /\ last WebCrypto.roundConstants = Some 0xc67178f2%N
  /\ head WebCrypto.initialHash = Some 0x6a09e667%N
  /\ last WebCrypto.initialHash = Some 0x5be0cd19%N.
Proof. repeat split. Qed.

(** The MAC on the known answers of FIPS 180-4 and RFC 4231. *)
Example hmacSha256_known_answers :
  ApiKey.hashHex
    (map WebCrypto.byteOf (WebCrypto.sha256 (map Byte.to_N (ApiKey.encode "abc"))))
  = "ba7816bf8f01cfea414140de5dae2223b00361a396177a9cb410ff61f20015ad"%string
  /\ ApiKey.hashHex
       (WebCrypto.hmacSha256 (ApiKey.encode "Jefe")
          (ApiKey.encode "what do ya want for nothing?"))
     = "5bdcc146bf60754e6a042426089575c75a003f089d2739839dec58b964ec3843"%string.
Proof. split; vm_compute; reflexivity. Qed.

(** C8, the claim as worded against the code, with the platform's MAC.
    Under the configured secret " s3cret " the crc of ("m1", "k1") is
    3ea6b267: the code, which keys the MAC with "s3cret", rejects the key
    that carries it.  Under the legacy secret the crc is 4700c456: with a
    secret of three spaces configured, the code accepts the key that
    carries it. *)
Lemma C8_counterexample :
  ApiKey.parseApiKey WebCrypto.hmacSha256 "sk-m1-k1-3ea6b267" (Some " s3cret "%string)
  = None
  /\ ApiKeyAsSpecified.parseApiKey_as_specified WebCrypto.hmacSha256
       "sk-m1-k1-3ea6b267" (Some " s3cret "%string)
     = Some {| ApiKey.machineId := Some "m1"%string; ApiKey.keyId := "k1"%string;
               ApiKey.isNewFormat := true |}
  /\ ApiKey.parseApiKey WebCrypto.hmacSha256 "sk-m1-k1-4700c456" (Some "   "%string)
     = Some {| ApiKey.machineId := Some "m1"%string; ApiKey.keyId := "k1"%string;
               ApiKey.isNewFormat := true |}
  /\ ApiKeyAsSpecified.parseApiKey_as_specified WebCrypto.hmacSha256
       "sk-m1-k1-4700c456" (Some "   "%string)
     = None.
Proof. repeat split; vm_compute; reflexivity. Qed.

(** A key signed and checked with a stand-in MAC (the key bytes followed by
    the message bytes), to run [parseApiKey] on. *)
Example parseApiKey_runs :
  let mac := fun key data : list Byte.byte => (key ++ data)%list in
  ApiKey.parseApiKey mac "sk-m1-k1-656e6470" None
  = Some {| ApiKey.machineId := Some "m1"%string; ApiKey.keyId := "k1"%string;
            ApiKey.isNewFormat := true |}
  /\ ApiKey.parseApiKey mac "sk-m1-k1-00000000" None = None
  /\ ApiKey.parseApiKey mac "sk-m1-k1-656e6470" (Some " x "%string) = None
  /\ ApiKey.parseApiKey mac "sk-abcdefgh" None
     = Some {| ApiKey.machineId := None; ApiKey.keyId := "abcdefgh"%string;
               ApiKey.isNewFormat := false |}
  /\ ApiKey.parseApiKey mac "sk-a-b" None = None
  /\ ApiKey.parseApiKey mac "pk-abcdefgh" None = None.
Proof. repeat split; vm_compute; reflexivity. Qed.

(** The secret that keys the MAC: trimmed, and the legacy one for a secret
    of nothing but white space, a no-break space (U+00A0) included. *)
Example effectiveSecret_runs :
  ApiKey.effectiveSecret (Some " s3cret "%string) = "s3cret"%string
  /\ ApiKey.effectiveSecret (Some (JsText.bytes [194; 160]%N))
     = ApiKey.LEGACY_API_KEY_SECRET
  /\ ApiKey.effectiveSecret (Some ""%string) = ApiKey.LEGACY_API_KEY_SECRET
  /\ ApiKey.effectiveSecret None = ApiKey.LEGACY_API_KEY_SECRET.
Proof. repeat split; vm_compute; reflexivity. Qed.

Section SettingsFacts.
Import Js SettingsAllowlist SettingsRoute.
Local Open Scope string_scope.

Lemma foldl_copyKey body keys acc k :
  foldl (copyKey body) acc keys !! k =
    if bool_decide (k ∈ keys) && isDefined (get body k)
    then Some (get body k)
    else acc !! k.
Proof.
  revert acc. induction keys as [|key keys IH]; intros acc; cbn [foldl].
  - rewrite (bool_decide_eq_false_2 (k ∈ [])) by apply not_elem_of_nil. reflexivity.
  - rewrite IH. unfold copyKey.
    destruct (decide (k = key)) as [->|Hne].
    + rewrite (bool_decide_eq_true_2 (key ∈ key :: keys)) by apply list_elem_of_here.
      destruct (isDefined (get body key)) eqn:Hdef.
      * rewrite andb_true_r. rewrite lookup_insert_eq.
        destruct (bool_decide _); reflexivity.
      * rewrite !andb_false_r. reflexivity.
    + assert (Hiff : bool_decide (k ∈ key :: keys) = bool_decide (k ∈ keys)).
      { apply bool_decide_ext. rewrite elem_of_cons. tauto. }
      rewrite Hiff.
      destruct (bool_decide (k ∈ keys) && isDefined (get body k)); [reflexivity|].
      destruct (isDefined (get body key)); [|reflexivity].
      rewrite lookup_insert_ne by congruence. reflexivity.
Qed.

Lemma filterAllowedSettings_lookup body k :
  filterAllowedSettings body !! k =
    if bool_decide (k ∈ ALLOWED_SETTINGS_KEYS) && isDefined (get body k)
    then Some (get body k)
    else None.
Proof. unfold filterAllowedSettings. rewrite foldl_copyKey, lookup_empty. reflexivity. Qed.

(** C9.  [filterAllowedSettings body] has exactly the keys [k] of
    ALLOWED_SETTINGS_KEYS for which [body[k]] is not undefined, each with
    the value [body[k]]; no other key, whatever the body and its
    prototype chain hold, is in the result; and whenever the PATCH
    handler passes updates on to [updateSettings], every key of those
    updates is in ALLOWED_SETTINGS_KEYS. *)
Theorem C9_filterAllowedSettings_allowlist (body : object) :
  (forall k,
      k ∈ ALLOWED_SETTINGS_KEYS -> get body k <> Undefined ->
      filterAllowedSettings body !! k = Some (get body k))
  /\ (forall k,
        k ∈ ALLOWED_SETTINGS_KEYS -> get body k = Undefined ->
        filterAllowedSettings body !! k = None)
  /\ (forall k,
        k ∉ ALLOWED_SETTINGS_KEYS -> filterAllowedSettings body !! k = None)
  /\ (forall bcryptCompare bcryptHash salt settings production updates k,
        PATCH bcryptCompare bcryptHash salt settings production body
          = Updated updates ->
        is_Some (updates !! k) -> k ∈ ALLOWED_SETTINGS_KEYS).
Proof.
  split; [|split; [|split]].
  - intros k Hk Hdef. rewrite filterAllowedSettings_lookup.
    rewrite bool_decide_eq_true_2 by assumption.
    destruct (get body k); try reflexivity. contradiction.
  - intros k Hk Hundef. rewrite filterAllowedSettings_lookup, Hundef.
    rewrite andb_false_r. reflexivity.
  - intros k Hk. rewrite filterAllowedSettings_lookup.
    rewrite bool_decide_eq_false_2 by assumption. reflexivity.
  - intros bcryptCompare bcryptHash salt settings production updates k HP [v Hv].
    assert (Hin : forall b, filterAllowedSettings b !! k = Some v ->
                            k ∈ ALLOWED_SETTINGS_KEYS).
    { intros b Hb. rewrite filterAllowedSettings_lookup in Hb.
      destruct (bool_decide (k ∈ ALLOWED_SETTINGS_KEYS)) eqn:E; [|discriminate].
      apply bool_decide_eq_true_1 in E. exact E. }
    unfold PATCH in HP.
    destruct (truthy (get body "newPassword")).
    + destruct (checkCurrentPassword _ _ _ _) as [rejected|] eqn:Hcheck.
      * exfalso. subst rejected. unfold checkCurrentPassword in Hcheck.
        repeat match type of Hcheck with
               | context [if ?b then _ else _] => destruct b
               | context [match ?o with Some _ => _ | None => _ end] =>
                   destruct o as [[|]|]
               end; discriminate.
      * destruct (bcryptHash _ _); [|discriminate].
        injection HP as <-. eapply Hin, Hv.
    + injection HP as <-. eapply Hin, Hv.
Qed.

End SettingsFacts.


(** The first case of tests/security/settingsAllowlist.test.js: an unknown
    key and a key reached through [__proto__] are dropped. *)
Example filterAllowedSettings_keeps_only_allowed :
  let body :=
    {| Js.own := {[ "requireLogin"%string := Js.Bool false;
                    "cloudUrl"%string := Js.Str "https://evil.com";
                    "evilKey"%string := Js.Str "must-be-dropped" ]};
       Js.protos := [ {[ "polluted"%string := Js.Bool true ]} ] |} in
  SettingsAllowlist.filterAllowedSettings body
  = {[ "requireLogin"%string := Js.Bool false;
       "cloudUrl"%string := Js.Str "https://evil.com" ]}.
Proof. vm_compute. reflexivity. Qed.

Section RedirectUriFacts.
Import JsString RedirectUri.
Local Open Scope string_scope.

Variable parseURL : string -> option URL.

Lemma getAllowedRedirectUri_default origin requested :
  requested = None \/ requested = Some "" ->
  getAllowedRedirectUri parseURL origin requested = Some (origin +:+ "/callback").
Proof. intros [->| ->]; reflexivity. Qed.

Lemma getAllowedRedirectUri_result origin requested r :
  getAllowedRedirectUri parseURL origin (Some requested) = Some r ->
  requested <> "" -> r = requested.
Proof.
  unfold getAllowedRedirectUri.
  destruct (String.eqb_spec requested ""); [contradiction|].
  destruct (parseURL requested) as [u|]; [|discriminate].
  destruct (_ && _); [discriminate|].
  destruct (_ || _); [|discriminate].
  intros [= <-] _. reflexivity.
Qed.

Lemma getAllowedRedirectUri_accepts origin requested :
  requested <> "" ->
  (getAllowedRedirectUri parseURL origin (Some requested) = Some requested
   <-> exists u, parseURL requested = Some u
                 /\ callbackPath u
                 /\ (sameOrigin origin u \/ localCallback u)).
Proof.
  intros Hne. unfold getAllowedRedirectUri, callbackPath, sameOrigin, localCallback.
  destruct (String.eqb_spec requested ""); [contradiction|].
  destruct (parseURL requested) as [u|].
  2:{ split; [discriminate|]. intros (u & Hu & _). discriminate. }
  destruct (String.eqb_spec (pathname u) "/callback") as [Hp|Hp];
    destruct (endsWith (pathname u) "/callback") eqn:He;
    destruct (String.eqb_spec (RedirectUri.origin u) origin) as [Ho|Ho];
    destruct (String.eqb_spec (hostname u) "localhost") as [Hl|Hl];
    destruct (String.eqb_spec (hostname u) "127.0.0.1") as [Hi|Hi];
    destruct (String.eqb_spec (port u) "") as [Hq|Hq];
    destruct (isNumeric (port u)) eqn:Hn;
    cbn [negb andb orb];
    (split;
     [ first [ discriminate
             | intros _; exists u; split; [reflexivity|]; split; tauto ]
     | first [ reflexivity
             | intros (u' & [= <-] & Hpath & Hwho); exfalso;
               intuition congruence ] ]).
Qed.

(** C10.  [getAllowedRedirectUri] returns origin + "/callback" when the
    requested URI is null, undefined or empty.  Otherwise it returns the
    requested URI itself exactly when that parses as a URL whose pathname
    is "/callback" or ends with "/callback" and which has the given
    origin, or has hostname "localhost" or "127.0.0.1" and an empty or
    all-digit port; in every other case, a URI that does not parse
    included, it returns null. *)
Theorem C10_getAllowedRedirectUri_cases origin requested :
  (requested = None \/ requested = Some "" ->
   getAllowedRedirectUri parseURL origin requested = Some (origin +:+ "/callback"))
  /\ (forall r, requested = Some r -> r <> "" ->
       let accepted :=
         exists u, parseURL r = Some u
                   /\ (pathname u = "/callback"
                       \/ endsWith (pathname u) "/callback" = true)
                   /\ (RedirectUri.origin u = origin
                       \/ ((hostname u = "localhost" \/ hostname u = "127.0.0.1")
                           /\ (port u = "" \/ isNumeric (port u) = true))) in
       (accepted -> getAllowedRedirectUri parseURL origin requested = Some r)
       /\ (~ accepted -> getAllowedRedirectUri parseURL origin requested = None)
       /\ (parseURL r = None ->
           getAllowedRedirectUri parseURL origin requested = None)).
Proof.
  split; [apply getAllowedRedirectUri_default|].
  intros r -> Hne accepted.
  pose proof (getAllowedRedirectUri_accepts origin r Hne) as Hiff.
  fold accepted in Hiff.
  split; [apply Hiff|]. split.
  - intros Hno.
    destruct (getAllowedRedirectUri parseURL origin (Some r)) as [r'|] eqn:E;
      [|reflexivity].
    pose proof (getAllowedRedirectUri_result _ _ _ E Hne) as ->.
    exfalso. apply Hno, Hiff. reflexivity.
  - intros Hp. unfold getAllowedRedirectUri.
    destruct (String.eqb_spec r ""); [contradiction|]. rewrite Hp. reflexivity.
Qed.

End RedirectUriFacts.

(** Cases of tests/security/redirectUri.test.js. *)
Example getAllowedRedirectUri_runs :
  let origin := "http://localhost:20128"%string in
  let allowed := RedirectUri.getAllowedRedirectUri redirectTestParser origin in
  allowed None = Some "http://localhost:20128/callback"%string
  /\ allowed (Some ""%string) = Some "http://localhost:20128/callback"%string
  /\ allowed (Some "http://localhost:8080/callback"%string)
     = Some "http://localhost:8080/callback"%string
  /\ allowed (Some "http://127.0.0.1/callback"%string)
     = Some "http://127.0.0.1/callback"%string
  /\ allowed (Some "https://attacker.org/oauth/callback"%string) = None
  /\ allowed (Some "http://localhost:20128/dashboard"%string) = None
  /\ allowed (Some "http://localhost:20128/oauth/callback"%string)
     = Some "http://localhost:20128/oauth/callback"%string
  /\ allowed (Some "not-a-url"%string) = None.
Proof. repeat split; vm_compute; reflexivity. Qed.

Section StreamingFacts.
Import Streaming.
Context {Chunk : Type}.
Implicit Types (mode : Mode Chunk) (t : StreamTelemetry).

Lemma consume_truncated mode upstream t :
  closesWithoutMarker upstream ->
  exists t', snd (consume mode upstream t) = Failed StreamTruncatedError t'.
Proof.
  intros H. revert t. induction H as [|o rest [Hev Hgone] _ IH]; intros t.
  - exists t. reflexivity.
  - cbn [consume]. rewrite Hgone.
    destruct (event o) as [payload tokens| |]; [| |contradiction].
    + destruct (IH (countChunk tokens (observeByte (arrivedAt o) t))) as [t' Ht'].
      exists t'. destruct (consume mode rest _). exact Ht'.
    + apply IH.
Qed.

Lemma consume_emits_every_delta mode upstream t :
  closesWithoutMarker upstream ->
  fst (consume mode upstream t) =
    omap (fun o => match event o with
                   | ContentDelta payload _ => Some (emit mode payload)
                   | _ => None
                   end) upstream.
Proof.
  intros H. revert t. induction H as [|o rest [Hev Hgone] _ IH]; intros t.
  - reflexivity.
  - cbn [consume]. rewrite Hgone.
    change (omap ?f (o :: rest))
      with (match f o with Some y => y :: omap f rest | None => omap f rest end).
    cbv beta.
    destruct (event o) as [payload tokens| |]; [| |contradiction].
    + specialize (IH (countChunk tokens (observeByte (arrivedAt o) t))).
      destruct (consume mode rest _). simpl in *. rewrite IH. reflexivity.
    + apply IH.
Qed.

Lemma consume_completed_marker mode upstream t t' :
  snd (consume mode upstream t) = Completed t' ->
  Exists (fun o => event o = EndOfStream) upstream.
Proof.
  revert t. induction upstream as [|o rest IH]; intros t; cbn [consume].
  - discriminate.
  - destruct (callerGone o); [discriminate|].
    destruct (event o) as [payload tokens| |] eqn:Hev.
    + specialize (IH (countChunk tokens (observeByte (arrivedAt o) t))).
      destruct (consume mode rest _). simpl. intros H.
      apply Exists_cons_tl, IH, H.
    + intros H. apply Exists_cons_tl. eapply IH, H.
    + intros _. apply Exists_cons_hd, Hev.
Qed.

(** C3.  When the upstream connection closes without the explicit
    end-of-stream marker (and the caller has not gone away), the
    controller's outcome is a failed response carrying
    StreamTruncatedError and never a completion record, although every
    content frame received was already emitted to the caller; and a
    completion record is only ever produced after a marker. *)
Theorem C3_truncated_stream_is_an_error mode start upstream :
  closesWithoutMarker upstream ->
  (exists t, snd (stream mode start upstream) = Failed StreamTruncatedError t)
  /\ (forall t, snd (stream mode start upstream) <> Completed t)
  /\ fst (stream mode start upstream) =
       omap (fun o => match event o with
                      | ContentDelta payload _ => Some (emit mode payload)
                      | _ => None
                      end) upstream.
Proof.
  intros H. unfold stream.
  destruct (consume_truncated mode upstream (startTelemetry start) H) as [t Ht].
  split; [exists t; exact Ht|]. split.
  - intros t'. rewrite Ht. discriminate.
  - apply consume_emits_every_delta, H.
Qed.

Lemma consume_times mode upstream :
  forall t from,
    clockMonotone from upstream ->
    timeOfLastByte t = None ->
    (forall a, timeToFirstByte t = Some a -> requestStart t <= a <= from) ->
    requestStart t <= from ->
    forall a b,
      timeToFirstByte (telemetryOf (snd (consume mode upstream t))) = Some a ->
      timeOfLastByte (telemetryOf (snd (consume mode upstream t))) = Some b ->
      requestStart t <= a <= b.
Proof.
  induction upstream as [|o rest IH]; intros t from Hmono Hlast Hfirst Hstart a b;
    cbn [consume].
  - simpl. rewrite Hlast. discriminate.
  - destruct Hmono as [Hle Hmono].
    destruct (callerGone o); [simpl; rewrite Hlast; discriminate|].
    assert (Hobs : forall a', timeToFirstByte (observeByte (arrivedAt o) t) = Some a' ->
                              requestStart t <= a' <= arrivedAt o).
    { intros a'. unfold observeByte.
      destruct (timeToFirstByte t) as [a0|] eqn:E.
      - rewrite E. intros [= <-]. specialize (Hfirst a0 eq_refl). lia.
      - simpl. intros [= <-]. lia. }
    assert (Hrs : requestStart (observeByte (arrivedAt o) t) = requestStart t).
    { unfold observeByte. destruct (timeToFirstByte t); reflexivity. }
    assert (Hlb : timeOfLastByte (observeByte (arrivedAt o) t) = None).
    { unfold observeByte. destruct (timeToFirstByte t); [exact Hlast|exact Hlast]. }
    destruct (event o) as [payload tokens| |].
    + pose proof (IH (countChunk tokens (observeByte (arrivedAt o) t)) (arrivedAt o)
                    Hmono Hlb) as IH'.
      cbn [countChunk timeToFirstByte requestStart] in IH'.
      rewrite Hrs in IH'.
      destruct (consume mode rest _) as [frames result]. simpl in *.
      apply IH'; [exact Hobs|lia].
    + pose proof (IH (observeByte (arrivedAt o) t) (arrivedAt o) Hmono Hlb) as IH'.
      rewrite Hrs in IH'. apply IH'; [exact Hobs|lia].
    + simpl. intros Ha [= <-]. apply Hobs, Ha.
Qed.


End StreamingFacts.

Lemma C3_witness :
  (exists t, snd (Streaming.stream (@Streaming.Passthrough unit) 100 threeDeltasThenClose)
             = Streaming.Failed Streaming.StreamTruncatedError t)
  /\ (forall t, snd (Streaming.stream (@Streaming.Passthrough unit) 100 threeDeltasThenClose)
                <> Streaming.Completed t)
  /\ fst (Streaming.stream (@Streaming.Passthrough unit) 100 threeDeltasThenClose)
     = ["Hel"; "lo "; "you"]%string.
Proof.
  apply (C3_truncated_stream_is_an_error (@Streaming.Passthrough unit) 100
           threeDeltasThenClose).
  repeat constructor; discriminate.
Defined.

Example stream_completes_at_marker :
  snd (Streaming.stream (@Streaming.Passthrough unit) 100 threeDeltasThenMarker)
  = Streaming.Completed
      {| Streaming.requestStart := 100; Streaming.timeToFirstByte := Some 120;
         Streaming.timeOfLastByte := Some 151; Streaming.chunkCount := 3;
         Streaming.emittedTokens := 3 |}.
Proof. reflexivity. Qed.




Section FallbackFacts.
Import Fallback.
Implicit Types (st : State) (a : Account) (store : gmap string Cooldown).

(** *** Selection *)

Lemma scan_selected store t candidates index a i :
  scan store t candidates index = Selected a i ->
  exists j, i = (index + j)%nat
            /\ candidates !! j = Some a
            /\ cooledDown store t a = false
            /\ forall j', (j' < j)%nat ->
                 exists b, candidates !! j' = Some b /\ cooledDown store t b = true.
Proof.
  revert index. induction candidates as [|c rest IH]; intros index; simpl.
  - discriminate.
  - destruct (cooledDown store t c) eqn:Hc.
    + intros H. destruct (IH _ H) as (j & -> & Hj & Ha & Hbefore).
      exists (S j). repeat split; [lia|exact Hj|exact Ha|].
      intros [|j'] Hlt; [exists c; split; [reflexivity|exact Hc]|].
      apply Hbefore. lia.
    + intros [= <- <-]. exists 0%nat. repeat split; [lia|exact Hc|].
      intros j' Hlt. lia.
Qed.

Lemma scan_exhausted store t candidates index :
  scan store t candidates index = Exhausted <->
  Forall (fun a => cooledDown store t a = true) candidates.
Proof.
  revert index. induction candidates as [|c rest IH]; intros index; simpl.
  - split; [constructor|reflexivity].
  - destruct (cooledDown store t c) eqn:Hc.
    + rewrite IH. split; [intros H; constructor; assumption|].
      intros H. inversion H; assumption.
    + split; [discriminate|]. intros H. inversion H; congruence.
Qed.

Lemma selectNext_selected store t combo ctx a i :
  selectNext store t combo ctx = Selected a i ->
  (position ctx <= i)%nat
  /\ combo !! i = Some a
  /\ cooledDown store t a = false
  /\ forall j, (position ctx <= j < i)%nat ->
       exists b, combo !! j = Some b /\ cooledDown store t b = true.
Proof.
  unfold selectNext. intros H.
  destruct (scan_selected _ _ _ _ _ _ H) as (j & -> & Hj & Ha & Hbefore).
  rewrite lookup_drop in Hj.
  repeat split; [lia|exact Hj|exact Ha|].
  intros j' [Hlo Hhi].
  destruct (Hbefore (j' - position ctx)%nat ltac:(lia)) as (b & Hb & Hcool).
  rewrite lookup_drop in Hb.
  replace (position ctx + (j' - position ctx))%nat with j' in Hb by lia.
  exists b. split; assumption.
Qed.

Lemma selectNext_exhausted store t combo ctx :
  selectNext store t combo ctx = Exhausted ->
  forall j b, (position ctx <= j)%nat -> combo !! j = Some b ->
              cooledDown store t b = true.
Proof.
  unfold selectNext. rewrite scan_exhausted, Forall_lookup.
  intros H j b Hj Hb. apply (H (j - position ctx)%nat).
  rewrite lookup_drop. replace (position ctx + (j - position ctx))%nat with j by lia.
  exact Hb.
Qed.

Lemma cooledDown_entry store t a :
  cooledDown store t a = true ->
  exists c, store !! accountId a = Some c /\ t < cooledDownUntil c.
Proof.
  unfold cooledDown. destruct (store !! accountId a) as [c|]; [|discriminate].
  intros H. exists c. split; [reflexivity|]. apply Z.ltb_lt, H.
Qed.

(** *** What the attempts against one account preserve *)

Lemma Step_refl st : Step st st.
Proof. split; auto. exists []. split; [reflexivity|constructor]. Qed.

Lemma Step_trans st1 st2 st3 : Step st1 st2 -> Step st2 st3 -> Step st1 st3.
Proof.
  intros [P1 E1 C1 (r1 & L1 & F1) K1] [P2 E2 C2 (r2 & L2 & F2) K2].
  split; [congruence|auto|auto| |auto].
  exists (r2 ++ r1)%list. split.
  - rewrite L2, L1, app_assoc. reflexivity.
  - apply Forall_app. split; assumption.
Qed.

Variable policy : Policy.
Variable upstream : Upstream.

Lemma insert_keeps {V} (m : gmap string V) k v id :
  is_Some (m !! id) -> is_Some (<[ k := v ]> m !! id).
Proof.
  intros H. destruct (decide (k = id)) as [->|Hne].
  - rewrite lookup_insert_eq. eauto.
  - rewrite lookup_insert_ne by assumption. exact H.
Qed.

Lemma coolDown_Step a st : Step st (coolDown policy upstream a st).
Proof.
  constructor; simpl.
  - reflexivity.
  - auto.
  - intros id. apply insert_keeps.
  - exists []. split; [reflexivity|constructor].
  - auto.
Qed.

Lemma callOnce_Step a st :
  Step st (snd (callOnce upstream a st)).
Proof.
  unfold callOnce.
  destruct (execute upstream (attempts (context st)) a) as [body|e] eqn:Hr;
    constructor; simpl.
  - reflexivity.
  - auto.
  - auto.
  - exists [Executed a (Succeeded body)]. split; [reflexivity|].
    repeat constructor.
  - intros H id. apply H.
  - reflexivity.
  - intros id. apply insert_keeps.
  - auto.
  - exists [Executed a (Rejected e)]. split; [reflexivity|].
    repeat constructor.
  - intros H id. simpl.
    destruct (String.eqb_spec (accountId a) id) as [->|Hne].
    + rewrite lookup_insert_eq. reflexivity.
    + rewrite lookup_insert_ne by assumption. apply H.
Qed.

Lemma callOnce_response a st :
  fst (callOnce upstream a st) = execute upstream (attempts (context st)) a.
Proof.
  unfold callOnce. destruct (execute upstream _ a); reflexivity.
Qed.

Lemma callOnce_recorded a st e :
  fst (callOnce upstream a st) = Rejected e ->
  recorded a (snd (callOnce upstream a st)).
Proof.
  unfold callOnce, recorded.
  destruct (execute upstream _ a); simpl; [discriminate|].
  intros _. rewrite lookup_insert_eq. eauto.
Qed.

Lemma recorded_Step a st st' : recorded a st -> Step st st' -> recorded a st'.
Proof. intros H S. apply (step_errors _ _ S), H. Qed.

Lemma tryAccount_Good onAuthExpired a :
  (forall n st, recorded a st -> Good a st (onAuthExpired n st)) ->
  forall transientLeft st, Good a st (tryAccount policy upstream onAuthExpired transientLeft a st).
Proof.
  intros Hauth. induction transientLeft as [|n IH]; intros st; cbn [tryAccount].
  all: destruct (cancelled upstream _); [split; [apply Step_refl|discriminate]|].
  all: pose proof (callOnce_Step a st) as Hstep;
       pose proof (callOnce_recorded a st) as Hrec;
       destruct (callOnce upstream a st) as [r st1]; simpl in Hstep, Hrec.
  all: destruct r as [body|e]; [split; [exact Hstep|discriminate]|].
  all: specialize (Hrec e eq_refl).
  all: destruct (classify e).
  - split; [exact Hstep|intros _; exact Hrec].
  - destruct (Hauth 0%nat st1 Hrec) as [S1 G1].
    split; [eapply Step_trans; eassumption|exact G1].
  - split; simpl.
    + eapply Step_trans; [exact Hstep|apply coolDown_Step].
    + intros _. eapply recorded_Step; [exact Hrec|apply coolDown_Step].
  - split; [exact Hstep|intros _; exact Hrec].
  - destruct (IH st1) as [S1 G1].
    split; [eapply Step_trans; eassumption|exact G1].
  - destruct (Hauth (S n) st1 Hrec) as [S1 G1].
    split; [eapply Step_trans; eassumption|exact G1].
  - split; simpl.
    + eapply Step_trans; [exact Hstep|apply coolDown_Step].
    + intros _. eapply recorded_Step; [exact Hrec|apply coolDown_Step].
  - split; [exact Hstep|intros _; exact Hrec].
Qed.

Lemma ticked_logged_Step ev st :
  isSelectNext ev = false ->
  (forall id, lastFailureInLog id (ev :: log st) = lastFailureInLog id (log st)) ->
  Step st (ticked (logged ev st)).
Proof.
  intros Hev Hlog. constructor; simpl.
  - reflexivity.
  - auto.
  - auto.
  - exists [ev]. split; [reflexivity|]. repeat constructor. exact Hev.
  - intros H id. rewrite Hlog. apply H.
Qed.

Lemma retryAfterRefresh_Good a n st :
  Good a st (retryAfterRefresh policy upstream n a st).
Proof.
  apply tryAccount_Good. intros _ st' Hrec.
  split; [apply Step_refl|intros _; exact Hrec].
Qed.

Lemma forceRefresh_Good a n st :
  Good a st (forceRefresh policy upstream a n st).
Proof.
  unfold forceRefresh.
  destruct (cancelled upstream _); [split; [apply Step_refl|discriminate]|].
  destruct (refreshCredentials upstream _ a) eqn:Hok.
  - assert (S1 : Step st (ticked (logged (Refreshed a true) st))).
    { apply ticked_logged_Step; [reflexivity|]. intros id. reflexivity. }
    destruct (retryAfterRefresh_Good a n (ticked (logged (Refreshed a true) st)))
      as [S2 G2].
    split; [eapply Step_trans; eassumption|exact G2].
  - split; simpl.
    + constructor; simpl.
      * reflexivity.
      * intros id. apply insert_keeps.
      * auto.
      * exists [Refreshed a false]. split; [reflexivity|]. repeat constructor.
      * intros H id. simpl.
        destruct (String.eqb_spec (accountId a) id) as [->|Hne].
        -- rewrite lookup_insert_eq. reflexivity.
        -- rewrite lookup_insert_ne by assumption. apply H.
    + intros _. unfold recorded. simpl. rewrite lookup_insert_eq. eauto.
Qed.

Lemma attempt_Good a st : Good a st (attempt policy upstream a st).
Proof.
  apply tryAccount_Good. intros n st' _. apply forceRefresh_Good.
Qed.

(** *** The aggregated error *)

Variable combo : list Account.

Lemma aggregate_lookup st id :
  aggregate combo st !! id =
    if bool_decide (id ∈ accountId <$> combo) then lastFailureById st id else None.
Proof.
  unfold aggregate. induction combo as [|b rest IH]; cbn [foldr fmap list_fmap].
  - rewrite (bool_decide_eq_false_2 (id ∈ [])) by apply not_elem_of_nil.
    apply lookup_empty.
  - destruct (decide (id = accountId b)) as [->|Hne].
    + rewrite (bool_decide_eq_true_2 (accountId b ∈ accountId b :: _))
        by apply list_elem_of_here.
      unfold lastFailureOf at 1.
      destruct (lastFailureById st (accountId b)) as [f|] eqn:Hf.
      * apply lookup_insert_eq.
      * rewrite IH. destruct (bool_decide _); reflexivity.
    + assert (Hiff : bool_decide (id ∈ accountId b :: (accountId <$> rest))
                     = bool_decide (id ∈ accountId <$> rest)).
      { apply bool_decide_ext. rewrite elem_of_cons. tauto. }
      rewrite Hiff, <- IH.
      destruct (lastFailureOf st b); [|reflexivity].
      apply lookup_insert_ne. congruence.
Qed.

Lemma lastFailureOf_Step st st' b :
  Step st st' -> is_Some (lastFailureOf st b) -> is_Some (lastFailureOf st' b).
Proof.
  intros S. unfold lastFailureOf, lastFailureById.
  destruct (errors (context st) !! accountId b) as [f|] eqn:E.
  - intros _. destruct (step_errors _ _ S (accountId b)) as [f' ->]; eauto.
  - intros H. destruct (errors (context st') !! accountId b); [eauto|].
    apply fmap_is_Some in H. apply fmap_is_Some.
    apply (step_cooldowns _ _ S), H.
Qed.

Lemma cooledDown_lastFailure st t b :
  cooledDown (cooldowns st) t b = true -> is_Some (lastFailureOf st b).
Proof.
  intros H. destruct (cooledDown_entry _ _ _ H) as (c & Hc & _).
  unfold lastFailureOf, lastFailureById.
  destruct (errors (context st) !! accountId b); [eauto|].
  rewrite Hc. simpl. eauto.
Qed.

Lemma logged_select_Step sel st : 
  consistent st -> consistent (logged (SelectNextCalled sel) st).
Proof. intros H id. apply H. Qed.

(** What one round that gives up on the selected account hands on. *)
Lemma round_gives_up st a i st1 :
  consistent st -> covered combo st ->
  selectNext (cooldowns st) (now upstream st) combo (context st) = Selected a i ->
  attempt policy upstream a (logged (SelectNextCalled (Selected a i)) st) = (GiveUp, st1) ->
  consistent (advancedTo (S i) st1)
  /\ covered combo (advancedTo (S i) st1)
  /\ position (context (advancedTo (S i) st1)) = S i
  /\ (position (context st) <= i < length combo)%nat.
Proof.
  intros Hcons Hcov Hsel Hatt.
  destruct (selectNext_selected _ _ _ _ _ _ Hsel) as (Hpos & Hi & Hcool & Hskipped).
  pose proof (attempt_Good a (logged (SelectNextCalled (Selected a i)) st)) as [S1 G1].
  rewrite Hatt in S1, G1. simpl in S1, G1. specialize (G1 eq_refl).
  split; [|split; [|split]].
  - intros id. simpl. apply (step_consistent _ _ S1).
    apply logged_select_Step, Hcons.
  - intros j b Hj Hb. simpl in Hj.
    change (lastFailureOf (advancedTo (S i) st1) b) with (lastFailureOf st1 b).
    destruct (decide (j = i)) as [->|Hne].
    + rewrite Hi in Hb. injection Hb as <-.
      unfold lastFailureOf, lastFailureById.
      destruct G1 as [f ->]. eauto.
    + apply (lastFailureOf_Step _ _ _ S1).
      change (lastFailureOf (logged (SelectNextCalled (Selected a i)) st) b)
        with (lastFailureOf st b).
      destruct (decide (j < position (context st))%nat) as [Hlt|Hge].
      * apply (Hcov j b Hlt Hb).
      * destruct (Hskipped j ltac:(lia)) as (b' & Hb' & Hc').
        rewrite Hb in Hb'. injection Hb' as <-.
        eapply cooledDown_lastFailure, Hc'.
  - reflexivity.
  - split; [exact Hpos|]. apply lookup_lt_Some in Hi. exact Hi.
Qed.

(** *** The loop *)

Lemma loop_terminates fuel st :
  (length combo - position (context st) < fuel)%nat ->
  is_Some (loop policy upstream combo fuel st).
Proof.
  revert st. induction fuel as [|fuel IH]; intros st Hfuel; [lia|].
  cbn [loop].
  destruct (selectNext _ _ combo (context st)) as [a i|] eqn:Hsel; [|eauto].
  destruct (selectNext_selected _ _ _ _ _ _ Hsel) as (Hpos & Hi & _).
  apply lookup_lt_Some in Hi.
  pose proof (attempt_Good a (logged (SelectNextCalled (Selected a i)) st)) as [S1 _].
  destruct (attempt policy upstream a _) as [[body| |] st1]; [eauto| |eauto].
  apply IH. simpl. lia.
Qed.

Lemma loop_exhausted fuel st entries st' :
  consistent st -> covered combo st ->
  loop policy upstream combo fuel st
    = Some (Failed (ComboExhaustedError entries), st') ->
  consistent st'
  /\ entries = aggregate combo st'
  /\ (forall j b, combo !! j = Some b -> is_Some (lastFailureOf st' b))
  /\ (exists older, log st' = SelectNextCalled Exhausted :: older).
Proof.
  revert st. induction fuel as [|fuel IH]; intros st Hcons Hcov; [discriminate|].
  cbn [loop].
  destruct (selectNext _ _ combo (context st)) as [a i|] eqn:Hsel.
  - destruct (attempt policy upstream a _) as [[body| |] st1] eqn:Hatt;
      [discriminate| |discriminate].
    destruct (round_gives_up st a i st1 Hcons Hcov Hsel Hatt) as (Hc1 & Hv1 & _).
    apply IH; assumption.
  - intros [= <- <-]. split; [apply logged_select_Step, Hcons|].
    split; [reflexivity|]. split; [|eauto].
    intros j b Hb.
    change (lastFailureOf (logged (SelectNextCalled Exhausted) st) b)
      with (lastFailureOf st b).
    destruct (decide (j < position (context st))%nat) as [Hlt|Hge].
    + apply (Hcov j b Hlt Hb).
    + eapply cooledDown_lastFailure.
      apply (selectNext_exhausted _ _ _ _ Hsel j b); [lia|exact Hb].
Qed.

Lemma tryAccount_gives_up onAuthExpired a :
  (forall n, cancelled upstream n = false) ->
  (forall n b, exists e, execute upstream n b = Rejected e) ->
  (forall n st, fst (onAuthExpired n st) = GiveUp) ->
  forall transientLeft st,
    fst (tryAccount policy upstream onAuthExpired transientLeft a st) = GiveUp.
Proof.
  intros Hc Hx Hauth. induction transientLeft as [|n IH]; intros st; cbn [tryAccount].
  all: rewrite Hc; pose proof (callOnce_response a st) as Hr;
       destruct (callOnce upstream a st) as [r st1]; simpl in Hr;
       destruct (Hx (attempts (context st)) a) as [e He]; rewrite He in Hr; subst r;
       destruct (classify e); try reflexivity; try apply Hauth.
  apply IH.
Qed.

Lemma attempt_gives_up a st :
  (forall n, cancelled upstream n = false) ->
  (forall n b, exists e, execute upstream n b = Rejected e) ->
  fst (attempt policy upstream a st) = GiveUp.
Proof.
  intros Hc Hx. apply tryAccount_gives_up; [assumption..|].
  intros n st'. unfold forceRefresh. rewrite Hc.
  destruct (refreshCredentials upstream _ a); [|reflexivity].
  apply tryAccount_gives_up; [assumption..|reflexivity].
Qed.

Lemma loop_all_rejected fuel st r st' :
  (forall n, cancelled upstream n = false) ->
  (forall n b, exists e, execute upstream n b = Rejected e) ->
  loop policy upstream combo fuel st = Some (r, st') ->
  exists entries, r = Failed (ComboExhaustedError entries).
Proof.
  intros Hc Hx. revert st. induction fuel as [|fuel IH]; intros st; [discriminate|].
  cbn [loop].
  destruct (selectNext _ _ combo (context st)) as [a i|].
  - pose proof (attempt_gives_up a (logged (SelectNextCalled (Selected a i)) st) Hc Hx)
      as Hg.
    destruct (attempt policy upstream a _) as [o st1]. simpl in Hg. subst o.
    apply IH.
  - intros [= <- <-]. eauto.
Qed.

Lemma start_consistent store : consistent (start store).
Proof. intros id. apply lookup_empty. Qed.

Lemma start_covered store : covered combo (start store).
Proof. intros j b Hj. simpl in Hj. lia. Qed.


(** *** A run of quota failures followed by a success *)

Lemma selections_app recent older :
  selections (recent ++ older) = (selections older ++ selections recent)%list.
Proof. unfold selections. rewrite reverse_app. apply omap_app. Qed.

Lemma networkCalls_app recent older :
  networkCalls (recent ++ older) = (networkCalls recent + networkCalls older)%nat.
Proof. unfold networkCalls. rewrite filter_app, length_app. reflexivity. Qed.

Lemma selectNext_first store t ctx a :
  combo !! position ctx = Some a ->
  cooledDown store t a = false ->
  selectNext store t combo ctx = Selected a (position ctx).
Proof.
  intros Ha Hc. unfold selectNext. rewrite (drop_S _ _ _ Ha). simpl.
  rewrite Hc. reflexivity.
Qed.

Lemma attempt_quota a st e :
  cancelled upstream (attempts (context st)) = false ->
  execute upstream (attempts (context st)) a = Rejected e ->
  classify e = QuotaExceeded ->
  attempt policy upstream a st
  = (GiveUp,
     coolDown policy upstream a
       (failedWith a (ExecutionFailed e)
          (ticked (logged (Executed a (Rejected e)) st)))).
Proof.
  intros Hc He Hq. unfold attempt.
  destruct (transientCap policy); cbn [tryAccount]; rewrite Hc;
    unfold callOnce; rewrite He, Hq; reflexivity.
Qed.

Lemma attempt_success a st body :
  cancelled upstream (attempts (context st)) = false ->
  execute upstream (attempts (context st)) a = Succeeded body ->
  attempt policy upstream a st
  = (Done body, ticked (logged (Executed a (Succeeded body)) st)).
Proof.
  intros Hc He. unfold attempt.
  destruct (transientCap policy); cbn [tryAccount]; rewrite Hc;
    unfold callOnce; rewrite He; reflexivity.
Qed.

Lemma loop_quota_then_success aK m :
  (forall n, cancelled upstream n = false) ->
  (forall n, exists body, execute upstream n aK = Succeeded body) ->
  forall fuel st p,
    (m < fuel)%nat ->
    position (context st) = p ->
    combo !! (p + m)%nat = Some aK ->
    (forall n j b, (j < m)%nat -> combo !! (p + j)%nat = Some b ->
       exists e, execute upstream n b = Rejected e /\ classify e = QuotaExceeded) ->
    (forall n j b, (j <= m)%nat -> combo !! (p + j)%nat = Some b ->
       cooledDown (cooldowns st) (clock upstream n) b = false) ->
    NoDup (accountId <$> take (S m) (drop p combo)) ->
    exists body st',
      loop policy upstream combo fuel st = Some (Completed aK body, st')
      /\ selections (log st') =
           (selections (log st)
            ++ imap (fun j b => Selected b (p + j)) (take (S m) (drop p combo)))%list
      /\ networkCalls (log st') = (networkCalls (log st) + S m)%nat
      /\ (forall j b, (j < m)%nat -> combo !! (p + j)%nat = Some b ->
            cooldowns st' !! accountId b
            = Some {| cooledDownUntil :=
                        clock upstream (S (attempts (context st) + j))
                        + backoff policy (provider b);
                      lastErrorClass := QuotaExceeded |})
      /\ (forall id, id ∉ accountId <$> take m (drop p combo) ->
            cooldowns st' !! id = cooldowns st !! id).
Proof.
  intros Hcancel Hok. induction m as [|m IH];
    intros fuel st p Hfuel Hp HaK Hquota Hfresh Hnodup;
    (destruct fuel as [|fuel]; [lia|]); cbn [loop]; unfold now.
  - rewrite Nat.add_0_r in HaK.
    assert (Hsel : selectNext (cooldowns st) (clock upstream (attempts (context st)))
                     combo (context st) = Selected aK p).
    { rewrite <- Hp. apply selectNext_first; [rewrite Hp; exact HaK|].
      apply (Hfresh _ 0%nat); [lia|rewrite Nat.add_0_r; exact HaK]. }
    rewrite Hsel.
    destruct (Hok (attempts (context st))) as [body Hbody].
    rewrite (attempt_success aK _ body) by (try apply Hcancel; exact Hbody).
    exists body. eexists. split; [reflexivity|].
    cbn [log ticked logged].
    rewrite (drop_S _ _ _ HaK). cbn [take imap].
    rewrite Nat.add_0_r.
    split; [|split; [|split]].
    + change (Executed aK (Succeeded body) :: SelectNextCalled (Selected aK p) :: log st)
        with ([Executed aK (Succeeded body); SelectNextCalled (Selected aK p)] ++ log st)%list.
      rewrite selections_app. reflexivity.
    + change (Executed aK (Succeeded body) :: SelectNextCalled (Selected aK p) :: log st)
        with ([Executed aK (Succeeded body); SelectNextCalled (Selected aK p)] ++ log st)%list.
      rewrite networkCalls_app. unfold networkCalls at 1. simpl. lia.
    + intros j b Hj. lia.
    + intros id _. reflexivity.
  - assert (Hlen : (p + S m < length combo)%nat) by (apply lookup_lt_Some in HaK; exact HaK).
    destruct (lookup_lt_is_Some_2 combo p ltac:(lia)) as [b0 Hb0].
    assert (Hsel : selectNext (cooldowns st) (clock upstream (attempts (context st)))
                     combo (context st) = Selected b0 p).
    { rewrite <- Hp. apply selectNext_first; [rewrite Hp; exact Hb0|].
      apply (Hfresh _ 0%nat); [lia|rewrite Nat.add_0_r; exact Hb0]. }
    rewrite Hsel.
    destruct (Hquota (attempts (context st)) 0%nat b0 ltac:(lia)
                ltac:(rewrite Nat.add_0_r; exact Hb0)) as (e & He & Hq).
    rewrite (attempt_quota b0 _ e) by (try apply Hcancel; assumption).
    set (st1 := advancedTo (S p) _).
    rewrite (drop_S _ _ _ Hb0) in Hnodup.
    change (take (S (S m)) (b0 :: drop (S p) combo))
      with (b0 :: take (S m) (drop (S p) combo)) in Hnodup.
    rewrite fmap_cons in Hnodup. apply NoDup_cons in Hnodup as [Hb0new Hnodup].
    assert (Hother : forall j b, (j <= m)%nat -> combo !! (S p + j)%nat = Some b ->
                                 accountId b <> accountId b0).
    { intros j b Hj Hb Heq. apply Hb0new. rewrite <- Heq.
      apply list_elem_of_fmap. exists b. split; [reflexivity|].
      apply list_elem_of_lookup. exists j.
      rewrite lookup_take_lt by lia. rewrite lookup_drop. exact Hb. }
    destruct (IH fuel st1 (S p)) as (body & st' & Hloop & Hsels & Hcalls & Hcd & Hframe).
    + lia.
    + reflexivity.
    + rewrite <- HaK. f_equal. lia.
    + intros n j b Hj Hb. apply (Hquota n (S j) b); [lia|].
      rewrite <- Hb. f_equal. lia.
    + intros n j b Hj Hb. subst st1. cbn [advancedTo cooldowns coolDown failedWith ticked logged].
      unfold cooledDown. rewrite lookup_insert_ne by (apply not_eq_sym, (Hother j b Hj Hb)).
      apply (Hfresh n (S j) b); [lia|]. rewrite <- Hb. f_equal. lia.
    + exact Hnodup.
    + exists body, st'. split; [exact Hloop|].
      rewrite (drop_S _ _ _ Hb0).
      change (take (S (S m)) (b0 :: drop (S p) combo))
        with (b0 :: take (S m) (drop (S p) combo)).
      change (take (S m) (b0 :: drop (S p) combo))
        with (b0 :: take m (drop (S p) combo)).
      split; [|split; [|split]].
      * rewrite Hsels. subst st1. cbn [advancedTo log coolDown failedWith ticked logged].
        change (Executed b0 (Rejected e) :: SelectNextCalled (Selected b0 p) :: log st)
          with ([Executed b0 (Rejected e); SelectNextCalled (Selected b0 p)] ++ log st)%list.
        rewrite selections_app, <- app_assoc. f_equal.
        rewrite imap_cons. cbn. rewrite Nat.add_0_r. f_equal.
        apply imap_ext. intros j b _. simpl. f_equal. lia.
      * rewrite Hcalls. subst st1. cbn [advancedTo log coolDown failedWith ticked logged].
        change (Executed b0 (Rejected e) :: SelectNextCalled (Selected b0 p) :: log st)
          with ([Executed b0 (Rejected e); SelectNextCalled (Selected b0 p)] ++ log st)%list.
        rewrite networkCalls_app. unfold networkCalls at 1. simpl. lia.
      * intros [|j] b Hj Hb.
        -- rewrite Nat.add_0_r in Hb. rewrite Hb0 in Hb. injection Hb as <-.
           rewrite Hframe.
           ++ subst st1. cbn [advancedTo cooldowns coolDown failedWith ticked logged].
              rewrite lookup_insert_eq. unfold now.
              cbn [context attempts failedWith ticked logged].
              rewrite Nat.add_0_r. reflexivity.
           ++ intros Hin. apply Hb0new.
              apply list_elem_of_fmap in Hin as (b & Hid & Hb).
              apply list_elem_of_fmap. exists b. split; [exact Hid|].
              apply elem_of_take in Hb as (i & Hi & Hlt).
              apply list_elem_of_lookup. exists i.
              rewrite lookup_take_lt by lia. exact Hi.
        -- rewrite (Hcd j b); [|lia|rewrite <- Hb; f_equal; lia].
           subst st1. cbn [advancedTo context attempts coolDown failedWith ticked logged].
           replace (S (attempts (context st)) + j)%nat
             with (attempts (context st) + S j)%nat by lia.
           reflexivity.
      * intros id Hid. rewrite fmap_cons, not_elem_of_cons in Hid.
        destruct Hid as [Hne Hid]. rewrite (Hframe id Hid).
        subst st1. cbn [advancedTo cooldowns coolDown failedWith ticked logged].
        apply lookup_insert_ne. congruence.
Qed.

End FallbackFacts.


Section SelectionFacts.
Import Fallback.

(** C2.  [selectNext] never returns an account whose cooledDownUntil lies
    in the future at the moment of selection, whatever the Combo, the
    store and the context are (hence in every later request too).  And
    when the first K accounts of a Combo (distinct, none cooled down
    beforehand) answer with QuotaExceeded and the next one answers,
    [selectNext] is called exactly K+1 times, its j-th result is the
    j-th account, the (K+1)-th call returns the (K+1)-th account, which
    serves the request; each of the K accounts is left cooled down until
    its failure time plus its provider's backoff, and no selection before
    that moment returns it again. *)
Theorem C2_selectNext_skips_cooled_accounts :
  (forall store t combo ctx a i,
      selectNext store t combo ctx = Selected a i ->
      cooledDown store t a = false
      /\ (forall c, store !! accountId a = Some c -> cooledDownUntil c <= t)
      /\ combo !! i = Some a
      /\ (position ctx <= i)%nat)
  /\ (forall policy upstream combo store K aK,
        combo !! K = Some aK ->
        NoDup (accountId <$> take (S K) combo) ->
        (forall n, cancelled upstream n = false) ->
        (forall n j b, (j <= K)%nat -> combo !! j = Some b ->
           cooledDown store (clock upstream n) b = false) ->
        (forall n j b, (j < K)%nat -> combo !! j = Some b ->
           exists e, execute upstream n b = Rejected e
                     /\ classify e = QuotaExceeded) ->
        (forall n, exists body, execute upstream n aK = Succeeded body) ->
        exists body st',
          run policy upstream combo store = Some (Completed aK body, st')
          /\ selections (log st') = imap (fun j b => Selected b j) (take (S K) combo)
          /\ length (selections (log st')) = S K
          /\ selections (log st') !! K = Some (Selected aK K)
          /\ networkCalls (log st') = S K
          /\ (forall j b, (j < K)%nat -> combo !! j = Some b ->
                cooldowns st' !! accountId b
                = Some {| cooledDownUntil :=
                            clock upstream (S j) + backoff policy (provider b);
                          lastErrorClass := QuotaExceeded |})
          /\ (forall j b t combo' ctx' a' i',
                (j < K)%nat -> combo !! j = Some b ->
                t < clock upstream (S j) + backoff policy (provider b) ->
                selectNext (cooldowns st') t combo' ctx' = Selected a' i' ->
                accountId a' <> accountId b)).
Proof.
  split.
  - intros store t combo ctx a i H.
    destruct (selectNext_selected _ _ _ _ _ _ H) as (Hpos & Hi & Hc & _).
    repeat split; try assumption.
    intros c Hs. unfold cooledDown in Hc. rewrite Hs in Hc.
    apply Z.ltb_ge in Hc. exact Hc.
  - intros policy upstream combo store K aK HaK Hnodup Hcancel Hfresh Hquota Hok.
    destruct (loop_quota_then_success policy upstream combo aK K Hcancel Hok
                (S (length combo)) (start store) 0%nat)
      as (body & st' & Hrun & Hsels & Hcalls & Hcd & _).
    + apply lookup_lt_Some in HaK. lia.
    + reflexivity.
    + exact HaK.
    + exact Hquota.
    + exact Hfresh.
    + rewrite drop_0. exact Hnodup.
    + rewrite drop_0 in Hsels. simpl in Hsels, Hcalls, Hcd.
      assert (Hlen : length (take (S K) combo) = S K).
      { rewrite length_take. apply lookup_lt_Some in HaK. lia. }
      exists body, st'. split; [exact Hrun|]. split; [exact Hsels|].
      split; [rewrite Hsels, length_imap; exact Hlen|].
      split; [rewrite Hsels, list_lookup_imap, lookup_take_lt, HaK by lia;
              reflexivity|].
      split; [exact Hcalls|]. split; [exact Hcd|].
      intros j b t combo' ctx' a' i' Hj Hb Ht Hsel Heq.
      destruct (selectNext_selected _ _ _ _ _ _ Hsel) as (_ & _ & Hc & _).
      unfold cooledDown in Hc. rewrite Heq, (Hcd j b Hj Hb) in Hc. simpl in Hc.
      apply Z.ltb_ge in Hc. lia.
Qed.

End SelectionFacts.

Example run_two_quota_failures :
  option_map fst
    (Fallback.run samplePolicy twoQuotaFailures [subscription; payPerUse; freeTier] ∅)
  = Some (Fallback.Completed freeTier "ok").
Proof. vm_compute. reflexivity. Qed.

Lemma C2_witness :
  exists body st',
    Fallback.run samplePolicy twoQuotaFailures [subscription; payPerUse; freeTier] ∅
      = Some (Fallback.Completed freeTier body, st')
    /\ Fallback.selections (Fallback.log st')
       = imap (fun j b => Fallback.Selected b j)
              (take 3 [subscription; payPerUse; freeTier])
    /\ length (Fallback.selections (Fallback.log st')) = 3%nat
    /\ Fallback.selections (Fallback.log st') !! 2%nat
       = Some (Fallback.Selected freeTier 2)
    /\ Fallback.networkCalls (Fallback.log st') = 3%nat
    /\ (forall j b, (j < 2)%nat -> [subscription; payPerUse; freeTier] !! j = Some b ->
          Fallback.cooldowns st' !! Fallback.accountId b
          = Some {| Fallback.cooledDownUntil :=
                      Fallback.clock twoQuotaFailures (S j)
                      + Fallback.backoff samplePolicy (Fallback.provider b);
                    Fallback.lastErrorClass := Fallback.QuotaExceeded |})
    /\ (forall j b t combo' ctx' a' i',
          (j < 2)%nat -> [subscription; payPerUse; freeTier] !! j = Some b ->
          t < Fallback.clock twoQuotaFailures (S j)
              + Fallback.backoff samplePolicy (Fallback.provider b) ->
          Fallback.selectNext (Fallback.cooldowns st') t combo' ctx'
            = Fallback.Selected a' i' ->
          Fallback.accountId a' <> Fallback.accountId b).
Proof.
  apply (proj2 C2_selectNext_skips_cooled_accounts samplePolicy twoQuotaFailures
           [subscription; payPerUse; freeTier] ∅ 2%nat freeTier).
  - reflexivity.
  - apply (bool_decide_unpack _). vm_compute. exact I.
  - intros n. reflexivity.
  - intros n j b _ _. reflexivity.
  - intros n j b Hj Hb. exists tooManyRequests.
    destruct j as [|[|j]]; [| |lia]; injection Hb as <-; split; reflexivity.
  - intros n. exists "ok"%string. reflexivity.
Defined.

Example run_all_cooled_down :
  exists entries,
    Fallback.run samplePolicy twoQuotaFailures [subscription; payPerUse; freeTier]
      allCooledDown
    = Some (Fallback.Failed (Fallback.ComboExhaustedError entries),
            Fallback.logged (Fallback.SelectNextCalled Fallback.Exhausted)
              (Fallback.start allCooledDown))
    /\ size entries = 3%nat.
Proof. eexists. split; [vm_compute; reflexivity|]. vm_compute. reflexivity. Qed.

Section FormatRegistryFacts.
Import FormatRegistry.
Local Open Scope string_scope.
Implicit Types (v : Vendor) (c : CanonicalRequest) (raw kept : gmap string Field).

Lemma bind_Ok {A B} (o : Outcome A) (k : A -> Outcome B) b :
  o ≫= k = Ok b -> exists a, o = Ok a /\ k a = Ok b.
Proof. destruct o as [a|e]; simpl; [eauto|discriminate]. Qed.

(** *** Registration *)

Lemma register_wellFormed registry entry :
  (forall format v, registry !! format = Some v -> wellFormed v) ->
  forall format v, register registry entry !! format = Some v -> wellFormed v.
Proof.
  intros Hreg format v. unfold register.
  destruct (decide (wellFormed entry.2)) as [Hwf|_]; [|apply Hreg].
  intros H. apply lookup_insert_Some in H as [[_ <-]|[_ H]]; [exact Hwf|].
  eapply Hreg, H.
Qed.

Lemma buildRegistry_wellFormed formats format v :
  buildRegistry formats !! format = Some v -> wellFormed v.
Proof.
  unfold buildRegistry.
  assert (H : forall registry,
             (forall f w, registry !! f = Some w -> wellFormed w) ->
             forall f w, foldl register registry formats !! f = Some w ->
                         wellFormed w).
  { induction formats as [|entry formats IH]; intros registry Hreg; [exact Hreg|].
    cbn [foldl]. apply IH, register_wellFormed, Hreg. }
  apply H. intros f w Hw. rewrite lookup_empty in Hw. discriminate.
Qed.

(** *** Roles *)

Lemma decodeRole_sound v name r :
  decodeRole v name = Some r -> roleName v r = Some name.
Proof.
  unfold decodeRole. intros H. apply find_some in H as [_ H].
  apply bool_decide_eq_true_1 in H. exact H.
Qed.

Lemma omap_NoDup_inj {A B} (f : A -> option B) (l : list A) x y b :
  NoDup (omap f l) -> x ∈ l -> y ∈ l -> f x = Some b -> f y = Some b ->
  NoDup l -> x = y.
Proof.
  induction l as [|a l IH]; intros Hnd Hx Hy Hfx Hfy Hl; [inversion Hx|].
  apply NoDup_cons in Hl as [Ha Hl].
  assert (Hin : forall z, z ∈ l -> f z = Some b -> b ∈ omap f l).
  { intros z Hz Hfz. apply list_elem_of_omap. exists z. auto. }
  cbn [omap list_omap] in Hnd.
  apply elem_of_cons in Hx as [->|Hx]; apply elem_of_cons in Hy as [->|Hy].
  - reflexivity.
  - rewrite Hfx in Hnd. apply NoDup_cons in Hnd as [Hb _].
    destruct (Hb (Hin y Hy Hfy)).
  - rewrite Hfy in Hnd. apply NoDup_cons in Hnd as [Hb _].
    destruct (Hb (Hin x Hx Hfx)).
  - destruct (f a); [apply NoDup_cons in Hnd as [_ Hnd]|]; apply IH; assumption.
Qed.

Lemma allRoles_complete (r : Role) : r ∈ allRoles.
Proof. unfold allRoles. destruct r; apply list_elem_of_In; simpl; tauto. Qed.

Lemma allRoles_NoDup : NoDup allRoles.
Proof.
  unfold allRoles. repeat (apply NoDup_cons; split);
    [..|apply NoDup_nil; exact I];
    intros H; apply list_elem_of_In in H; simpl in H; intuition discriminate.
Qed.

Lemma decodeRole_roleName v r name :
  NoDup (roleNames v) -> roleName v r = Some name -> decodeRole v name = Some r.
Proof.
  intros Hnd Hr. unfold decodeRole.
  destruct (find _ allRoles) as [r'|] eqn:Hfind.
  - apply find_some in Hfind as [_ H]. apply bool_decide_eq_true_1 in H.
    f_equal. eapply (omap_NoDup_inj (roleName v) allRoles r' r name); eauto using
      allRoles_complete, allRoles_NoDup.
  - pose proof (find_none _ _ Hfind r) as H.
    cbv beta in H. rewrite bool_decide_eq_true_2 in H by exact Hr.
    discriminate H. apply list_elem_of_In, allRoles_complete.
Qed.

Lemma encodeMessage_decoded v w m :
  decodeMessage v w = Ok m -> encodeMessage v m = Ok w.
Proof.
  unfold decodeMessage, encodeMessage.
  destruct (decodeRole v (wireRole w)) as [r|] eqn:Hr; [|discriminate].
  intros [= <-]. cbn [role content]. rewrite (decodeRole_sound _ _ _ Hr).
  destruct w; reflexivity.
Qed.

Lemma decodeMessage_encoded v m w :
  NoDup (roleNames v) -> encodeMessage v m = Ok w -> decodeMessage v w = Ok m.
Proof.
  unfold decodeMessage, encodeMessage. intros Hnd.
  destruct (roleName v (role m)) as [name|] eqn:Hname; [|discriminate].
  intros [= <-]. cbn [wireRole wireContent].
  rewrite (decodeRole_roleName _ _ _ Hnd Hname). destruct m; reflexivity.
Qed.

Lemma traverse_encode_decode v ws ms :
  traverse (decodeMessage v) ws = Ok ms -> traverse (encodeMessage v) ms = Ok ws.
Proof.
  revert ms. induction ws as [|w ws IH]; intros ms; cbn [traverse].
  - intros [= <-]. reflexivity.
  - intros H. apply bind_Ok in H as (m & Hm & H).
    apply bind_Ok in H as (ms' & Hms & [= <-]).
    cbn [traverse]. rewrite (encodeMessage_decoded _ _ _ Hm).
    cbn [mbind Outcome_bind]. rewrite (IH _ Hms). reflexivity.
Qed.

Lemma traverse_decode_encode v ms ws :
  NoDup (roleNames v) ->
  traverse (encodeMessage v) ms = Ok ws -> traverse (decodeMessage v) ws = Ok ms.
Proof.
  intros Hnd. revert ws. induction ms as [|m ms IH]; intros ws; cbn [traverse].
  - intros [= <-]. reflexivity.
  - intros H. apply bind_Ok in H as (w & Hw & H).
    apply bind_Ok in H as (ws' & Hws & [= <-]).
    cbn [traverse]. rewrite (decodeMessage_encoded _ _ _ Hnd Hw).
    cbn [mbind Outcome_bind]. rewrite (IH _ Hws). reflexivity.
Qed.

(** Writing succeeds exactly when the vendor names every role used. *)
Lemma traverse_encode_total v ms :
  (forall m, m ∈ ms -> is_Some (roleName v (role m))) ->
  exists ws, traverse (encodeMessage v) ms = Ok ws.
Proof.
  induction ms as [|m ms IH]; intros H; [exists []; reflexivity|].
  destruct (H m ltac:(left)) as [name Hname].
  destruct IH as [ws Hws]; [intros m' Hm'; apply H; right; exact Hm'|].
  exists ({| wireRole := name; wireContent := content m |} :: ws).
  assert (Hm : encodeMessage v m
               = Ok {| wireRole := name; wireContent := content m |}).
  { unfold encodeMessage. rewrite Hname. reflexivity. }
  cbn [traverse]. rewrite Hm. cbn [mbind Outcome_bind]. rewrite Hws. reflexivity.
Qed.

Lemma traverse_encode_unnamed v ms m :
  m ∈ ms -> roleName v (role m) = None ->
  traverse (encodeMessage v) ms = Failed (TranslationError "role").
Proof.
  induction ms as [|m' ms IH]; intros Hin Hnone; [inversion Hin|].
  cbn [traverse].
  destruct (encodeMessage v m') as [w|e] eqn:Hw.
  - cbn [mbind Outcome_bind].
    apply elem_of_cons in Hin as [->|Hin].
    + unfold encodeMessage in Hw. rewrite Hnone in Hw. discriminate Hw.
    + rewrite (IH Hin Hnone). reflexivity.
  - unfold encodeMessage in Hw.
    destruct (roleName v (role m')); [discriminate Hw|].
    injection Hw as <-. reflexivity.
Qed.

(** *** Fields *)

Lemma foldr_writeField_other (entries : list (string * option Field)) kept k :
  k ∉ entries.*1 -> foldr writeField kept entries !! k = kept !! k.
Proof.
  induction entries as [|[k' o] entries IH]; [reflexivity|].
  rewrite fmap_cons, not_elem_of_cons. intros [Hne Hk]. cbn [foldr].
  unfold writeField at 1. simpl. destruct o as [x|]; [|apply IH, Hk].
  rewrite lookup_insert_ne by (apply not_eq_sym, Hne). apply IH, Hk.
Qed.

Lemma foldr_writeField_entry (entries : list (string * option Field)) kept k o :
  NoDup entries.*1 -> (k, o) ∈ entries ->
  foldr writeField kept entries !! k =
    match o with Some x => Some x | None => kept !! k end.
Proof.
  induction entries as [|[k' o'] entries IH]; intros Hnd Hin.
  - apply elem_of_nil in Hin. contradiction.
  - rewrite fmap_cons in Hnd. apply NoDup_cons in Hnd as [Hk' Hnd].
    cbn [foldr]. unfold writeField at 1. cbn [fst snd].
    apply elem_of_cons in Hin as [[= -> ->]|Hin].
    + destruct o' as [x|]; [apply lookup_insert_eq|].
      apply foldr_writeField_other, Hk'.
    + assert (Hne : k' <> k).
      { intros ->. apply Hk'. apply list_elem_of_fmap. exists (k, o).
        split; [reflexivity|exact Hin]. }
      destruct o' as [x|]; [rewrite lookup_insert_ne by exact Hne|];
        apply IH; assumption.
Qed.

Ltac entry_is_listed :=
  unfold canonicalEntries;
  repeat first [ apply list_elem_of_here | apply list_elem_of_further ].

Lemma optionalNumber_read raw k o :
  raw !! k = FNumber <$> o -> optionalNumber raw k = Ok o.
Proof. unfold optionalNumber. intros ->. destruct o; reflexivity. Qed.

Lemma optionalTools_read raw k o :
  raw !! k = FTools <$> o -> optionalTools raw k = Ok o.
Proof. unfold optionalTools. intros ->. destruct o; reflexivity. Qed.

Lemma optionalBool_read raw k o :
  raw !! k = FBool <$> o -> optionalBool raw k = Ok o.
Proof. unfold optionalBool. intros ->. destruct o; reflexivity. Qed.

Lemma optionalNumber_Ok raw k o :
  optionalNumber raw k = Ok o -> raw !! k = FNumber <$> o.
Proof.
  unfold optionalNumber. destruct (raw !! k) as [[]|]; try discriminate;
    intros [= <-]; reflexivity.
Qed.

Lemma optionalTools_Ok raw k o :
  optionalTools raw k = Ok o -> raw !! k = FTools <$> o.
Proof.
  unfold optionalTools. destruct (raw !! k) as [[]|]; try discriminate;
    intros [= <-]; reflexivity.
Qed.

Lemma optionalBool_Ok raw k o :
  optionalBool raw k = Ok o -> raw !! k = FBool <$> o.
Proof.
  unfold optionalBool. destruct (raw !! k) as [[]|]; try discriminate;
    intros [= <-]; reflexivity.
Qed.

(** What the fields written for a request hold, over fields [kept] that
    have none of the vendor's canonical names. *)
Lemma written_fields v c ws kept k :
  NoDup (canonicalFields v) ->
  (forall k', k' ∈ canonicalFields v -> kept !! k' = None) ->
  (forall o, (k, o) ∈ canonicalEntries v c ws ->
     foldr writeField kept (canonicalEntries v c ws) !! k = o)
  /\ (k ∉ canonicalFields v ->
      foldr writeField kept (canonicalEntries v c ws) !! k = kept !! k).
Proof.
  intros Hfields Hkept. split.
  - intros o Hin.
    rewrite (foldr_writeField_entry _ _ k o) by (try exact Hin; exact Hfields).
    destruct o; [reflexivity|]. apply Hkept.
    change (canonicalFields v) with (canonicalEntries v c ws).*1.
    apply list_elem_of_fmap. exists (k, None). split; [reflexivity|exact Hin].
  - intros Hout. apply foldr_writeField_other. exact Hout.
Qed.

(** Reading back what [fromCanonical] wrote. *)
Lemma write_then_read registry format v c ws kept :
  registry !! format = Some v ->
  wellFormed v ->
  traverse (encodeMessage v) (messages c) = Ok ws ->
  (forall k, k ∈ canonicalFields v -> kept !! k = None) ->
  toCanonical registry format (foldr writeField kept (canonicalEntries v c ws))
  = Ok {| model := model c; messages := messages c;
          temperature := temperature c; topP := topP c;
          maxTokens := maxTokens c; tools := tools c; stream := stream c;
          passthrough := {| source := format; extras := kept |} |}.
Proof.
  intros Hreg [Hfields Hroles] Hws Hkept.
  set (raw' := foldr writeField kept (canonicalEntries v c ws)).
  assert (Hread : forall k o, (k, o) ∈ canonicalEntries v c ws -> raw' !! k = o).
  { intros k o. apply (written_fields v c ws kept k Hfields Hkept). }
  unfold toCanonical, lookupFormat. rewrite Hreg. cbn [mbind Outcome_bind].
  unfold requireString.
  rewrite (Hread (modelField v) _ ltac:(entry_is_listed)). cbn [mbind Outcome_bind].
  unfold requireMessages.
  rewrite (Hread (messagesField v) _ ltac:(entry_is_listed)). cbn [mbind Outcome_bind].
  rewrite (traverse_decode_encode _ _ _ Hroles Hws). cbn [mbind Outcome_bind].
  rewrite (optionalNumber_read raw' (temperatureField v) (temperature c))
    by (apply Hread; entry_is_listed).
  rewrite (optionalNumber_read raw' (topPField v) (topP c))
    by (apply Hread; entry_is_listed).
  rewrite (optionalNumber_read raw' (maxTokensField v) (maxTokens c))
    by (apply Hread; entry_is_listed).
  rewrite (optionalTools_read raw' (toolsField v) (tools c))
    by (apply Hread; entry_is_listed).
  rewrite (optionalBool_read raw' (streamField v) (stream c))
    by (apply Hread; entry_is_listed).
  cbn [mbind Outcome_bind].
  do 3 f_equal. apply map_eq. intros k.
  destruct (decide (k ∈ canonicalFields v)) as [Hin|Hout].
  - rewrite (Hkept k Hin). apply map_lookup_filter_None. right.
    intros x _ Hnot. apply Hnot. exact Hin.
  - assert (Hk : raw' !! k = kept !! k).
    { apply (written_fields v c ws kept k Hfields Hkept). exact Hout. }
    destruct (kept !! k) as [x|] eqn:E.
    + apply map_lookup_filter_Some. split; [rewrite Hk; reflexivity|exact Hout].
    + apply map_lookup_filter_None. left. rewrite Hk. reflexivity.
Qed.

(** What a successful [toCanonical] says about the request it read. *)
Lemma toCanonical_Ok registry format raw c :
  toCanonical registry format raw = Ok c ->
  exists v ws,
    registry !! format = Some v
    /\ traverse (decodeMessage v) ws = Ok (messages c)
    /\ (forall k o, (k, o) ∈ canonicalEntries v c ws -> raw !! k = o)
    /\ passthrough c
       = {| source := format;
            extras := filter (fun kx => kx.1 ∉ canonicalFields v) raw |}.
Proof.
  unfold toCanonical, lookupFormat. intros H.
  destruct (registry !! format) as [v|]; [|discriminate]. cbn [mbind Outcome_bind] in H.
  apply bind_Ok in H as (m & Hm & H). apply bind_Ok in H as (ws & Hws & H).
  apply bind_Ok in H as (ms & Hms & H). apply bind_Ok in H as (t & Ht & H).
  apply bind_Ok in H as (q & Hq & H). apply bind_Ok in H as (n & Hn & H).
  apply bind_Ok in H as (ts & Hts & H). apply bind_Ok in H as (b & Hb & H).
  injection H as <-. exists v, ws. cbn.
  split; [reflexivity|]. split; [exact Hms|]. split; [|reflexivity].
  unfold requireString in Hm. unfold requireMessages in Hws.
  intros k o Hin. unfold canonicalEntries in Hin. cbn in Hin.
  repeat (apply elem_of_cons in Hin as [[= -> ->]|Hin]).
  - destruct (raw !! modelField v) as [[]|]; try discriminate. congruence.
  - destruct (raw !! messagesField v) as [[]|]; try discriminate. congruence.
  - apply optionalNumber_Ok, Ht.
  - apply optionalNumber_Ok, Hq.
  - apply optionalNumber_Ok, Hn.
  - apply optionalTools_Ok, Hts.
  - apply optionalBool_Ok, Hb.
  - inversion Hin.
Qed.

Lemma filtered_has_no_canonical_field v raw k :
  k ∈ canonicalFields v ->
  filter (fun kx : string * Field => kx.1 ∉ canonicalFields v) raw !! k = None.
Proof.
  intros Hin. apply map_lookup_filter_None. right. intros x _ Hnot.
  apply Hnot. exact Hin.
Qed.

Lemma lookup_extras v (raw : gmap string Field) k :
  k ∉ canonicalFields v ->
  filter (fun kx => kx.1 ∉ canonicalFields v) raw !! k = raw !! k.
Proof.
  intros Hk. destruct (raw !! k) as [x|] eqn:E.
  - apply map_lookup_filter_Some. split; [exact E|exact Hk].
  - apply map_lookup_filter_None. left. exact E.
Qed.

Lemma lookup_canonical_part v (raw : gmap string Field) k :
  k ∈ canonicalFields v ->
  filter (fun kx => kx.1 ∈ canonicalFields v) raw !! k = raw !! k.
Proof.
  intros Hk. destruct (raw !! k) as [x|] eqn:E.
  - apply map_lookup_filter_Some. split; [exact E|exact Hk].
  - apply map_lookup_filter_None. left. exact E.
Qed.

Lemma lookup_canonical_part_other v (raw : gmap string Field) k :
  k ∉ canonicalFields v ->
  filter (fun kx => kx.1 ∈ canonicalFields v) raw !! k = None.
Proof.
  intros Hk. apply map_lookup_filter_None. right. intros x _ Hin. exact (Hk Hin).
Qed.

Lemma listed_entry v c ws k :
  k ∈ canonicalFields v -> exists o, (k, o) ∈ canonicalEntries v c ws.
Proof.
  change (canonicalFields v) with (canonicalEntries v c ws).*1.
  intros H. apply list_elem_of_fmap in H as ([k' o] & -> & H). exists o. exact H.
Qed.


End FormatRegistryFacts.


Example buildRegistry_sample :
  sampleRegistry !! "openai"%string = Some openaiFormat
  /\ sampleRegistry !! "gemini"%string = Some geminiFormat
  /\ sampleRegistry !! "clashing"%string = None.
Proof. repeat split; vm_compute; reflexivity. Qed.

Example toCanonical_sample :
  FormatRegistry.toCanonical sampleRegistry "openai" sampleRequest
  = FormatRegistry.Ok sampleCanonical.
Proof. vm_compute. reflexivity. Defined.

Example toCanonical_unregistered :
  FormatRegistry.toCanonical sampleRegistry "cohere" sampleRequest
  = FormatRegistry.Failed (FormatRegistry.UnsupportedFormatError "cohere").
Proof. vm_compute. reflexivity. Qed.

Example toCanonical_refused_format :
  FormatRegistry.toCanonical sampleRegistry "clashing" sampleRequest
  = FormatRegistry.Failed (FormatRegistry.UnsupportedFormatError "clashing").
Proof. vm_compute. reflexivity. Qed.

Example fromCanonical_other_vendor :
  FormatRegistry.fromCanonical sampleRegistry "gemini" sampleCanonical
  = FormatRegistry.Ok sampleGeminiRequest.
Proof. vm_compute. reflexivity. Qed.

Example fromCanonical_unnamed_role :
  exists c,
    FormatRegistry.toCanonical sampleRegistry "openai" sampleSystemRequest
    = FormatRegistry.Ok c
    /\ FormatRegistry.fromCanonical sampleRegistry "openai" c
       = FormatRegistry.Ok sampleSystemRequest
    /\ FormatRegistry.fromCanonical sampleRegistry "gemini" c
       = FormatRegistry.Failed (FormatRegistry.TranslationError "role").
Proof. eexists. repeat split; vm_compute; reflexivity. Qed.


Section RefreshFacts.
Import Refresh.
Implicit Types (s : Slot) (store : gmap string Slot).

Variable margin : Z.

Lemma eventsOf_cons account acct ev schedule :
  eventsOf account ((acct, ev) :: schedule)
  = if String.eqb acct account then ev :: eventsOf account schedule
    else eventsOf account schedule.
Proof. unfold eventsOf. simpl. destruct (String.eqb acct account); reflexivity. Qed.

(** An account's slot only moves with the account's own events. *)
Lemma run_slot store schedule account :
  run margin store schedule !! account
  = (fun s => foldl (stepSlot margin) s (eventsOf account schedule))
      <$> store !! account.
Proof.
  unfold run. revert store.
  induction schedule as [|[acct ev] schedule IH]; intros store.
  - simpl. destruct (store !! account); reflexivity.
  - cbn [foldl]. rewrite IH, eventsOf_cons. unfold step. cbn [fst snd].
    destruct (String.eqb_spec acct account) as [->|Hne].
    + rewrite lookup_alter_eq. destruct (store !! account); reflexivity.
    + rewrite lookup_alter_ne by exact Hne. reflexivity.
Qed.

(** Requests that arrive while a refresh is in flight wait for it. *)
Lemma arrivals_wait s requests :
  inFlight s = true ->
  foldl (stepSlot margin) s (arrivals requests)
  = {| credentials := credentials s; inFlight := true;
       waiting := waiting s ++ requests.*1;
       proceeded := proceeded s; refreshCalls := refreshCalls s |}.
Proof.
  revert s. induction requests as [|[r t] requests IH]; intros s Hin.
  - simpl. rewrite app_nil_r. destruct s; simpl in *; subst; reflexivity.
  - cbn [arrivals fmap list_fmap foldl]. cbn [stepSlot fst snd]. rewrite Hin.
    change (list_fmap _ _ ?f requests) with (arrivals requests).
    rewrite IH by reflexivity. cbn. rewrite <- app_assoc. reflexivity.
Qed.

(** Requests that find fresh credentials go on with the current token. *)
Lemma arrivals_proceed s requests :
  inFlight s = false ->
  (forall r t, (r, t) ∈ requests -> due margin t (credentials s) = false) ->
  foldl (stepSlot margin) s (arrivals requests)
  = {| credentials := credentials s; inFlight := false;
       waiting := waiting s;
       proceeded := proceeded s
                    ++ ((fun r => (r, UsesToken (accessToken (credentials s))))
                          <$> requests.*1);
       refreshCalls := refreshCalls s |}.
Proof.
  revert s. induction requests as [|[r t] requests IH]; intros s Hin Hfresh.
  - simpl. rewrite app_nil_r. destruct s; simpl in *; subst; reflexivity.
  - cbn [arrivals fmap list_fmap foldl]. cbn [stepSlot fst snd]. rewrite Hin.
    rewrite (Hfresh r t) by apply list_elem_of_here.
    change (list_fmap _ _ ?f requests) with (arrivals requests).
    rewrite IH.
    + cbn. rewrite <- app_assoc. reflexivity.
    + reflexivity.
    + intros r' t' Hr'. cbn. apply (Hfresh r' t'). apply list_elem_of_further, Hr'.
Qed.

(** C7.  Take any schedule in which the requests sharing one Account
    arrive as follows: a first one while the credentials are due for
    refresh (and no refresh is in flight), any number of others before the
    refresh returns, and any number after it while the refreshed
    credentials are not due; the events of other accounts may be
    interleaved at will.  Then exactly one [refreshCredentials] call is
    issued for the Account, the requests that arrived during it waited for
    its result, and every one of the requests goes on with the same
    refreshed token, which is the one persisted on the Account. *)
Theorem C7_one_refresh_for_concurrent_requests
    store schedule account s0 first now0 others fresh later :
  store !! account = Some s0 ->
  inFlight s0 = false ->
  due margin now0 (credentials s0) = true ->
  eventsOf account schedule
  = (arrivals ((first, now0) :: others) ++ [RefreshReturns fresh] ++ arrivals later)%list ->
  (forall r t, (r, t) ∈ later -> due margin t fresh = false) ->
  exists s',
    run margin store schedule !! account = Some s'
    /\ refreshCalls s' = S (refreshCalls s0)
    /\ proceeded s'
       = (proceeded s0
          ++ ((fun r => (r, UsesToken (accessToken fresh)))
                <$> ((first :: others.*1) ++ later.*1)))%list
    /\ credentials s' = fresh
    /\ inFlight s' = false
    /\ waiting s' = [].
Proof.
  intros Hslot Hidle Hdue Hevents Hfresh.
  rewrite run_slot, Hslot, Hevents. cbn [fmap option_fmap option_map].
  eexists. split; [reflexivity|].
  rewrite !foldl_app.
  change (arrivals ((first, now0) :: others))
    with (RequestArrives first now0 :: arrivals others).
  cbn [foldl]. cbn [stepSlot]. rewrite Hidle, Hdue.
  set (s1 := {| credentials := credentials s0; inFlight := true;
                waiting := [first]; proceeded := proceeded s0;
                refreshCalls := S (refreshCalls s0) |}).
  rewrite (arrivals_wait s1 others eq_refl).
  cbn [foldl stepSlot inFlight credentials waiting proceeded refreshCalls s1].
  set (s2 := {| credentials := fresh; inFlight := false; waiting := [];
                proceeded := _; refreshCalls := S (refreshCalls s0) |}).
  rewrite (arrivals_proceed s2 later eq_refl Hfresh).
  cbn [credentials inFlight waiting proceeded refreshCalls s2].
  repeat split.
  rewrite <- app_assoc. f_equal.
  change (first :: others.*1) with ([first] ++ others.*1)%list.
  rewrite <- fmap_app. reflexivity.
Qed.

End RefreshFacts.

Lemma C7_witness :
  exists s',
    Refresh.run 60 sampleStore sampleSchedule !! "acct-a"%string = Some s'
    /\ Refresh.refreshCalls s' = 1%nat
    /\ Refresh.proceeded s'
       = [ (1%nat, Refresh.UsesToken "new"); (2%nat, Refresh.UsesToken "new");
           (3%nat, Refresh.UsesToken "new") ]
    /\ Refresh.credentials s' = freshCredentials
    /\ Refresh.inFlight s' = false
    /\ Refresh.waiting s' = [].
Proof.
  apply (C7_one_refresh_for_concurrent_requests 60 sampleStore sampleSchedule
           "acct-a" staleSlot 1%nat 100 [(2%nat, 101)] freshCredentials [(3%nat, 150)]).
  - reflexivity.
  - reflexivity.
  - reflexivity.
  - reflexivity.
  - intros r t Hin. apply list_elem_of_singleton in Hin. injection Hin as -> ->.
    reflexivity.
Defined.


Section TokenCategoryFacts.
Import ThroughputCalc.
Local Open Scope string_scope.

Example categorizeInputTokens_boundaries :
  categorizeInputTokens (num 0) = Some "low"
  /\ categorizeInputTokens (num 499) = Some "low"
  /\ categorizeInputTokens (num 500) = Some "medium"
  /\ categorizeInputTokens (num 2000) = Some "medium"
  /\ categorizeInputTokens (num 2001) = Some "high"
  /\ categorizeInputTokens (num (-1)) = None
  /\ categorizeInputTokens (num nan) = None
  /\ categorizeInputTokens (num infinity) = None
  /\ categorizeInputTokens null = None.
Proof. repeat split; reflexivity. Qed.

(** X1.  [categorizeInputTokens] returns null exactly for an input that is
    undefined, null, not finite or negative; for any other input it
    returns "low" when the count is below 500, "medium" when it is not
    below 500 and at most 2000, and "high" otherwise: always exactly one of
    the three. *)
Theorem categorizeInputTokens_thresholds (promptTokens : jsnum) :
  (categorizeInputTokens promptTokens = None <->
   match promptTokens with
   | num p => is_finite p = false \/ (p <? 0)%float = true
   | _ => True
   end)
  /\ (forall p, promptTokens = num p ->
        is_finite p = true -> (p <? 0)%float = false ->
        categorizeInputTokens promptTokens =
          Some (if (p <? 500)%float then "low"
                else if (p <=? 2000)%float then "medium" else "high"))
  /\ (forall category, categorizeInputTokens promptTokens = Some category ->
        category = "low" \/ category = "medium" \/ category = "high").
Proof.
  destruct promptTokens as [| |p]; simpl.
  1,2: repeat split; try tauto; try discriminate.
  split; [|split].
  - destruct (is_finite p), (p <? 0)%float, (p <? 500)%float, (p <=? 2000)%float;
      simpl; split; intros H; try reflexivity; try discriminate; try tauto;
      destruct H; discriminate.
  - intros p' [= <-] -> ->. simpl.
    destruct (p <? 500)%float, (p <=? 2000)%float; reflexivity.
  - intros category.
    destruct (is_finite p), (p <? 0)%float, (p <? 500)%float, (p <=? 2000)%float;
      simpl; intros [= <-]; tauto.
Qed.

Example categorizeOutputTokens_boundaries :
  categorizeOutputTokens (num 0) = Some "short"
  /\ categorizeOutputTokens (num 99) = Some "short"
  /\ categorizeOutputTokens (num 100) = Some "medium"
  /\ categorizeOutputTokens (num 500) = Some "medium"
  /\ categorizeOutputTokens (num 501) = Some "long"
  /\ categorizeOutputTokens (num (-1)) = None
  /\ categorizeOutputTokens undefined = None.
Proof. repeat split; reflexivity. Qed.

(** X2.  [categorizeOutputTokens] returns null exactly for an input that is
    undefined, null, not finite or negative; for any other input it
    returns "short" when the count is below 100, "medium" when it is not
    below 100 and at most 500, and "long" otherwise. *)
Theorem categorizeOutputTokens_thresholds (completionTokens : jsnum) :
  (categorizeOutputTokens completionTokens = None <->
   match completionTokens with
   | num c => is_finite c = false \/ (c <? 0)%float = true
   | _ => True
   end)
  /\ (forall c, completionTokens = num c ->
        is_finite c = true -> (c <? 0)%float = false ->
        categorizeOutputTokens completionTokens =
          Some (if (c <? 100)%float then "short"
                else if (c <=? 500)%float then "medium" else "long"))
  /\ (forall category, categorizeOutputTokens completionTokens = Some category ->
        category = "short" \/ category = "medium" \/ category = "long").
Proof.
  destruct completionTokens as [| |c]; simpl.
  1,2: repeat split; try tauto; try discriminate.
  split; [|split].
  - destruct (is_finite c), (c <? 0)%float, (c <? 100)%float, (c <=? 500)%float;
      simpl; split; intros H; try reflexivity; try discriminate; try tauto;
      destruct H; discriminate.
  - intros c' [= <-] -> ->. simpl.
    destruct (c <? 100)%float, (c <=? 500)%float; reflexivity.
  - intros category.
    destruct (is_finite c), (c <? 0)%float, (c <? 100)%float, (c <=? 500)%float;
      simpl; intros [= <-]; tauto.
Qed.

End TokenCategoryFacts.

Section MiddlewareAuthFacts.
Import JsString MiddlewareAuth.
Local Open Scope string_scope.

Lemma prefix_app a b p :
  String.prefix (a +:+ b) p = true -> String.prefix a p = true.
Proof.
  revert p. induction a as [|c a IH]; intros p.
  - intros _. destruct p; reflexivity.
  - change (String c a +:+ b) with (String c (a +:+ b)).
    destruct p as [|c' p]; simpl; [discriminate|].
    destruct (ascii_dec c c'); [apply IH|discriminate].
Qed.

Lemma matchesPrefix_v1 pathname :
  matchesPrefix pathname "/api/v1/" = startsWith pathname "/api/v1/".
Proof.
  unfold matchesPrefix.
  destruct (String.eqb_spec pathname "/api/v1/") as [->|_]; reflexivity.
Qed.

Lemma isPublicApiPath_unfold pathname :
  isPublicApiPath pathname =
    (String.eqb pathname "/api/auth/login"
     || startsWith pathname "/api/auth/login/"
     || String.eqb pathname "/api/auth/logout"
     || startsWith pathname "/api/auth/logout/"
     || String.eqb pathname "/api/settings/require-login"
     || startsWith pathname "/api/settings/require-login/"
     || startsWith pathname "/api/v1/"
     || String.eqb pathname "/api/cloud/auth"
     || startsWith pathname "/api/cloud/auth/").
Proof.
  unfold isPublicApiPath, PUBLIC_API_PREFIXES. cbn [existsb].
  rewrite matchesPrefix_v1. unfold matchesPrefix.
  change (endsWith "/api/auth/login" "/") with false.
  change (endsWith "/api/auth/logout" "/") with false.
  change (endsWith "/api/settings/require-login" "/") with false.
  change (endsWith "/api/cloud/auth" "/") with false.
  cbv iota.
  destruct (String.eqb pathname "/api/auth/login"),
           (String.eqb pathname "/api/auth/logout"),
           (String.eqb pathname "/api/settings/require-login"),
           (String.eqb pathname "/api/cloud/auth");
    cbn [orb]; rewrite ?orb_true_r, ?orb_false_r, ?orb_assoc; reflexivity.
Qed.

(** The protected paths of tests/security/middleware.test.js, and two
    paths that only resemble a public prefix. *)
Example protected_paths_are_not_public :
  forallb (fun p => negb (isPublicApiPath p))
    [ "/api/settings"; "/api/shutdown"; "/api/providers"; "/api/sync/cloud";
      "/api/cli-tools/antigravity-mitm"; "/api/cli-tools/opencode-settings";
      "/api/oauth/claude/authorize"; "/api/auth/loginx"; "/api/v1" ] = true
  /\ forallb isPublicApiPath
       [ "/api/v1/chat/completions"; "/api/v1/messages"; "/api/v1/verify";
         "/api/auth/login"; "/api/auth/login/"; "/api/cloud/auth/check" ] = true.
Proof. split; vm_compute; reflexivity. Qed.

(** X3.  [isPublicApiPath] holds exactly of the listed prefixes themselves and
    of the paths below them (a prefix followed by "/", or "/api/v1/"
    followed by anything); a name that merely starts with the same letters
    is not public, and every public path lies under "/api/". *)
Theorem isPublicApiPath_characterised pathname :
  (isPublicApiPath pathname = true <->
   exists prefix, prefix ∈ PUBLIC_API_PREFIXES
     /\ (pathname = prefix
         \/ startsWith pathname (if endsWith prefix "/" then prefix
                                 else prefix +:+ "/") = true))
  /\ (isPublicApiPath pathname = true -> startsWith pathname "/api/" = true).
Proof.
  split.
  - unfold isPublicApiPath. rewrite existsb_exists. split.
    + intros (prefix & Hin & Hm). exists prefix.
      split; [apply list_elem_of_In, Hin|].
      unfold matchesPrefix in Hm.
      destruct (String.eqb_spec pathname prefix) as [->|_]; [left; reflexivity|].
      right. destruct (endsWith prefix "/"); exact Hm.
    + intros (prefix & Hin & Hm). exists prefix.
      split; [apply list_elem_of_In, Hin|].
      unfold matchesPrefix.
      destruct (String.eqb_spec pathname prefix) as [->|Hne]; [reflexivity|].
      destruct Hm as [Heq|Hm]; [contradiction|].
      destruct (endsWith prefix "/"); exact Hm.
  - rewrite isPublicApiPath_unfold. unfold startsWith.
    repeat rewrite orb_true_iff. rewrite !String.eqb_eq.
    intros H.
    repeat match type of H with
           | _ \/ _ => destruct H as [H|H]
           end;
      try (subst pathname; reflexivity);
      first [ exact (prefix_app "/api/" "auth/login/" _ H)
            | exact (prefix_app "/api/" "auth/logout/" _ H)
            | exact (prefix_app "/api/" "settings/require-login/" _ H)
            | exact (prefix_app "/api/" "v1/" _ H)
            | exact (prefix_app "/api/" "cloud/auth/" _ H) ].
Qed.

End MiddlewareAuthFacts.

Section BearerTokenFacts.
Import JsString ApiKey.
Local Open Scope string_scope.

Lemma substring_all s : substring 0 (String.length s) s = s.
Proof. induction s as [|c s IH]; simpl; [reflexivity|]. rewrite IH. reflexivity. Qed.

Lemma sliceFrom_Bearer token : sliceFrom 7 ("Bearer " +:+ token) = token.
Proof.
  unfold sliceFrom.
  change ("Bearer " +:+ token)
    with (String "B" (String "e" (String "a" (String "r" (String "e"
            (String "r" (String " " token))))))).
  cbn [String.length Nat.sub substring]. rewrite Nat.sub_0_r. apply substring_all.
Qed.

Example extractBearerToken_runs :
  extractBearerToken (Some "Bearer sk-abc") = Some "sk-abc"
  /\ extractBearerToken (Some "bearer sk-abc") = None
  /\ extractBearerToken (Some "Bearer") = None
  /\ extractBearerToken (Some "Bearer ") = Some ""
  /\ extractBearerToken None = None.
Proof. repeat split; reflexivity. Qed.

(** X4.  [extractBearerToken] returns null when the Authorization header is
    absent, empty or does not start with "Bearer " (case-sensitively), and
    for a header "Bearer " followed by a token it returns that token,
    unchanged. *)
Theorem extractBearerToken_cases authHeader :
  (authHeader = None -> extractBearerToken authHeader = None)
  /\ (forall h, authHeader = Some h -> startsWith h "Bearer " = false ->
        extractBearerToken authHeader = None)
  /\ (forall token, authHeader = Some ("Bearer " +:+ token) ->
        extractBearerToken authHeader = Some token)
  /\ (forall token, extractBearerToken authHeader = Some token ->
        authHeader = Some ("Bearer " +:+ token)).
Proof.
  split; [intros ->; reflexivity|]. split; [|split].
  - intros h -> Hh. unfold extractBearerToken. rewrite Hh, orb_true_r. reflexivity.
  - intros token ->. unfold extractBearerToken, startsWith.
    change ("Bearer " +:+ token)
      with (String "B" (String "e" (String "a" (String "r" (String "e"
              (String "r" (String " " token))))))) at 1 2.
    cbn [String.eqb orb].
    assert (Hp : String.prefix "Bearer "
                   (String "B" (String "e" (String "a" (String "r" (String "e"
                      (String "r" (String " " token))))))) = true).
    { unfold String.prefix. repeat (destruct (ascii_dec _ _); [|congruence]).
      destruct token; reflexivity. }
    rewrite Hp. cbn [negb]. rewrite sliceFrom_Bearer. reflexivity.
  - intros token. unfold extractBearerToken, startsWith.
    destruct authHeader as [h|]; [|discriminate].
    destruct (String.eqb h ""); [discriminate|]. cbn [orb].
    destruct (String.prefix "Bearer " h) eqn:Hp; [|discriminate].
    cbn [negb]. intros [= <-]. f_equal.
    apply String.prefix_correct in Hp. cbn [String.length] in Hp.
    destruct h as [|c1 [|c2 [|c3 [|c4 [|c5 [|c6 [|c7 rest]]]]]]]; try discriminate.
    cbn [substring] in Hp. injection Hp as -> -> -> -> -> -> ->.
    change (String "B" (String "e" (String "a" (String "r" (String "e"
              (String "r" (String " " rest)))))))
      with ("Bearer " +:+ rest).
    rewrite sliceFrom_Bearer. reflexivity.
Qed.

End BearerTokenFacts.

Section ForwardAuthFacts.
Import JsString ForwardAuth.
Local Open Scope string_scope.

Lemma isDigit_not_dot c : isDigit c = true -> Ascii.eqb c "." = false.
Proof.
  intros H. destruct (Ascii.eqb_spec c ".") as [->|_]; [|reflexivity].
  discriminate H.
Qed.

Lemma allDigits_no_dot s : allDigits s = true -> contains "." s = false.
Proof.
  induction s as [|c s IH]; simpl; [reflexivity|].
  intros H. apply andb_true_iff in H as [Hc Hs].
  rewrite (isDigit_not_dot _ Hc), (IH Hs). reflexivity.
Qed.

Lemma octetDigits_no_dot s : octetDigits s = true -> contains "." s = false.
Proof.
  unfold octetDigits. intros H.
  apply andb_true_iff in H as [H _]. apply andb_true_iff in H as [H _].
  apply allDigits_no_dot, H.
Qed.

(** The pattern matches a dotted quad and yields its four numbers. *)
Lemma matchIPv4_quad a b c d :
  octetDigits a = true -> octetDigits b = true ->
  octetDigits c = true -> octetDigits d = true ->
  matchIPv4 (a +:+ "." +:+ b +:+ "." +:+ c +:+ "." +:+ d)
  = Some (numberOfDigits a, numberOfDigits b, numberOfDigits c, numberOfDigits d).
Proof.
  intros Ha Hb Hc Hd. unfold matchIPv4.
  change (a +:+ "." +:+ b +:+ "." +:+ c +:+ "." +:+ d)
    with (a +:+ String "." (b +:+ String "." (c +:+ String "." d))).
  rewrite (split_app _ _ _ (octetDigits_no_dot _ Ha)),
          (split_app _ _ _ (octetDigits_no_dot _ Hb)),
          (split_app _ _ _ (octetDigits_no_dot _ Hc)),
          (split_without_sep _ _ (octetDigits_no_dot _ Hd)).
  rewrite Ha, Hb, Hc, Hd. reflexivity.
Qed.

Example isPrivateOrLocalHost_runs :
  forallb isPrivateOrLocalHost
    [ "localhost"; "LOCALHOST"; "127.0.0.1"; "printer.local"; "10.1.2.3";
      "172.16.0.1"; "172.31.255.255"; "192.168.1.1"; "169.254.169.254";
      "127.8.8.8"; "[::1]"; "fe80::1"; "" ] = true
  /\ forallb (fun h => negb (isPrivateOrLocalHost h))
       [ "api.openai.com"; "8.8.8.8"; "172.32.0.1"; "172.15.0.1"; "192.169.1.1";
         "1.2.3.4.5"; "11.0.0.1" ] = true.
Proof. split; vm_compute; reflexivity. Qed.

Variable parseURL : string -> option URL.

(** X5.  [validateForwardUrl] accepts a target exactly when it parses as a URL
    whose protocol is "https:" and whose hostname [isPrivateOrLocalHost]
    does not flag; and [isPrivateOrLocalHost] flags the empty hostname,
    "localhost" in any letter case, every name ending in ".local", and
    every dotted quad a.b.c.d (each part one to three digits) in 10/8,
    172.16/12, 192.168/16, 127/8 or 169.254/16. *)
Theorem validateForwardUrl_blocks_private_hosts targetUrl :
  (validateForwardUrl parseURL targetUrl = Valid <->
   exists url, parseURL targetUrl = Some url
               /\ protocol url = "https:"
               /\ isPrivateOrLocalHost (hostname url) = false)
  /\ isPrivateOrLocalHost "" = true
  /\ (forall h, toLowerCase h = "localhost" -> isPrivateOrLocalHost h = true)
  /\ (forall h, endsWith (toLowerCase h) ".local" = true ->
        isPrivateOrLocalHost h = true)
  /\ (forall a b c d,
        octetDigits a = true -> octetDigits b = true ->
        octetDigits c = true -> octetDigits d = true ->
        privateRange (numberOfDigits a) (numberOfDigits b) = true ->
        isPrivateOrLocalHost (a +:+ "." +:+ b +:+ "." +:+ c +:+ "." +:+ d) = true).
Proof.
  split; [|split; [reflexivity|split; [|split]]].
  - unfold validateForwardUrl. destruct (parseURL targetUrl) as [url|].
    2:{ split; [discriminate|]. intros (url & Hu & _). discriminate. }
    destruct (String.eqb_spec (protocol url) "https:") as [Hp|Hp]; cbn [negb].
    + destruct (isPrivateOrLocalHost (hostname url)) eqn:Hh.
      * split; [discriminate|]. intros (u & [= <-] & _ & Hf). congruence.
      * split; [intros _; exists url; auto|reflexivity].
    + split; [discriminate|]. intros (u & [= <-] & Hq & _). contradiction.
  - intros h Hh. unfold isPrivateOrLocalHost. rewrite Hh.
    destruct (String.eqb h ""); reflexivity.
  - intros h Hh. unfold isPrivateOrLocalHost. rewrite Hh, !orb_true_r.
    destruct (String.eqb h ""); reflexivity.
  - intros a b c d Ha Hb Hc Hd Hrange. unfold isPrivateOrLocalHost.
    rewrite (matchIPv4_quad a b c d Ha Hb Hc Hd), Hrange.
    destruct (String.eqb _ ""); [reflexivity|].
    destruct (_ || _); reflexivity.
Qed.

End ForwardAuthFacts.

Section ValidateBaseUrlFacts.
Import JsString ForwardAuth ValidateBaseUrl.
Local Open Scope string_scope.

Variable parseURL : string -> option URL.

Example validateBaseUrlForFetch_runs :
  validateBaseUrlForFetch sampleParser (Some "  https://api.example.com/v1 ") = Valid
  /\ validateBaseUrlForFetch sampleParser (Some "https://10.0.0.5/v1")
     = Invalid "Private IP ranges are not allowed"
  /\ validateBaseUrlForFetch sampleParser (Some "http://api.example.com/v1")
     = Invalid "Only HTTPS URLs are allowed for validation"
  /\ validateBaseUrlForFetch sampleParser (Some "nonsense") = Invalid "Invalid base URL"
  /\ validateBaseUrlForFetch sampleParser None = Invalid "Invalid base URL".
Proof. repeat split; vm_compute; reflexivity. Qed.

(** X6.  Whenever [validateBaseUrlForFetch] answers ok, the base URL is a
    non-empty string that, trimmed, parses as a URL whose protocol is
    "https:", whose hostname is neither "localhost" (in any letter case)
    nor "127.0.0.1" nor ends in ".local", and is no dotted quad a.b.c.d
    (each part one to three digits) in 10/8, 172.16/12, 192.168/16, 127/8 or
    169.254/16. *)
Theorem validateBaseUrlForFetch_ok_is_public_https baseUrl :
  validateBaseUrlForFetch parseURL baseUrl = Valid ->
  exists s url,
    baseUrl = Some s /\ s <> ""
    /\ parseURL (trim s) = Some url
    /\ protocol url = "https:"
    /\ toLowerCase (hostname url) <> "localhost"
    /\ toLowerCase (hostname url) <> "127.0.0.1"
    /\ endsWith (toLowerCase (hostname url)) ".local" = false
    /\ forall a b c d,
         octetDigits a = true -> octetDigits b = true ->
         octetDigits c = true -> octetDigits d = true ->
         hostname url = a +:+ "." +:+ b +:+ "." +:+ c +:+ "." +:+ d ->
         privateRange (numberOfDigits a) (numberOfDigits b) = false.
Proof.
  unfold validateBaseUrlForFetch. destruct baseUrl as [s|]; [|discriminate].
  destruct (String.eqb_spec s "") as [|Hs]; [discriminate|].
  destruct (parseURL (trim s)) as [url|] eqn:Hurl; [|discriminate].
  destruct (String.eqb_spec (protocol url) "https:") as [Hp|]; [|discriminate].
  cbn [negb].
  destruct (String.eqb_spec (toLowerCase (hostname url)) "localhost") as [|Hl];
    [discriminate|].
  destruct (String.eqb_spec (toLowerCase (hostname url)) "127.0.0.1") as [|Hi];
    [discriminate|].
  destruct (endsWith (toLowerCase (hostname url)) ".local") eqn:He; [discriminate|].
  cbn [orb]. intros H. exists s, url. repeat split; try assumption.
  intros a b c d Ha Hb Hc Hd Hhost.
  rewrite Hhost, (matchIPv4_quad a b c d Ha Hb Hc Hd) in H.
  unfold privateRange.
  destruct (numberOfDigits a =? 10)%N; [discriminate|].
  destruct ((numberOfDigits a =? 172) && (16 <=? numberOfDigits b)
            && (numberOfDigits b <=? 31))%N; [discriminate|].
  destruct ((numberOfDigits a =? 192) && (numberOfDigits b =? 168))%N; [discriminate|].
  destruct (numberOfDigits a =? 127)%N; [discriminate|].
  destruct ((numberOfDigits a =? 169) && (numberOfDigits b =? 254))%N; [discriminate|].
  reflexivity.
Qed.

End ValidateBaseUrlFacts.

Lemma validateBaseUrlForFetch_witness :
  exists s url,
    Some "  https://api.example.com/v1 "%string = Some s /\ s <> ""%string
    /\ sampleParser (JsString.trim s) = Some url
    /\ ForwardAuth.protocol url = "https:"%string
    /\ JsString.toLowerCase (ForwardAuth.hostname url) <> "localhost"%string
    /\ JsString.toLowerCase (ForwardAuth.hostname url) <> "127.0.0.1"%string
    /\ JsString.endsWith (JsString.toLowerCase (ForwardAuth.hostname url)) ".local" = false
    /\ forall a b c d,
         JsString.octetDigits a = true -> JsString.octetDigits b = true ->
         JsString.octetDigits c = true -> JsString.octetDigits d = true ->
         ForwardAuth.hostname url = (a +:+ "." +:+ b +:+ "." +:+ c +:+ "." +:+ d)%string ->
         ForwardAuth.privateRange (JsString.numberOfDigits a) (JsString.numberOfDigits b)
         = false.
Proof.
  apply (validateBaseUrlForFetch_ok_is_public_https sampleParser
           (Some "  https://api.example.com/v1 "%string)).
  vm_compute. reflexivity.
Defined.

Section SettingsHardenedFacts.
Import Js SettingsHardened.
Local Open Scope string_scope.

(** The last case of tests/security/settingsAllowlist.test.js: a
    client-supplied password is dropped by the later allowlist, and kept by
    the earlier one. *)
Example client_password_is_dropped :
  let body := {| own := {[ "password" := Str "plaintext-or-precomputed-hash" ]};
                 protos := [] |} in
  filterAllowedSettings body = ∅
  /\ SettingsAllowlist.filterAllowedSettings body
     = {[ "password" := Str "plaintext-or-precomputed-hash" ]}.
Proof. split; vm_compute; reflexivity. Qed.

Lemma hardened_filter_lookup body k :
  filterAllowedSettings body !! k =
    if bool_decide (k ∈ ALLOWED_SETTINGS_KEYS) && isDefined (get body k)
    then Some (get body k)
    else None.
Proof. unfold filterAllowedSettings. rewrite foldl_copyKey, lookup_empty. reflexivity. Qed.

Lemma password_not_allowed : "password" ∉ ALLOWED_SETTINGS_KEYS.
Proof. apply (bool_decide_unpack _). vm_compute. exact I. Qed.

(** X7.  In the later revision, whatever the request body holds (a
    "password" field included), the updates the PATCH handler passes on
    carry only allowlisted keys and possibly "password"; they carry
    "password" only when body.newPassword is truthy and passed the
    current-password check, and its value is then the bcrypt hash of
    body.newPassword, never a value taken from the body. *)
Theorem hardened_PATCH_never_trusts_body_password
    bcryptCompare bcryptHash salt settings production (body : object) updates :
  PATCH bcryptCompare bcryptHash salt settings production body
    = SettingsRoute.Updated updates ->
  (forall k, is_Some (updates !! k) ->
     k ∈ ALLOWED_SETTINGS_KEYS \/ k = "password")
  /\ (truthy (get body "newPassword") = false -> updates !! "password" = None)
  /\ (forall v, updates !! "password" = Some v ->
        truthy (get body "newPassword") = true
        /\ SettingsRoute.checkCurrentPassword bcryptCompare settings production body
           = None
        /\ exists hashed, bcryptHash (get body "newPassword") salt = Some hashed
                          /\ v = Str hashed).
Proof.
  unfold PATCH.
  assert (Hkeys : forall b k, is_Some (filterAllowedSettings b !! k) ->
                              k ∈ ALLOWED_SETTINGS_KEYS).
  { intros b k [v Hv]. rewrite hardened_filter_lookup in Hv.
    destruct (bool_decide (k ∈ ALLOWED_SETTINGS_KEYS)) eqn:E; [|discriminate].
    apply bool_decide_eq_true_1 in E. exact E. }
  assert (Hnopw : forall b, filterAllowedSettings b !! "password" = None).
  { intros b. rewrite hardened_filter_lookup.
    rewrite (bool_decide_eq_false_2 _ password_not_allowed). reflexivity. }
  destruct (truthy (get body "newPassword")) eqn:Hnew.
  - destruct (SettingsRoute.checkCurrentPassword _ _ _ _) as [rejected|] eqn:Hcheck.
    + intros ->. exfalso. unfold SettingsRoute.checkCurrentPassword in Hcheck.
      repeat match type of Hcheck with
             | context [if ?b then _ else _] => destruct b
             | context [match ?o with Some _ => _ | None => _ end] =>
                 destruct o as [[|]|]
             end; discriminate.
    + destruct (bcryptHash _ _) as [hashed|] eqn:Hhash; [|discriminate].
      intros [= <-]. split; [|split].
      * intros k Hk. destruct (decide (k = "password")) as [->|Hne]; [right; reflexivity|].
        left. rewrite lookup_insert_ne in Hk by congruence. eapply Hkeys, Hk.
      * discriminate.
      * intros v. rewrite lookup_insert_eq. intros [= <-].
        split; [reflexivity|]. split; [reflexivity|]. exists hashed. split; reflexivity.
  - intros [= <-]. split; [|split].
    + intros k Hk. left. eapply Hkeys, Hk.
    + intros _. apply Hnopw.
    + intros v. rewrite Hnopw. discriminate.
Qed.

End SettingsHardenedFacts.

Lemma hardened_PATCH_witness :
  let body := {| Js.own := {[ "password"%string := Js.Str "injected";
                              "requireLogin"%string := Js.Bool false ]};
                 Js.protos := [] |} in
  let updates : gmap string Js.value := {[ "requireLogin"%string := Js.Bool false ]} in
  (forall k, is_Some (updates !! k) ->
     k ∈ SettingsHardened.ALLOWED_SETTINGS_KEYS \/ k = "password"%string)
  /\ (Js.truthy (Js.get body "newPassword") = false ->
      updates !! "password"%string = None)
  /\ (forall v, updates !! "password"%string = Some v ->
        Js.truthy (Js.get body "newPassword") = true
        /\ SettingsRoute.checkCurrentPassword (fun _ _ => Some true) ∅ true body = None
        /\ exists hashed, (fun _ _ => Some "h"%string) (Js.get body "newPassword") "salt"%string
                          = Some hashed
                          /\ v = Js.Str hashed).
Proof.
  apply (hardened_PATCH_never_trusts_body_password
           (fun _ _ => Some true) (fun _ _ => Some "h"%string) "salt"%string ∅ true).
  vm_compute. reflexivity.
Defined.

Section ApiKeyRoundTrip.
Import JsString ApiKey.
Local Open Scope string_scope.

Lemma contains_chars sep s :
  contains sep s = true <-> sep ∈ list_ascii_of_string s.
Proof.
  induction s as [|c s IH]; simpl.
  - split; [discriminate|]. intros H. inversion H.
  - rewrite orb_true_iff, IH, elem_of_cons. split.
    + intros [H|H]; [left; symmetry; apply Ascii.eqb_eq, H|right; exact H].
    + intros [->|H]; [left; apply Ascii.eqb_refl|right; exact H].
Qed.

Lemma chars_app a b :
  list_ascii_of_string (a +:+ b)
  = (list_ascii_of_string a ++ list_ascii_of_string b)%list.
Proof. induction a as [|c a IH]; simpl; [reflexivity|]. rewrite <- IH. reflexivity. Qed.

Lemma chars_substring n m s c :
  c ∈ list_ascii_of_string (substring n m s) -> c ∈ list_ascii_of_string s.
Proof.
  revert n m. induction s as [|d s IH]; intros n m.
  - destruct n, m; simpl; intros H; inversion H.
  - destruct n as [|n]; simpl.
    + destruct m as [|m]; simpl; [intros H; inversion H|].
      rewrite !elem_of_cons. intros [->|H]; [left; reflexivity|right; eapply IH, H].
    + intros H. apply elem_of_cons. right. eapply IH, H.
Qed.

Lemma length_substring_0 m s :
  String.length (substring 0 m s) = Nat.min m (String.length s).
Proof.
  revert m. induction s as [|d s IH]; intros [|m]; simpl; try reflexivity.
  rewrite IH. reflexivity.
Qed.

Lemma hexDigit_hex n :
  hexDigit n ∈ list_ascii_of_string "0123456789abcdef".
Proof.
  unfold hexDigit.
  destruct (N.to_nat n) as [|[|[|[|[|[|[|[|[|[|[|[|[|[|[|[|k]]]]]]]]]]]]]]]];
    cbn; apply list_elem_of_In; simpl; tauto.
Qed.

Lemma hashHex_chars bytes c :
  c ∈ list_ascii_of_string (hashHex bytes) ->
  c ∈ list_ascii_of_string "0123456789abcdef".
Proof.
  induction bytes as [|b bytes IH].
  - intros H. inversion H.
  - change (hashHex (b :: bytes)) with (hex2 b +:+ hashHex bytes).
    rewrite chars_app, elem_of_app. intros [H|H]; [|exact (IH H)].
    unfold hex2 in H. cbn [list_ascii_of_string] in H.
    apply elem_of_cons in H as [->|H]; [apply hexDigit_hex|].
    apply elem_of_cons in H as [->|H]; [apply hexDigit_hex|]. inversion H.
Qed.

Lemma string_length_app a b :
  String.length (a +:+ b) = (String.length a + String.length b)%nat.
Proof. induction a as [|c a IH]; simpl; [reflexivity|]. rewrite <- IH. reflexivity. Qed.

Lemma hashHex_length bytes :
  String.length (hashHex bytes) = (2 * length bytes)%nat.
Proof.
  induction bytes as [|b bytes IH]; [reflexivity|].
  change (hashHex (b :: bytes)) with (hex2 b +:+ hashHex bytes).
  rewrite string_length_app, IH. simpl. lia.
Qed.

Lemma split_app_length sep a rest :
  length (split sep (a +:+ String sep rest))
  = (length (split sep a) + length (split sep rest))%nat.
Proof.
  induction a as [|c a IH]; simpl; [rewrite Ascii.eqb_refl; reflexivity|].
  destruct (Ascii.eqb c sep); simpl; [rewrite IH; reflexivity|].
  pose proof (split_nonempty sep (a +:+ String sep rest)) as H1.
  pose proof (split_nonempty sep a) as H2.
  destruct (split sep (a +:+ String sep rest)), (split sep a); simpl in *; congruence.
Qed.

Lemma split_length_pos sep s : (1 <= length (split sep s))%nat.
Proof.
  pose proof (split_nonempty sep s). destruct (split sep s); simpl; [congruence|lia].
Qed.

Lemma split_length_dashed sep s :
  contains sep s = true -> (2 <= length (split sep s))%nat.
Proof.
  intros H. pose proof (split_length_pos sep s) as Hp.
  destruct (Nat.eq_dec (length (split sep s)) 1%nat) as [E|E]; [|lia].
  apply split_length_contains in E. congruence.
Qed.

Variable hmacSha256 : list Byte.byte -> list Byte.byte -> list Byte.byte.

Lemma generateCrc_chars machineId keyId secret c :
  c ∈ list_ascii_of_string (generateCrc hmacSha256 machineId keyId secret) ->
  c ∈ list_ascii_of_string "0123456789abcdef".
Proof. unfold generateCrc. intros H. eapply hashHex_chars, chars_substring, H. Qed.

Lemma generateCrc_no_dash machineId keyId secret :
  contains "-" (generateCrc hmacSha256 machineId keyId secret) = false.
Proof.
  destruct (contains _ _) eqn:E; [|reflexivity].
  apply contains_chars, generateCrc_chars, list_elem_of_In in E.
  simpl in E. intuition discriminate.
Qed.

(** X8.  A key assembled as sk-{machineId}-{keyId}-{crc}, with the crc that
    [generateCrc] computes for the two ids under a secret, is parsed back
    under the same secret to {machineId, keyId, isNewFormat: true},
    provided neither id contains "-". *)
Theorem parseApiKey_accepts_generated_crc machineId keyId secret :
  contains "-" machineId = false ->
  contains "-" keyId = false ->
  parseApiKey hmacSha256
    ("sk-" +:+ machineId +:+ "-" +:+ keyId +:+ "-"
       +:+ generateCrc hmacSha256 machineId keyId secret) secret
  = Some {| ApiKey.machineId := Some machineId; ApiKey.keyId := keyId;
            isNewFormat := true |}.
Proof.
  intros Hm Hk.
  rewrite (parseApiKey_new_format hmacSha256 _ _ _ _ Hm Hk
             (generateCrc_no_dash machineId keyId secret)).
  rewrite String.eqb_refl. reflexivity.
Qed.

(** X9.  A key sk-{machineId}-{keyId}-{crc} in which one of the three
    parts contains "-" (a machine id written as a dashed UUID, say) is
    never accepted: the split yields more than four parts and
    [parseApiKey] returns null, whatever the secret and the MAC. *)
Theorem parseApiKey_rejects_dashed_ids machineId keyId crc secret :
  contains "-" machineId = true \/ contains "-" keyId = true
  \/ contains "-" crc = true ->
  parseApiKey hmacSha256
    ("sk-" +:+ machineId +:+ "-" +:+ keyId +:+ "-" +:+ crc) secret = None.
Proof.
  intros H. apply parseApiKey_rejects. right.
  change ("sk-" +:+ machineId +:+ "-" +:+ keyId +:+ "-" +:+ crc)
    with ("sk" +:+ String "-" (machineId +:+ String "-" (keyId +:+ String "-" crc))).
  rewrite !split_app_length. cbn [split Ascii.eqb Bool.eqb length].
  pose proof (split_length_pos "-" machineId).
  pose proof (split_length_pos "-" keyId).
  pose proof (split_length_pos "-" crc).
  destruct H as [H|[H|H]]; apply split_length_dashed in H; lia.
Qed.

(** X10.  The crc of [generateCrc] consists of the characters 0-9 and a-f
    only (lower case), and has twice as many characters as the MAC has
    bytes, up to 8; so when the MAC has at least 4 bytes, a four-part key
    whose last part is not exactly 8 characters long is rejected. *)
Theorem generateCrc_is_short_hex machineId keyId secret :
  let mac := hmacSha256 (encode (effectiveSecret secret))
                        (encode (machineId +:+ keyId)) in
  let crc := generateCrc hmacSha256 machineId keyId secret in
  (forall c, c ∈ list_ascii_of_string crc ->
             c ∈ list_ascii_of_string "0123456789abcdef")
  /\ String.length crc = Nat.min 8 (2 * length mac)
  /\ (forall presented,
        (4 <= length mac)%nat ->
        String.length presented <> 8%nat ->
        parseApiKey hmacSha256
          ("sk-" +:+ machineId +:+ "-" +:+ keyId +:+ "-" +:+ presented) secret
        = None).
Proof.
  intros mac crc. split; [apply generateCrc_chars|].
  assert (Hlen : String.length crc = Nat.min 8 (2 * length mac)).
  { unfold crc, generateCrc. rewrite length_substring_0, hashHex_length. reflexivity. }
  split; [exact Hlen|].
  intros presented Hmac Hp.
  destruct (contains "-" machineId) eqn:Hm;
    [apply parseApiKey_rejects_dashed_ids; auto|].
  destruct (contains "-" keyId) eqn:Hk;
    [apply parseApiKey_rejects_dashed_ids; auto|].
  destruct (contains "-" presented) eqn:Hc;
    [apply parseApiKey_rejects_dashed_ids; auto|].
  rewrite (parseApiKey_new_format hmacSha256 _ _ _ _ Hm Hk Hc).
  destruct (String.eqb_spec presented (generateCrc hmacSha256 machineId keyId secret))
    as [->|]; [|reflexivity].
  exfalso. apply Hp. fold crc. rewrite Hlen. lia.
Qed.

(** X11.  The secret is used trimmed and blank means absent: a secret that
    trims to the empty string verifies keys exactly as the legacy default
    secret does, and two secrets that trim to the same string accept the
    same keys. *)
Theorem parseApiKey_secret_is_trimmed apiKey :
  (forall s, trim s = "" ->
     parseApiKey hmacSha256 apiKey (Some s) = parseApiKey hmacSha256 apiKey None)
  /\ (forall s1 s2, trim s1 = trim s2 ->
        parseApiKey hmacSha256 apiKey (Some s1)
        = parseApiKey hmacSha256 apiKey (Some s2)).
Proof.
  assert (H : forall a b, effectiveSecret a = effectiveSecret b ->
                          parseApiKey hmacSha256 apiKey a
                          = parseApiKey hmacSha256 apiKey b).
  { intros a b E. unfold parseApiKey, generateCrc. rewrite E. reflexivity. }
  split.
  - intros s Hs. apply H. rewrite effectiveSecret_trim, Hs. reflexivity.
  - intros s1 s2 E. apply H. rewrite !effectiveSecret_trim, E. reflexivity.
Qed.

End ApiKeyRoundTrip.

Section ForwardSecretFacts.
Import JsString ForwardAuth ForwardSecret.
Local Open Scope string_scope.

Lemma stripBearer_scheme scheme token :
  toLowerCase scheme = "bearer" ->
  stripBearer (scheme +:+ " " +:+ token) = skipSpace token.
Proof.
  intros H.
  destruct scheme as [|c1 [|c2 [|c3 [|c4 [|c5 [|c6 [|c7 rest]]]]]]];
    try discriminate H.
  unfold stripBearer.
  change (substring 0 6 (String c1 (String c2 (String c3 (String c4
            (String c5 (String c6 "")))))  +:+ " " +:+ token))
    with (String c1 (String c2 (String c3 (String c4 (String c5 (String c6 "")))))).
  rewrite H. cbn [String.eqb Ascii.eqb Bool.eqb andb].
  unfold sliceFrom.
  change (substring 6 _ _)
    with (substring 0 (String.length (" " +:+ token)) (" " +:+ token)).
  rewrite substring_all. reflexivity.
Qed.

Example stripBearer_runs :
  stripBearer "Bearer abc" = "abc"
  /\ stripBearer "bearer   abc" = "abc"
  /\ stripBearer "BEARER abc" = "abc"
  /\ stripBearer "Bearerabc" = "Bearerabc"
  /\ stripBearer "Bearer" = "Bearer"
  /\ stripBearer "abc" = "abc"
  /\ stripBearer "Basic Bearer abc" = "Basic Bearer abc".
Proof. repeat split; vm_compute; reflexivity. Qed.

(** X12.  [checkForwardAuth] answers ok exactly when the secret
    (env.FORWARD_SECRET, or the built-in default when that is not set) is
    non-empty and equals the X-Forward-Secret header or, only when that
    header is absent, the Authorization header after [stripBearer]; every
    other request gets the one error message.  [stripBearer] removes a
    leading "Bearer" in any letter case together with the white space
    after it. *)
Theorem checkForwardAuth_characterised request env :
  let secret := default DEFAULT_SECRET (FORWARD_SECRET env) in
  (checkForwardAuth request env = Valid <->
     secret <> ""
     /\ (headers_get request "X-Forward-Secret" = Some secret
         \/ (headers_get request "X-Forward-Secret" = None
             /\ exists authorization,
                  headers_get request "Authorization" = Some authorization
                  /\ stripBearer authorization = secret)))
  /\ (checkForwardAuth request env <> Valid ->
      checkForwardAuth request env = Invalid "Missing or invalid X-Forward-Secret")
  /\ (forall scheme token,
        toLowerCase scheme = "bearer" ->
        stripBearer (scheme +:+ " " +:+ token) = skipSpace token)
  /\ (FORWARD_SECRET env = None -> secret = DEFAULT_SECRET).
Proof.
  intros secret. unfold checkForwardAuth. fold secret.
  split; [|split; [|split; [apply stripBearer_scheme|intros H; unfold secret; rewrite H; reflexivity]]].
  - destruct (headers_get request "X-Forward-Secret") as [h|] eqn:Hx.
    + destruct (String.eqb_spec h "") as [->|Hne]; cbn [orb].
      * split; [discriminate|]. intros [Hs [[= E]|[[=] _]]]. congruence.
      * destruct (String.eqb_spec h secret) as [->|Hd]; cbn [negb].
        -- split; [intros _|reflexivity]. split; [exact Hne|left; reflexivity].
        -- split; [discriminate|]. intros [_ [[= E]|[[=] _]]]. contradiction.
    + destruct (headers_get request "Authorization") as [a|] eqn:Ha; cbn [fmap option_fmap option_map].
      * destruct (String.eqb_spec (stripBearer a) "") as [E|Hne]; cbn [orb].
        -- split; [discriminate|]. intros [Hs [[=]|[_ (a' & [= <-] & E')]]]. congruence.
        -- destruct (String.eqb_spec (stripBearer a) secret) as [E|Hd]; cbn [negb].
           ++ split; [intros _|reflexivity]. split; [congruence|].
              right. split; [reflexivity|]. exists a. split; [reflexivity|exact E].
           ++ split; [discriminate|]. intros [_ [[=]|[_ (a' & [= <-] & E')]]]. contradiction.
      * split; [discriminate|]. intros [_ [[=]|[_ (a' & [=] & _)]]].
  - destruct (match headers_get request "X-Forward-Secret" with
              | Some h => Some h
              | None => stripBearer <$> headers_get request "Authorization"
              end) as [h|]; [|reflexivity].
    destruct (_ || _); [reflexivity|]. intros H. contradiction H. reflexivity.
Qed.

End ForwardSecretFacts.

Section ForwardSecretHardenedFacts.
Import JsString ForwardAuth ForwardSecret ForwardSecretHardened.
Local Open Scope string_scope.

(** X13.  The later revision answers "not configured" to every request
    when the environment or FORWARD_SECRET is missing, or the secret is
    blank, so no built-in default is ever accepted; otherwise it answers
    ok exactly when the trimmed X-Forward-Secret header or, only when that
    header is absent, the trimmed Authorization header without its
    "Bearer" prefix equals the trimmed secret. *)
Theorem hardened_checkForwardAuth_needs_configured_secret request env :
  (configuredSecret env = None \/ configuredSecret env = Some "" ->
   checkForwardAuth request env
   = Invalid "Forward endpoint is not configured (set FORWARD_SECRET)")
  /\ (checkForwardAuth request env = Valid <->
      exists secret,
        configuredSecret env = Some secret /\ secret <> ""
        /\ (trimSpace <$> headers_get request "X-Forward-Secret" = Some secret
            \/ (headers_get request "X-Forward-Secret" = None
                /\ exists authorization,
                     headers_get request "Authorization" = Some authorization
                     /\ trimSpace (stripBearer authorization) = secret)))
  /\ (env = None \/ (exists e, env = Some e /\ FORWARD_SECRET e = None) ->
      configuredSecret env = None).
Proof.
  unfold checkForwardAuth. split; [|split].
  - intros [->| ->]; reflexivity.
  - destruct (configuredSecret env) as [secret|].
    2:{ split; [discriminate|]. intros (s & [=] & _). }
    destruct (String.eqb_spec secret "") as [->|Hne].
    { split; [discriminate|]. intros (s & [= <-] & Hs & _). contradiction. }
    destruct (headers_get request "X-Forward-Secret") as [h|] eqn:Hx.
    + cbn [fmap option_fmap option_map].
      destruct (String.eqb_spec (trimSpace h) "") as [E|He]; cbn [orb].
      * split; [discriminate|].
        intros (s & [= <-] & Hs & [[= E']|[[=] _]]). congruence.
      * destruct (String.eqb_spec (trimSpace h) secret) as [E|Hd]; cbn [negb].
        -- split; [intros _|reflexivity]. exists secret.
           split; [reflexivity|]. split; [exact Hne|]. left. rewrite E. reflexivity.
        -- split; [discriminate|].
           intros (s & [= <-] & Hs & [[= E']|[[=] _]]). contradiction.
    + destruct (headers_get request "Authorization") as [a|] eqn:Ha.
      * destruct (String.eqb_spec (trimSpace (stripBearer a)) "") as [E|He]; cbn [orb].
        -- split; [discriminate|].
           intros (s & [= <-] & Hs & [[=]|[_ (a' & [= <-] & E')]]). congruence.
        -- destruct (String.eqb_spec (trimSpace (stripBearer a)) secret) as [E|Hd];
             cbn [negb].
           ++ split; [intros _|reflexivity]. exists secret.
              split; [reflexivity|]. split; [exact Hne|]. right.
              split; [reflexivity|]. exists a. split; [reflexivity|exact E].
           ++ split; [discriminate|].
              intros (s & [= <-] & Hs & [[=]|[_ (a' & [= <-] & E')]]). contradiction.
      * change (trimSpace "") with "". cbn [String.eqb orb].
        split; [discriminate|].
        intros (s & [= <-] & Hs & [[=]|[_ (a' & [=] & _)]]).
  - intros [->|(e & -> & He)]; [reflexivity|]. unfold configuredSecret.
    rewrite He. reflexivity.
Qed.

(** The default secret of the earlier revision, sent to an endpoint whose
    FORWARD_SECRET is not set. *)
Example default_secret_is_no_longer_accepted :
  let request :=
    {| headers_get := fun name =>
         if String.eqb name "X-Forward-Secret" then Some DEFAULT_SECRET else None |} in
  let env := {| FORWARD_SECRET := None |} in
  ForwardSecret.checkForwardAuth request env = Valid
  /\ checkForwardAuth request (Some env)
     = Invalid "Forward endpoint is not configured (set FORWARD_SECRET)".
Proof. split; vm_compute; reflexivity. Qed.

End ForwardSecretHardenedFacts.

Section MiddlewareFacts.
Import JsString MiddlewareAuth Middleware.
Local Open Scope string_scope.

Lemma isPublicApiPath_api pathname :
  isPublicApiPath pathname = true -> startsWith pathname "/api/" = true.
Proof.
  rewrite isPublicApiPath_unfold. unfold startsWith.
  repeat rewrite orb_true_iff. rewrite !String.eqb_eq.
  intros H.
  repeat match type of H with
         | _ \/ _ => destruct H as [H|H]
         end;
    try (subst pathname; reflexivity);
    first [ exact (prefix_app "/api/" "auth/login/" _ H)
          | exact (prefix_app "/api/" "auth/logout/" _ H)
          | exact (prefix_app "/api/" "settings/require-login/" _ H)
          | exact (prefix_app "/api/" "v1/" _ H)
          | exact (prefix_app "/api/" "cloud/auth/" _ H) ].
Qed.

Lemma api_path_shape pathname :
  startsWith pathname "/api/" = true ->
  startsWith pathname "/v1" = false
  /\ startsWith pathname "/dashboard" = false
  /\ String.eqb pathname "/" = false.
Proof.
  unfold startsWith. intros H.
  destruct pathname as [|c0 [|c1 rest]]; cbn [String.prefix] in H;
    try discriminate.
  - destruct (ascii_dec "/" c0); discriminate.
  - destruct (ascii_dec "/" c0) as [<-|]; [|discriminate].
    destruct (ascii_dec "a" c1) as [<-|]; [|discriminate].
    repeat split; reflexivity.
Qed.

Lemma dashboard_path_shape pathname :
  startsWith pathname "/dashboard" = true \/ pathname = "/" ->
  startsWith pathname "/v1" = false
  /\ startsWith pathname "/api/" = false.
Proof.
  unfold startsWith. intros [H| ->]; [|split; reflexivity].
  destruct pathname as [|c0 [|c1 rest]]; cbn [String.prefix] in H;
    try discriminate.
  - destruct (ascii_dec "/" c0); discriminate.
  - destruct (ascii_dec "/" c0) as [<-|]; [|discriminate].
    destruct (ascii_dec "d" c1) as [<-|]; [|discriminate].
    split; reflexivity.
Qed.

Variable jwtVerify : string -> bool.
Variable fetchRequireLogin : string -> option Js.value.

(** X14.  For a path under /api/ that is no public API path, the
    middleware lets the request through exactly when the auth_token cookie
    is present, non-empty and verified by [jwtVerify]; without such a
    session it answers 401 Unauthorized. *)
Theorem middleware_protects_api request :
  startsWith (pathname request) "/api/" = true ->
  isPublicApiPath (pathname request) = false ->
  (middleware jwtVerify fetchRequireLogin request = Next <->
   exists token, auth_token request = Some token /\ token <> ""
                 /\ jwtVerify token = true)
  /\ (validSession jwtVerify request = false ->
      middleware jwtVerify fetchRequireLogin request = Json 401 "Unauthorized").
Proof.
  intros Hapi Hpub. destruct (api_path_shape _ Hapi) as (Hv1 & Hdash & Hroot).
  unfold middleware. rewrite Hv1, Hpub, Hdash, Hroot, Hapi. cbn [orb].
  assert (Hs : validSession jwtVerify request = true <->
               exists token, auth_token request = Some token /\ token <> ""
                             /\ jwtVerify token = true).
  { unfold validSession. destruct (auth_token request) as [token|].
    - destruct (String.eqb_spec token "") as [->|Hne]; cbn [negb andb].
      + split; [discriminate|]. intros (t & [= <-] & Ht & _). contradiction.
      + split; [intros H; exists token; auto|]. intros (t & [= <-] & _ & Ht). exact Ht.
    - split; [discriminate|]. intros (t & [=] & _). }
  split.
  - rewrite <- Hs. destruct (validSession jwtVerify request); cbn [negb].
    + split; reflexivity.
    + split; discriminate.
  - intros ->. reflexivity.
Qed.

(** X15.  For "/" and the paths starting with /dashboard, a request
    without a valid session gets through (or, for "/", is redirected to
    /dashboard) only when the require-login endpoint answered with
    requireLogin exactly [false]; when the fetch fails or yields anything
    else, the request is redirected to /login. *)
Theorem middleware_dashboard_fails_closed request :
  startsWith (pathname request) "/dashboard" = true \/ pathname request = "/" ->
  validSession jwtVerify request = false ->
  (fetchRequireLogin (origin request) = Some (Js.Bool false) ->
   middleware jwtVerify fetchRequireLogin request
   = if String.eqb (pathname request) "/" then Redirect "/dashboard" else Next)
  /\ (fetchRequireLogin (origin request) <> Some (Js.Bool false) ->
      middleware jwtVerify fetchRequireLogin request = Redirect "/login").
Proof.
  intros Hpath Hsession.
  destruct (dashboard_path_shape _ Hpath) as (Hv1 & Hapi).
  assert (Hpub : isPublicApiPath (pathname request) = false).
  { destruct (isPublicApiPath (pathname request)) eqn:E; [|reflexivity].
    apply isPublicApiPath_api in E. congruence. }
  assert (Hd : startsWith (pathname request) "/dashboard"
               || String.eqb (pathname request) "/" = true).
  { destruct Hpath as [-> | ->]; [reflexivity|apply orb_true_r]. }
  unfold middleware. rewrite Hv1, Hpub, Hd, Hsession. cbn [orb].
  split; [intros ->; reflexivity|]. intros Hne.
  destruct (fetchRequireLogin (origin request)) as [[| |[|]| | | |]|];
    try reflexivity.
  contradiction Hne. reflexivity.
Qed.

End MiddlewareFacts.

Section ProxyFacts.
Import JsString MiddlewareAuth Middleware Proxy.
Local Open Scope string_scope.

Variable jwtVerify : string -> bool.
Variable fetchRequireLogin : string -> option Js.value.
Variable env : ProcessEnv.

(** X16.  In production with JWT_SECRET unset, empty or left at the
    default, [proxy] opens no protected route whatever the cookie holds and
    whatever [jwtVerify] says: a path under /api/ that is neither under /v1
    nor public gets 503, a path starting with /dashboard is redirected to
    /login, and [NextResponse.next()] is reached only for paths outside
    /api/, /dashboard and "/". *)
Theorem proxy_refuses_default_secret_in_production request :
  isProduction env = true ->
  isDefaultJwtSecret env = true ->
  startsWith (pathname request) "/v1" = false ->
  isPublicApiPath (pathname request) = false ->
  (startsWith (pathname request) "/api/" = true ->
   proxy jwtVerify fetchRequireLogin env request
   = Json 503 "Server misconfigured: set JWT_SECRET in production")
  /\ (startsWith (pathname request) "/dashboard" = true ->
      proxy jwtVerify fetchRequireLogin env request = Redirect "/login")
  /\ (proxy jwtVerify fetchRequireLogin env request = Next ->
      startsWith (pathname request) "/api/" = false
      /\ startsWith (pathname request) "/dashboard" = false
      /\ pathname request <> "/").
Proof.
  intros Hprod Hdef Hv1 Hpub. unfold proxy. rewrite Hv1, Hpub, Hprod, Hdef.
  cbn [orb]. rewrite !andb_true_r.
  split; [intros ->; reflexivity|].
  destruct (startsWith (pathname request) "/api/") eqn:Hapi.
  - split; [|discriminate].
    intros Hd. destruct (api_path_shape _ Hapi) as (_ & Hd' & _). congruence.
  - split; [intros ->; reflexivity|].
    destruct (startsWith (pathname request) "/dashboard") eqn:Hdash; [discriminate|].
    cbn [orb]. destruct (String.eqb_spec (pathname request) "/") as [E|Hne].
    + destruct (validSession jwtVerify request); [discriminate|].
      destruct (fetchRequireLogin (origin request)) as [[| |[|]| | | |]|];
        discriminate.
    + intros _. repeat split; try reflexivity. exact Hne.
Qed.

(** X17.  Unless the process runs in production with the default JWT
    secret, [proxy] answers every request as [middleware] does. *)
Theorem proxy_is_middleware_when_configured request :
  isProduction env && isDefaultJwtSecret env = false ->
  proxy jwtVerify fetchRequireLogin env request
  = middleware jwtVerify fetchRequireLogin request.
Proof.
  intros H. unfold proxy, middleware.
  rewrite <- !andb_assoc, H, !andb_false_r. reflexivity.
Qed.

End ProxyFacts.

Section LoginFacts.
Import Js Login.
Local Open Scope string_scope.

Variable env : ProcessEnv.
Variable getSettings : option (gmap string value).
Variable bcryptCompare : value -> value -> option bool.
Variable signJWT : option string.

(** X18.  The login handler sets the session cookie exactly when the
    server is not a production one with the default JWT secret, the body
    and the settings could be read, the token could be signed, and the
    password is right: bcrypt accepts it against the stored hash when
    there is one, and otherwise it is the very string INITIAL_PASSWORD, or
    "123456" when that is unset or empty.  The cookie is marked secure
    exactly when AUTH_COOKIE_SECURE is "true" or x-forwarded-proto is
    "https". *)
Theorem login_succeeds_only_with_the_password forwardedProto requestJson token secure :
  POST env getSettings bcryptCompare signJWT forwardedProto requestJson
    = LoggedIn token secure
  <-> misconfigured env = false
      /\ signJWT = Some token
      /\ secure = (bool_decide (AUTH_COOKIE_SECURE env = Some "true")
                   || bool_decide (forwardedProto = Some "https"))
      /\ exists body settings,
           requestJson = Some body /\ getSettings = Some settings
           /\ let storedHash := default Undefined (settings !! "password") in
              if truthy storedHash
              then bcryptCompare (get body "password") storedHash = Some true
              else get body "password"
                   = Str (orElse (INITIAL_PASSWORD env) "123456").
Proof.
  assert (Hflag : forall v : option string, forall s,
            match v with Some x => String.eqb x s | None => false end
            = bool_decide (v = Some s)).
  { intros [x|] s; [|reflexivity].
    destruct (String.eqb_spec x s) as [->|Hne].
    - rewrite bool_decide_eq_true_2; reflexivity.
    - rewrite bool_decide_eq_false_2; [reflexivity|congruence]. }
  assert (Hstr : forall v s, isString v s = true <-> v = Str s).
  { intros v s. destruct v; simpl; try (split; [discriminate|intros [=]]).
    rewrite String.eqb_eq. split; [intros ->; reflexivity|intros [= ->]; reflexivity]. }
  unfold POST. destruct (misconfigured env).
  { split; [discriminate|]. intros [[=] _]. }
  destruct requestJson as [body|].
  2:{ split; [discriminate|]. intros (_ & _ & _ & b & s & [=] & _). }
  destruct getSettings as [settings|].
  2:{ split; [discriminate|]. intros (_ & _ & _ & b & s & _ & [=] & _). }
  rewrite !Hflag. unfold isValid.
  destruct (truthy (default Undefined (settings !! "password"))) eqn:Hstored.
  - destruct (bcryptCompare _ _) as [[|]|] eqn:Hcmp.
    + destruct signJWT as [t|].
      * split.
        -- intros [= <- <-]. split; [reflexivity|]. split; [reflexivity|].
           split; [reflexivity|]. exists body, settings.
           split; [reflexivity|]. split; [reflexivity|]. cbn zeta.
           rewrite Hstored. exact Hcmp.
        -- intros (_ & [= <-] & -> & _). reflexivity.
      * split; [discriminate|]. intros (_ & [=] & _).
    + split; [discriminate|].
      intros (_ & _ & _ & b & s & [= <-] & [= <-] & H). cbn zeta in H.
      rewrite Hstored in H. congruence.
    + split; [discriminate|].
      intros (_ & _ & _ & b & s & [= <-] & [= <-] & H). cbn zeta in H.
      rewrite Hstored in H. congruence.
  - destruct (isString _ _) eqn:Hpw.
    + destruct signJWT as [t|].
      * split.
        -- intros [= <- <-]. split; [reflexivity|]. split; [reflexivity|].
           split; [reflexivity|]. exists body, settings.
           split; [reflexivity|]. split; [reflexivity|]. cbn zeta.
           rewrite Hstored. apply Hstr, Hpw.
        -- intros (_ & [= <-] & -> & _). reflexivity.
      * split; [discriminate|]. intros (_ & [=] & _).
    + split; [discriminate|].
      intros (_ & _ & _ & b & s & [= <-] & [= <-] & H). cbn zeta in H.
      rewrite Hstored in H. apply Hstr in H. congruence.
Qed.

End LoginFacts.

(** A first login on a fresh installation, a wrong password, and a
    production server left with the default JWT secret. *)
Example login_runs :
  let env := {| Login.NODE_ENV := None; Login.JWT_SECRET := None;
                Login.INITIAL_PASSWORD := None;
                Login.AUTH_COOKIE_SECURE := None |} in
  let production := {| Login.NODE_ENV := Some "production"%string;
                       Login.JWT_SECRET := None;
                       Login.INITIAL_PASSWORD := None;
                       Login.AUTH_COOKIE_SECURE := None |} in
  let body password :=
    Some {| Js.own := {[ "password"%string := Js.Str password ]};
            Js.protos := [] |} in
  let bcrypt := fun _ _ : Js.value => Some false in
  Login.POST env (Some ∅) bcrypt (Some "jwt"%string) (Some "https"%string)
    (body "123456"%string)
  = Login.LoggedIn "jwt" true
  /\ Login.POST env (Some ∅) bcrypt (Some "jwt"%string) None (body "letmein"%string)
     = Login.Rejected 401 "Invalid password"
  /\ Login.POST production (Some ∅) bcrypt (Some "jwt"%string) None
       (body "123456"%string)
     = Login.Rejected 503 "Server misconfigured: set JWT_SECRET in production".
Proof. repeat split; vm_compute; reflexivity. Qed.

Section OpenCodeModelsFacts.
Import OpenCodeModels.
Local Open Scope string_scope.

(** A loop of guarded assignments, looked up at one key. *)
Lemma foldl_assign_origin {A} (keep : A -> bool) (key val : A -> string)
    (step : gmap string string -> A -> gmap string string)
    (l : list A) (acc : gmap string string) (k : string) :
  (forall models x,
     step models x = if keep x then assign models (key x) (val x) else models) ->
  (foldl step acc l !! k = acc !! k
   /\ forall x, x ∈ l -> keep x = true -> key x = k -> k = "__proto__")
  \/ (exists x, x ∈ l /\ keep x = true /\ key x = k /\ k <> "__proto__"
                /\ foldl step acc l !! k = Some (val x)).
Proof.
  intros Hstep. revert acc. induction l as [|x l IH]; intros acc; cbn [foldl].
  - left. split; [reflexivity|]. intros x Hx. inversion Hx.
  - destruct (IH (step acc x)) as [[Heq Hnone]|(y & Hy & Hk & Hkey & Hp & Hv)].
    2:{ right. exists y. split; [right; exact Hy|]. auto. }
    assert (Hrest : forall z, z ∈ x :: l -> keep z = true -> key z = k ->
                              (z = x -> k = "__proto__") -> k = "__proto__").
    { intros z Hz Hkz Hkeyz Hx.
      apply elem_of_cons in Hz as [->|Hz]; [auto|eauto]. }
    rewrite (Hstep acc x) in Heq |- *. unfold assign in Heq |- *.
    destruct (keep x) eqn:Hkeep.
    + destruct (String.eqb_spec (key x) "__proto__") as [Hproto|Hproto].
      * left. split; [exact Heq|]. intros z Hz Hkz Hkeyz.
        apply (Hrest z Hz Hkz Hkeyz). intros ->. congruence.
      * destruct (decide (key x = k)) as [Hkx|Hkx].
        -- right. exists x. split; [left|]. split; [exact Hkeep|].
           split; [exact Hkx|]. split; [congruence|].
           rewrite Heq, Hkx, lookup_insert_eq. reflexivity.
        -- left. split; [rewrite Heq, lookup_insert_ne by exact Hkx; reflexivity|].
           intros z Hz Hkz Hkeyz.
           apply (Hrest z Hz Hkz Hkeyz). intros ->. congruence.
    + left. split; [exact Heq|]. intros z Hz Hkz Hkeyz.
      apply (Hrest z Hz Hkz Hkeyz). intros ->. congruence.
Qed.

Lemma model_id_is_no_proto alias modelId :
  alias +:+ "/" +:+ modelId <> "__proto__".
Proof.
  intros H.
  assert (Hc : JsString.contains "/" (alias +:+ "/" +:+ modelId) = true).
  { clear H. induction alias as [|c alias IH]; [reflexivity|].
    change (String c alias +:+ "/" +:+ modelId)
      with (String c (alias +:+ "/" +:+ modelId)).
    cbn [JsString.contains]. rewrite IH. apply orb_true_r. }
  rewrite H in Hc. discriminate Hc.
Qed.

Variable PROVIDER_MODELS : list (string * list Model).
Variable PROVIDER_ID_TO_ALIAS : gmap string string.

Lemma addProvider_origin activeConnections activeAliases entries acc k :
  (foldl (addProvider activeConnections activeAliases) acc entries !! k = acc !! k
   /\ forall alias providerModels model,
        (alias, providerModels) ∈ entries -> model ∈ providerModels ->
        ((0 <? length activeConnections)%nat
         && negb (bool_decide (Named alias ∈ activeAliases))) = false ->
        k <> alias +:+ "/" +:+ id model)
  \/ (exists alias providerModels model,
        (alias, providerModels) ∈ entries /\ model ∈ providerModels
        /\ ((0 <? length activeConnections)%nat
            && negb (bool_decide (Named alias ∈ activeAliases))) = false
        /\ k = alias +:+ "/" +:+ id model
        /\ foldl (addProvider activeConnections activeAliases) acc entries !! k
           = Some (if String.eqb (name model) "" then id model else name model)).
Proof.
  revert acc. induction entries as [|[alias providerModels] entries IH]; intros acc.
  { left. split; [reflexivity|]. intros a ms m H. inversion H. }
  cbn [foldl].
  destruct (IH (addProvider activeConnections activeAliases acc
                  (alias, providerModels)))
    as [[Heq Hnone]|(a & ms & m & Hin & Hm & Hg & Hk & Hv)].
  2:{ right. exists a, ms, m. split; [right; exact Hin|]. auto. }
  assert (Hstep : addProvider activeConnections activeAliases acc
                    (alias, providerModels)
                  = if (0 <? length activeConnections)%nat
                       && negb (bool_decide (Named alias ∈ activeAliases))
                    then acc else foldl (addModel alias) acc providerModels)
    by reflexivity.
  rewrite Hstep in Heq |- *. clear Hstep.
  destruct ((0 <? length activeConnections)%nat
            && negb (bool_decide (Named alias ∈ activeAliases))) eqn:Hguard.
  - left. split; [exact Heq|]. intros a ms m Hin Hm Hg.
    apply elem_of_cons in Hin as [[= -> ->]|Hin]; [congruence|eauto].
  - destruct (foldl_assign_origin (fun _ : Model => true)
                (fun model => alias +:+ "/" +:+ id model)
                (fun model => if String.eqb (name model) "" then id model
                              else name model)
                (addModel alias) providerModels acc k (fun _ _ => eq_refl))
      as [[Heq' Hnone']|(m & Hm & _ & Hk & _ & Hv)].
    + left. split; [rewrite Heq; exact Heq'|]. intros a ms m Hin Hm Hg.
      apply elem_of_cons in Hin as [[= -> ->]|Hin]; [|eauto].
      intros E. symmetry in E. pose proof (Hnone' m Hm eq_refl E) as Hp.
      rewrite <- E in Hp. exact (model_id_is_no_proto _ _ Hp).
    + right. exists alias, providerModels, m. split; [left|].
      split; [exact Hm|]. split; [exact Hguard|]. split; [auto|].
      rewrite Heq. exact Hv.
Qed.


Lemma offered_guard (connections : list Connection) alias :
  let active := List.filter notInactive connections in
  ((0 <? length active)%nat
   && negb (bool_decide
              (Named alias
               ∈ map (fun conn => aliasOf PROVIDER_ID_TO_ALIAS (provider conn))
                     active))) = false
  <-> active = []
      \/ exists conn, conn ∈ active
           /\ aliasOf PROVIDER_ID_TO_ALIAS (provider conn) = Named alias.
Proof.
  intros active. rewrite andb_false_iff, negb_false_iff, bool_decide_eq_true.
  rewrite Nat.ltb_ge, list_elem_of_In, in_map_iff.
  split.
  - intros [H|(conn & E & Hin)].
    + left. destruct active; [reflexivity|simpl in H; lia].
    + right. exists conn. split; [apply list_elem_of_In, Hin|exact E].
  - intros [->|(conn & Hin & E)]; [left; simpl; lia|].
    right. exists conn. split; [exact E|apply list_elem_of_In, Hin].
Qed.

(** X19.  What [buildOpenCodeModelsMap] holds under an id.  A provider is
    offered when no connection is active or an active connection has its
    alias.  Every entry is the model of an offered provider, under
    alias/id with the model's name (its id when it has none), or a combo
    with a non-empty name other than "__proto__", under its name with
    " (combo)" appended; every model of an offered provider has an entry;
    and a combo has its entry unless a provider model has the same id,
    which then takes its place. *)
Theorem buildOpenCodeModelsMap_entries combos connections k :
  let active := List.filter notInactive (default [] connections) in
  let offered alias :=
    active = []
    \/ exists conn, conn ∈ active
         /\ aliasOf PROVIDER_ID_TO_ALIAS (provider conn) = Named alias in
  let providerEntry v :=
    exists alias providerModels model,
      (alias, providerModels) ∈ PROVIDER_MODELS /\ model ∈ providerModels
      /\ offered alias
      /\ k = alias +:+ "/" +:+ id model
      /\ v = (if String.eqb (name model) "" then id model else name model) in
  let comboEntry :=
    k <> "" /\ k <> "__proto__"
    /\ exists combo, combo ∈ default [] combos /\ combo_name combo = k in
  let result :=
    buildOpenCodeModelsMap PROVIDER_MODELS PROVIDER_ID_TO_ALIAS combos connections in
  (forall v, result !! k = Some v ->
     providerEntry v \/ (comboEntry /\ v = k +:+ " (combo)"))
  /\ ((exists v, providerEntry v) -> exists v, providerEntry v /\ result !! k = Some v)
  /\ (comboEntry -> (forall v, ~ providerEntry v) ->
      result !! k = Some (k +:+ " (combo)")).
Proof.
  intros active offered providerEntry comboEntry result.
  pose proof (fun alias => offered_guard (default [] connections) alias) as Hg.
  cbn zeta in Hg. fold active in Hg.
  destruct (addProvider_origin active
              (map (fun conn => aliasOf PROVIDER_ID_TO_ALIAS (provider conn)) active)
              PROVIDER_MODELS (foldl addCombo ∅ (default [] combos)) k)
    as [[Heq Hnone]|(alias & ms & m & Hin & Hm & Hguard & Hk & Hv)].
  - change (result !! k = foldl addCombo ∅ (default [] combos) !! k) in Heq.
    assert (Hnop : forall v, ~ providerEntry v).
    { intros v (alias & ms & m & Hin & Hm & Hoff & Hk & _).
      apply (Hnone alias ms m Hin Hm); [apply Hg, Hoff|exact Hk]. }
    destruct (foldl_assign_origin (fun combo => negb (String.eqb (combo_name combo) ""))
                combo_name (fun combo => combo_name combo +:+ " (combo)")
                addCombo (default [] combos) ∅ k (fun _ _ => eq_refl))
      as [[Heq' Hnone']|(combo & Hc & Hkeep & Hkey & Hproto & Hv)].
    + rewrite Heq', lookup_empty in Heq. split; [|split].
      * intros v Hv. congruence.
      * intros [v Hp]. destruct (Hnop v Hp).
      * intros (Hne & Hproto & combo & Hc & Hname) _. exfalso. apply Hproto.
        apply (Hnone' combo Hc); [|exact Hname].
        rewrite Hname. destruct (String.eqb_spec k ""); [contradiction|reflexivity].
    + rewrite Hv in Heq. rewrite Hkey in Heq. split; [|split].
      * intros v Hv'. right. split; [|congruence].
        split; [|split; [exact Hproto|exists combo; auto]].
        intros ->. rewrite Hkey in Hkeep. discriminate Hkeep.
      * intros [v Hp]. destruct (Hnop v Hp).
      * intros _ _. exact Heq.
  - change (result !! k
            = Some (if String.eqb (name m) "" then id m else name m)) in Hv.
    assert (Hp : providerEntry (if String.eqb (name m) "" then id m else name m)).
    { exists alias, ms, m. split; [exact Hin|]. split; [exact Hm|].
      split; [apply Hg, Hguard|]. split; [exact Hk|reflexivity]. }
    split; [|split].
    + intros v Hv'. left. rewrite Hv in Hv'. injection Hv' as <-. exact Hp.
    + intros _. eexists. split; [exact Hp|exact Hv].
    + intros _ Hnop. destruct (Hnop _ Hp).
Qed.

End OpenCodeModelsFacts.

(** Two providers of which one is connected, and three combos of which
    two have no usable name. *)
Example buildOpenCodeModelsMap_runs :
  let providerModels :=
    [ ("cc"%string, [ {| OpenCodeModels.id := "claude-sonnet-4-5";
                         OpenCodeModels.name := "Claude 4.5 Sonnet" |} ]);
      ("gm"%string, [ {| OpenCodeModels.id := "gemini-flash";
                         OpenCodeModels.name := "" |} ]) ] in
  let aliases : gmap string string := {[ "claude-code"%string := "cc"%string ]} in
  let combos := [ {| OpenCodeModels.combo_name := "my-combo" |};
                  {| OpenCodeModels.combo_name := "" |};
                  {| OpenCodeModels.combo_name := "__proto__" |} ] in
  let connected := [ {| OpenCodeModels.provider := "claude-code";
                        OpenCodeModels.isActive := Js.Undefined |};
                     {| OpenCodeModels.provider := "gm";
                        OpenCodeModels.isActive := Js.Bool false |} ] in
  OpenCodeModels.buildOpenCodeModelsMap providerModels aliases (Some combos)
    (Some connected)
  = {[ "my-combo"%string := "my-combo (combo)"%string;
       "cc/claude-sonnet-4-5"%string := "Claude 4.5 Sonnet"%string ]}
  /\ OpenCodeModels.buildOpenCodeModelsMap providerModels aliases None None
     = {[ "cc/claude-sonnet-4-5"%string := "Claude 4.5 Sonnet"%string;
          "gm/gemini-flash"%string := "gemini-flash"%string ]}.
Proof. split; vm_compute; reflexivity. Qed.

Section PercentileServiceFacts.
Import JsString PercentileService.
Local Open Scope string_scope.

Lemma split_key a b c d e :
  contains "|" a = false -> contains "|" b = false -> contains "|" c = false ->
  contains "|" d = false -> contains "|" e = false ->
  split "|" (join "|" [a; b; c; d; e]) = [a; b; c; d; e].
Proof.
  intros Ha Hb Hc Hd He.
  change (join "|" [a; b; c; d; e])
    with (a +:+ String "|" (b +:+ String "|" (c +:+ String "|"
            (d +:+ String "|" e)))).
  rewrite (split_app _ _ _ Ha), (split_app _ _ _ Hb), (split_app _ _ _ Hc),
    (split_app _ _ _ Hd), (split_without_sep _ _ He).
  reflexivity.
Qed.

(** X20.  When no option of two filters contains "|", equal cache keys
    mean equal options, an option that is missing, empty or "all" counting
    as "all": such filters never share a cache entry by accident. *)
Theorem generateCacheKey_injective f g :
  Forall (fun v => contains "|" (orAll v) = false)
    [provider f; model f; startDate f; endDate f; status f] ->
  Forall (fun v => contains "|" (orAll v) = false)
    [provider g; model g; startDate g; endDate g; status g] ->
  generateCacheKey f = generateCacheKey g ->
  orAll (provider f) = orAll (provider g)
  /\ orAll (model f) = orAll (model g)
  /\ orAll (startDate f) = orAll (startDate g)
  /\ orAll (endDate f) = orAll (endDate g)
  /\ orAll (status f) = orAll (status g).
Proof.
  intros Hf Hg Hkey.
  repeat match goal with
         | H : Forall _ (_ :: _) |- _ => apply Forall_cons in H as [? H]
         end.
  apply (f_equal (split "|")) in Hkey. unfold generateCacheKey in Hkey.
  rewrite !split_key in Hkey by assumption.
  injection Hkey as -> -> -> -> ->. repeat split; reflexivity.
Qed.

(** Two filters that differ in provider and model and share a key. *)
Example generateCacheKey_collides :
  generateCacheKey {| provider := Some "a|b"; model := Some "c";
                      startDate := None; endDate := None; status := None |}
  = generateCacheKey {| provider := Some "a"; model := Some "b|c";
                        startDate := None; endDate := None; status := None |}
  /\ generateCacheKey {| provider := Some "all"; model := None;
                         startDate := None; endDate := None; status := None |}
     = generateCacheKey {| provider := None; model := Some "";
                           startDate := None; endDate := None; status := None |}.
Proof. split; reflexivity. Qed.

Lemma occurrences_app c a b :
  occurrences c (a +:+ b) = (occurrences c a + occurrences c b)%nat.
Proof.
  induction a as [|d a IH]; [reflexivity|].
  change (String d a +:+ b) with (String d (a +:+ b)).
  cbn [occurrences]. rewrite IH. lia.
Qed.

Lemma andWhere_placeholders field condition param statement :
  occurrences "?" condition = 1%nat ->
  occurrences "?" statement.1 = length statement.2 ->
  occurrences "?" (andWhere field condition param statement).1
  = length (andWhere field condition param statement).2.
Proof.
  intros Hc Hs. unfold andWhere.
  destruct field as [v|]; [|exact Hs].
  destruct (String.eqb v ""); [exact Hs|].
  cbn [fst snd]. rewrite occurrences_app, length_app, Hc, Hs. reflexivity.
Qed.

Lemma andWhere_text field field' condition param param' statement statement' :
  given field = given field' ->
  statement.1 = statement'.1 ->
  (andWhere field condition param statement).1
  = (andWhere field' condition param' statement').1.
Proof.
  unfold given, andWhere. intros Hg Hs.
  destruct field as [v|], field' as [v'|];
    try destruct (String.eqb v ""); try destruct (String.eqb v' "");
    try discriminate Hg; cbn [fst]; rewrite ?Hs; reflexivity.
Qed.

Variable getTime : string -> option Z.

(** X21.  The statement of [streamThroughputValues] has exactly one "?"
    for each bound parameter, and its text depends only on which options
    are given, never on their values: the values reach the database as
    parameters only. *)
Theorem selectStatement_is_parametrised filter :
  occurrences "?" (selectStatement getTime filter).1
  = length (selectStatement getTime filter).2
  /\ (forall other getTime',
        given (provider filter) = given (provider other) ->
        given (model filter) = given (model other) ->
        given (startDate filter) = given (startDate other) ->
        given (endDate filter) = given (endDate other) ->
        given (status filter) = given (status other) ->
        (selectStatement getTime filter).1 = (selectStatement getTime' other).1).
Proof.
  split.
  - unfold selectStatement. cbn [fst snd]. rewrite occurrences_app.
    change (occurrences "?" " ORDER BY throughput_tokens_per_sec ASC") with 0%nat.
    rewrite Nat.add_0_r.
    repeat (apply andWhere_placeholders; [reflexivity|]).
    reflexivity.
  - intros other getTime' Hp Hm Hs He Hst. unfold selectStatement. cbn [fst].
    f_equal.
    repeat (apply andWhere_text; [assumption|]).
    reflexivity.
Qed.

End PercentileServiceFacts.

Section PaginationFacts.
Import JsString PercentileService.
Local Open Scope string_scope.

Variable getTime : string -> option Z.
Variable all : string -> list Param -> option (list float).

Lemma fetchBatches_complete query params (rows : list float) :
  (forall offset,
     all (query +:+ " LIMIT ? OFFSET ?")
         (params ++ [Num (Some (Z.of_nat batchSize));
                     Num (Some (Z.of_nat offset))])%list
     = Some (take batchSize (drop offset rows))) ->
  forall fuel offset,
    (length (drop offset rows) < fuel * batchSize)%nat ->
    fetchBatches all fuel query params offset = Returned (drop offset rows).
Proof.
  intros Hdb. induction fuel as [|fuel IH]; intros offset Hfuel; [simpl in Hfuel; lia|].
  cbn [fetchBatches]. rewrite Hdb.
  pose proof (length_take (drop offset rows) batchSize) as Hlen.
  set (remaining := drop offset rows) in *.
  destruct (Nat.eqb_spec (length (take batchSize remaining)) 0) as [E0|E0].
  { rewrite Hlen in E0.
    assert (length remaining = 0%nat) by (unfold batchSize in E0; lia).
    destruct remaining; [reflexivity|discriminate]. }
  destruct (Nat.eqb_spec (length (take batchSize remaining)) batchSize) as [E|E].
  - rewrite IH.
    + unfold remaining. rewrite <- (drop_drop rows batchSize offset).
      cbn [yieldFirst]. rewrite take_drop. reflexivity.
    + rewrite <- (drop_drop rows batchSize offset), length_drop. fold remaining.
      rewrite Hlen in E. cbn [Nat.mul] in Hfuel. lia.
  - rewrite take_ge; [reflexivity|]. rewrite Hlen in E. lia.
Qed.

(** X22.  Over a database that answers every LIMIT/OFFSET batch of the
    statement from one list of rows, [streamThroughputValues] yields
    exactly these rows, each once and in order, and then returns; it needs
    one batch more than the rows fill completely. *)
Theorem streamThroughputValues_yields_every_row filter (rows : list float) fuel :
  (forall offset,
     all ((selectStatement getTime filter).1 +:+ " LIMIT ? OFFSET ?")
         ((selectStatement getTime filter).2
            ++ [Num (Some (Z.of_nat batchSize)); Num (Some (Z.of_nat offset))])%list
     = Some (take batchSize (drop offset rows))) ->
  (length rows < fuel * batchSize)%nat ->
  streamThroughputValues getTime all fuel filter = Returned rows.
Proof.
  intros Hdb Hfuel. unfold streamThroughputValues.
  rewrite (fetchBatches_complete _ _ rows Hdb fuel 0); [reflexivity|exact Hfuel].
Qed.

End PaginationFacts.

Section ThroughputRouteFacts.
Import JsString PercentileService ThroughputRoute.
Local Open Scope string_scope.

Variable getTime : string -> option Z.
Variable toISOString : Z -> string.

(** X23.  When [buildFilter] reports no error for a query with both
    dates, both were parsed and the filter holds them in ISO form; the
    range check runs on the times these two ISO strings parse back to:
    where both are non-empty and parse, the second time is at least the
    first and at most 30 days after it.  Nothing is assumed of [getTime]
    and [toISOString]; on dates that [toISOString] writes and [getTime]
    reads back unchanged, as for the two dates of a request, these are
    the start and the end themselves. *)
Theorem buildFilter_bounds_the_range query filter a b :
  buildFilter getTime toISOString query = (filter, None) ->
  q_startDate query = Some a -> a <> "" ->
  q_endDate query = Some b -> b <> "" ->
  exists start end_,
    getTime a = Some start /\ getTime b = Some end_
    /\ startDate filter = Some (toISOString start)
    /\ endDate filter = Some (toISOString end_)
    /\ forall start' end',
         toISOString start <> "" -> toISOString end_ <> "" ->
         getTime (toISOString start) = Some start' ->
         getTime (toISOString end_) = Some end' ->
         0 <= end' - start' <= MAX_DATE_RANGE_MS.
Proof.
  intros Hbuild Ha Hane Hb Hbne. unfold buildFilter, readDate in Hbuild.
  rewrite Ha, Hb in Hbuild.
  destruct (String.eqb_spec a "") as [|_]; [contradiction|].
  destruct (String.eqb_spec b "") as [|_]; [contradiction|].
  destruct (getTime a) as [start|]; [|discriminate Hbuild].
  destruct (getTime b) as [end_|]; [|discriminate Hbuild].
  exists start, end_.
  assert (Hfilter : startDate filter = Some (toISOString start)
                    /\ endDate filter = Some (toISOString end_)).
  { destruct (negb (toISOString start =? "") && negb (toISOString end_ =? ""));
      [destruct (getTime (toISOString start)) as [start'|],
                (getTime (toISOString end_)) as [end'|];
       [destruct (end' - start' <? 0)%Z; [discriminate Hbuild|];
        destruct (MAX_DATE_RANGE_MS <? end' - start')%Z; [discriminate Hbuild|]
       |..]|];
      injection Hbuild as <-; split; reflexivity. }
  destruct Hfilter as [Hs He].
  split; [reflexivity|]. split; [reflexivity|].
  split; [exact Hs|]. split; [exact He|].
  intros start' end' Hsne Hene Hstart' Hend'.
  destruct (String.eqb_spec (toISOString start) "") as [E|_]; [destruct (Hsne E)|].
  destruct (String.eqb_spec (toISOString end_) "") as [E|_]; [destruct (Hene E)|].
  cbn [negb andb] in Hbuild. rewrite Hstart', Hend' in Hbuild.
  destruct (Z.ltb_spec (end' - start') 0); [discriminate Hbuild|].
  destruct (Z.ltb_spec MAX_DATE_RANGE_MS (end' - start')); [discriminate Hbuild|].
  lia.
Qed.

(** X24.  [parsePercentiles] returns p50, p95, p99 for a missing or empty
    parameter; otherwise every name it returns is one of p0, p25, p50,
    p75, p90, p95, p99, p100, and it returns at most one name for each
    comma-separated piece (possibly none at all). *)
Theorem parsePercentiles_names value :
  (given value = false -> parsePercentiles value = ["p50"; "p95"; "p99"])
  /\ (given value = true ->
      (forall p, p ∈ parsePercentiles value ->
         p ∈ ["p0"; "p25"; "p50"; "p75"; "p90"; "p95"; "p99"; "p100"])
      /\ (length (parsePercentiles value)
          <= length (split "," (default "" value)))%nat).
Proof.
  unfold parsePercentiles. split; intros ->; [reflexivity|]. split.
  - intros p Hp. apply list_elem_of_In, filter_In in Hp as [_ Hp].
    apply existsb_exists in Hp as (name & Hin & E).
    apply String.eqb_eq in E. subst name. apply list_elem_of_In, Hin.
  - etransitivity; [apply filter_length_le|]. rewrite length_map. reflexivity.
Qed.

Example parsePercentiles_runs :
  parsePercentiles (Some "p50, P95 ,p42,p99") = ["p50"; "p95"; "p99"]
  /\ parsePercentiles (Some "median") = []
  /\ parsePercentiles (Some "") = ["p50"; "p95"; "p99"]
  /\ parsePercentiles None = ["p50"; "p95"; "p99"].
Proof. repeat split; vm_compute; reflexivity. Qed.

End ThroughputRouteFacts.

Section Ipv6Facts.
Import JsString ForwardAuth ValidateBaseUrl.
Local Open Scope string_scope.

Lemma toLowerCase_app a b :
  toLowerCase (a +:+ b) = toLowerCase a +:+ toLowerCase b.
Proof.
  induction a as [|c a IH]; [reflexivity|].
  change (String c a +:+ b) with (String c (a +:+ b)).
  cbn [toLowerCase]. rewrite IH. reflexivity.
Qed.

Lemma toLowerCase_length s : String.length (toLowerCase s) = String.length s.
Proof. induction s as [|c s IH]; simpl; [reflexivity|]. rewrite IH. reflexivity. Qed.

Lemma get_app_last a c : String.get (String.length a) (a +:+ String c "") = Some c.
Proof. induction a as [|d a IH]; [reflexivity|]. exact IH. Qed.

Lemma length_app_last a c :
  String.length (a +:+ String c "") = S (String.length a).
Proof. induction a as [|d a IH]; [reflexivity|]. simpl. rewrite IH. reflexivity. Qed.

(** A string that ends in "]" does not end in ".local". *)
Lemma endsWith_bracket a : endsWith (a +:+ "]") ".local" = false.
Proof.
  unfold endsWith.
  destruct (Nat.leb_spec (String.length ".local") (String.length (a +:+ "]")))
    as [Hlen|]; [|reflexivity].
  cbn [andb]. apply String.eqb_neq. intros E.
  pose proof (substring_correct1 (a +:+ "]")
                (String.length (a +:+ "]") - String.length ".local")
                (String.length ".local") 5) as Hget.
  rewrite E in Hget. rewrite length_app_last in Hlen, Hget.
  cbn [String.length] in Hlen, Hget.
  replace (5 + (S (String.length a) - 6))%nat with (String.length a) in Hget by lia.
  rewrite get_app_last in Hget. specialize (Hget ltac:(lia)). discriminate Hget.
Qed.

Lemma matchIPv4_bracket rest : matchIPv4 (String "[" rest) = None.
Proof.
  unfold matchIPv4. cbn [split Ascii.eqb Bool.eqb].
  pose proof (split_nonempty "." rest) as Hne.
  destruct (split "." rest) as [|piece pieces]; [congruence|].
  destruct pieces as [|b [|c [|d [|e pieces]]]]; reflexivity.
Qed.

Lemma bracketed_flag inner :
  isPrivateOrLocalHost ("[" +:+ inner +:+ "]")
  = String.eqb (toLowerCase inner) "::1".
Proof.
  unfold isPrivateOrLocalHost.
  change ("[" +:+ inner +:+ "]") with (String "[" (inner +:+ "]")).
  rewrite matchIPv4_bracket.
  cbn [String.eqb toLowerCase].
  change (lowerChar "[") with "["%char.
  cbn [String.eqb Ascii.eqb Bool.eqb orb].
  change (String "[" (toLowerCase (inner +:+ "]")))
    with ("[" +:+ toLowerCase (inner +:+ "]")).
  rewrite toLowerCase_app.
  change (toLowerCase "]") with "]".
  change ("[" +:+ toLowerCase inner +:+ "]")
    with (("[" +:+ toLowerCase inner) +:+ "]").
  rewrite endsWith_bracket.
  change (("[" +:+ toLowerCase inner) +:+ "]")
    with (String "[" (toLowerCase inner +:+ "]")).
  unfold startsWith. cbn [String.prefix orb].
  destruct (ascii_dec "f" "["); [discriminate|].
  destruct (ascii_dec ":" "["); [discriminate|].
  rewrite !orb_false_r.
  destruct (String.eqb_spec (toLowerCase inner) "::1") as [->|Hne]; [reflexivity|].
  apply String.eqb_neq. intros E. apply Hne.
  change "::1]" with ("::1" +:+ "]") in E.
  clear -E. revert E. generalize (toLowerCase inner) as s. intros s.
  destruct s as [|c1 [|c2 [|c3 [|c4 s]]]]; cbn; intros [=]; subst; try reflexivity.
  destruct s; discriminate.
Qed.

(** X25.  For a host in brackets, the form in which a URL gives an IPv6
    literal, [isPrivateOrLocalHost] flags [::1] only: [validateForwardUrl]
    accepts an https URL whose host is any other bracketed literal
    (link-local, unique-local or IPv4-mapped loopback ones included), and
    [validateBaseUrlForFetch] accepts every bracketed host, [::1]
    included. *)
Theorem ipv6_literals_are_not_blocked inner :
  let host := "[" +:+ inner +:+ "]" in
  (isPrivateOrLocalHost host = true <-> toLowerCase inner = "::1")
  /\ (forall parseURL targetUrl url,
        parseURL targetUrl = Some url -> protocol url = "https:" ->
        hostname url = host -> toLowerCase inner <> "::1" ->
        validateForwardUrl parseURL targetUrl = Valid)
  /\ (forall parseURL baseUrl url,
        baseUrl <> "" -> parseURL (trim baseUrl) = Some url ->
        protocol url = "https:" -> hostname url = host ->
        validateBaseUrlForFetch parseURL (Some baseUrl) = Valid).
Proof.
  intros host. split; [|split].
  - unfold host. rewrite bracketed_flag. apply String.eqb_eq.
  - intros parseURL targetUrl url Hurl Hp Hh Hne. unfold validateForwardUrl.
    rewrite Hurl, Hp, Hh. unfold host. rewrite bracketed_flag.
    rewrite (proj2 (String.eqb_neq _ _) Hne). reflexivity.
  - intros parseURL baseUrl url Hs Hurl Hp Hh. unfold validateBaseUrlForFetch.
    rewrite (proj2 (String.eqb_neq _ _) Hs), Hurl, Hp, Hh. cbn [String.eqb negb].
    unfold host.
    change ("[" +:+ inner +:+ "]") with (String "[" (inner +:+ "]")).
    rewrite matchIPv4_bracket.
    cbn [toLowerCase]. change (lowerChar "[") with "["%char.
    cbn [String.eqb Ascii.eqb Bool.eqb orb].
    rewrite toLowerCase_app. change (toLowerCase "]") with "]".
    change (String "[" (toLowerCase inner +:+ "]"))
      with (("[" +:+ toLowerCase inner) +:+ "]").
    rewrite endsWith_bracket. reflexivity.
Qed.

Variable parseURL : string -> option URL.

(** X26.  A URL that [validateForwardUrl] accepts is accepted by
    [validateBaseUrlForFetch] too (for a non-empty base URL that, trimmed,
    parses to the same URL). *)
Theorem validateForwardUrl_implies_validateBaseUrlForFetch targetUrl baseUrl url :
  baseUrl <> "" ->
  parseURL targetUrl = Some url ->
  parseURL (trim baseUrl) = Some url ->
  validateForwardUrl parseURL targetUrl = Valid ->
  validateBaseUrlForFetch parseURL (Some baseUrl) = Valid.
Proof.
  intros Hs Ht Hb. unfold validateForwardUrl, validateBaseUrlForFetch.
  rewrite Ht, Hb, (proj2 (String.eqb_neq _ _) Hs).
  destruct (String.eqb (protocol url) "https:"); cbn [negb]; [|discriminate].
  unfold isPrivateOrLocalHost.
  destruct (String.eqb (hostname url) ""); [discriminate|].
  destruct (String.eqb (toLowerCase (hostname url)) "localhost"
            || String.eqb (toLowerCase (hostname url)) "127.0.0.1"
            || endsWith (toLowerCase (hostname url)) ".local"); [discriminate|].
  destruct (matchIPv4 (hostname url)) as [[[[a b] c] d]|]; [|reflexivity].
  unfold privateRange.
  destruct (a =? 10)%N; [discriminate|].
  destruct ((a =? 172) && (16 <=? b) && (b <=? 31))%N; [discriminate|].
  destruct ((a =? 192) && (b =? 168))%N; [discriminate|].
  destruct (a =? 127)%N; [discriminate|].
  destruct ((a =? 169) && (b =? 254))%N; [discriminate|].
  reflexivity.
Qed.

End Ipv6Facts.

Lemma parseApiKey_accepts_generated_crc_witness :
  let mac := fun key data : list Byte.byte => (key ++ data)%list in
  ApiKey.parseApiKey mac
    ("sk-" +:+ "m1" +:+ "-" +:+ "k1" +:+ "-" +:+ ApiKey.generateCrc mac "m1" "k1" None)
    None
  = Some {| ApiKey.machineId := Some "m1"%string; ApiKey.keyId := "k1"%string;
            ApiKey.isNewFormat := true |}.
Proof.
  apply (parseApiKey_accepts_generated_crc
           (fun key data : list Byte.byte => (key ++ data)%list) "m1" "k1" None);
    reflexivity.
Defined.

Lemma parseApiKey_rejects_dashed_ids_witness :
  ApiKey.parseApiKey (fun key data : list Byte.byte => (key ++ data)%list)
    ("sk-" +:+ "9f3c-77aa" +:+ "-" +:+ "k1" +:+ "-" +:+ "656e6470") None = None.
Proof.
  apply (parseApiKey_rejects_dashed_ids
           (fun key data : list Byte.byte => (key ++ data)%list)
           "9f3c-77aa" "k1" "656e6470" None).
  left. reflexivity.
Defined.

Lemma middleware_protects_api_witness :
  let jwtVerify := fun token => String.eqb token "signed" in
  let fetchRequireLogin := fun _ : string => Some (Js.Bool false) in
  let request := {| Middleware.pathname := "/api/settings";
                    Middleware.origin := "http://localhost:20128";
                    Middleware.auth_token := None |} in
  (Middleware.middleware jwtVerify fetchRequireLogin request = Middleware.Next <->
   exists token, Middleware.auth_token request = Some token /\ token <> ""%string
                 /\ jwtVerify token = true)
  /\ (Middleware.validSession jwtVerify request = false ->
      Middleware.middleware jwtVerify fetchRequireLogin request
      = Middleware.Json 401 "Unauthorized").
Proof.
  apply (middleware_protects_api (fun token => String.eqb token "signed")
           (fun _ => Some (Js.Bool false))
           {| Middleware.pathname := "/api/settings";
              Middleware.origin := "http://localhost:20128";
              Middleware.auth_token := None |}); reflexivity.
Defined.

Lemma middleware_dashboard_fails_closed_witness :
  let jwtVerify := fun token => String.eqb token "signed" in
  let fetchRequireLogin := fun _ : string => Some (Js.Str "false") in
  let request := {| Middleware.pathname := "/dashboard/providers";
                    Middleware.origin := "http://localhost:20128";
                    Middleware.auth_token := Some "forged"%string |} in
  (fetchRequireLogin (Middleware.origin request) = Some (Js.Bool false) ->
   Middleware.middleware jwtVerify fetchRequireLogin request
   = if String.eqb (Middleware.pathname request) "/"
     then Middleware.Redirect "/dashboard" else Middleware.Next)
  /\ (fetchRequireLogin (Middleware.origin request) <> Some (Js.Bool false) ->
      Middleware.middleware jwtVerify fetchRequireLogin request
      = Middleware.Redirect "/login").
Proof.
  apply (middleware_dashboard_fails_closed (fun token => String.eqb token "signed")
           (fun _ => Some (Js.Str "false"))
           {| Middleware.pathname := "/dashboard/providers";
              Middleware.origin := "http://localhost:20128";
              Middleware.auth_token := Some "forged"%string |});
    [left; reflexivity|reflexivity].
Defined.

Lemma proxy_refuses_default_secret_in_production_witness :
  let jwtVerify := fun _ : string => true in
  let fetchRequireLogin := fun _ : string => Some (Js.Bool false) in
  let env := {| Proxy.NODE_ENV := Some "production"%string;
                Proxy.JWT_SECRET := None |} in
  let request := {| Middleware.pathname := "/api/providers";
                    Middleware.origin := "https://router.example.com";
                    Middleware.auth_token := Some "forged"%string |} in
  (JsString.startsWith (Middleware.pathname request) "/api/" = true ->
   Proxy.proxy jwtVerify fetchRequireLogin env request
   = Middleware.Json 503 "Server misconfigured: set JWT_SECRET in production")
  /\ (JsString.startsWith (Middleware.pathname request) "/dashboard" = true ->
      Proxy.proxy jwtVerify fetchRequireLogin env request
      = Middleware.Redirect "/login")
  /\ (Proxy.proxy jwtVerify fetchRequireLogin env request = Middleware.Next ->
      JsString.startsWith (Middleware.pathname request) "/api/" = false
      /\ JsString.startsWith (Middleware.pathname request) "/dashboard" = false
      /\ Middleware.pathname request <> "/"%string).
Proof.
  apply (proxy_refuses_default_secret_in_production (fun _ => true)
           (fun _ => Some (Js.Bool false))
           {| Proxy.NODE_ENV := Some "production"%string; Proxy.JWT_SECRET := None |}
           {| Middleware.pathname := "/api/providers";
              Middleware.origin := "https://router.example.com";
              Middleware.auth_token := Some "forged"%string |}); reflexivity.
Defined.

Lemma proxy_is_middleware_when_configured_witness :
  let jwtVerify := fun token => String.eqb token "signed" in
  let fetchRequireLogin := fun _ : string => None in
  let env := {| Proxy.NODE_ENV := Some "production"%string;
                Proxy.JWT_SECRET := Some "f3b1c0a9"%string |} in
  let request := {| Middleware.pathname := "/api/providers";
                    Middleware.origin := "https://router.example.com";
                    Middleware.auth_token := Some "signed"%string |} in
  Proxy.proxy jwtVerify fetchRequireLogin env request
  = Middleware.middleware jwtVerify fetchRequireLogin request.
Proof.
  apply (proxy_is_middleware_when_configured (fun token => String.eqb token "signed")
           (fun _ => None)
           {| Proxy.NODE_ENV := Some "production"%string;
              Proxy.JWT_SECRET := Some "f3b1c0a9"%string |}).
  reflexivity.
Defined.

Lemma generateCacheKey_injective_witness :
  let f := {| PercentileService.provider := Some "openai"%string;
              PercentileService.model := None;
              PercentileService.startDate := Some ""%string;
              PercentileService.endDate := None;
              PercentileService.status := None |} in
  let g := {| PercentileService.provider := Some "openai"%string;
              PercentileService.model := Some "all"%string;
              PercentileService.startDate := None;
              PercentileService.endDate := Some ""%string;
              PercentileService.status := Some "all"%string |} in
  PercentileService.orAll (PercentileService.provider f)
  = PercentileService.orAll (PercentileService.provider g)
  /\ PercentileService.orAll (PercentileService.model f)
     = PercentileService.orAll (PercentileService.model g)
  /\ PercentileService.orAll (PercentileService.startDate f)
     = PercentileService.orAll (PercentileService.startDate g)
  /\ PercentileService.orAll (PercentileService.endDate f)
     = PercentileService.orAll (PercentileService.endDate g)
  /\ PercentileService.orAll (PercentileService.status f)
     = PercentileService.orAll (PercentileService.status g).
Proof.
  apply generateCacheKey_injective;
    [repeat constructor|repeat constructor|reflexivity].
Defined.

Lemma streamThroughputValues_yields_every_row_witness :
  PercentileService.streamThroughputValues (fun _ => None) sampleDb 1
    ThroughputRoute.emptyFilter
  = PercentileService.Returned sampleRows.
Proof.
  apply (streamThroughputValues_yields_every_row (fun _ => None) sampleDb
           ThroughputRoute.emptyFilter sampleRows 1).
  - intros offset. cbn [PercentileService.selectStatement
                         PercentileService.andWhere ThroughputRoute.emptyFilter
                         PercentileService.provider PercentileService.model
                         PercentileService.startDate PercentileService.endDate
                         PercentileService.status fst snd app sampleDb].
    rewrite !Nat2Z.id. reflexivity.
  - vm_compute. lia.
Defined.

Lemma buildFilter_bounds_the_range_witness :
  exists start end_,
    sampleGetTime "T1700000000000" = Some start
    /\ sampleGetTime "T1700086400000" = Some end_
    /\ PercentileService.startDate
         {| PercentileService.provider := Some "openai"%string;
            PercentileService.model := None;
            PercentileService.startDate := Some "T1700000000000"%string;
            PercentileService.endDate := Some "T1700086400000"%string;
            PercentileService.status := None |}
       = Some (sampleToISOString start)
    /\ PercentileService.endDate
         {| PercentileService.provider := Some "openai"%string;
            PercentileService.model := None;
            PercentileService.startDate := Some "T1700000000000"%string;
            PercentileService.endDate := Some "T1700086400000"%string;
            PercentileService.status := None |}
       = Some (sampleToISOString end_)
    /\ forall start' end',
         sampleToISOString start <> ""%string ->
         sampleToISOString end_ <> ""%string ->
         sampleGetTime (sampleToISOString start) = Some start' ->
         sampleGetTime (sampleToISOString end_) = Some end' ->
         0 <= end' - start' <= ThroughputRoute.MAX_DATE_RANGE_MS.
Proof.
  apply (buildFilter_bounds_the_range sampleGetTime sampleToISOString
           {| ThroughputRoute.q_provider := Some "openai"%string;
              ThroughputRoute.q_model := Some ""%string;
              ThroughputRoute.q_startDate := Some "T1700000000000"%string;
              ThroughputRoute.q_endDate := Some "T1700086400000"%string;
              ThroughputRoute.q_percentiles := None |}
           _ "T1700000000000" "T1700086400000").
  - vm_compute. reflexivity.
  - reflexivity.
  - discriminate.
  - reflexivity.
  - discriminate.
Defined.

Example buildFilter_runs :
  (* a day apart; 31 days apart; end before start; a date that does not parse *)
  snd (ThroughputRoute.buildFilter sampleGetTime sampleToISOString
         {| ThroughputRoute.q_provider := None; ThroughputRoute.q_model := None;
            ThroughputRoute.q_startDate := Some "T1700000000000"%string;
            ThroughputRoute.q_endDate := Some "T1700086400000"%string;
            ThroughputRoute.q_percentiles := None |}) = None
  /\ snd (ThroughputRoute.buildFilter sampleGetTime sampleToISOString
         {| ThroughputRoute.q_provider := None; ThroughputRoute.q_model := None;
            ThroughputRoute.q_startDate := Some "T1700000000000"%string;
            ThroughputRoute.q_endDate := Some "T1702678400000"%string;
            ThroughputRoute.q_percentiles := None |})
     = Some "Date range cannot exceed 30 days"%string
  /\ snd (ThroughputRoute.buildFilter sampleGetTime sampleToISOString
         {| ThroughputRoute.q_provider := None; ThroughputRoute.q_model := None;
            ThroughputRoute.q_startDate := Some "T1700086400000"%string;
            ThroughputRoute.q_endDate := Some "T1700000000000"%string;
            ThroughputRoute.q_percentiles := None |})
     = Some "startDate must be before endDate"%string
  /\ snd (ThroughputRoute.buildFilter sampleGetTime sampleToISOString
         {| ThroughputRoute.q_provider := None; ThroughputRoute.q_model := None;
            ThroughputRoute.q_startDate := Some "yesterday"%string;
            ThroughputRoute.q_endDate := Some "T1700000000000"%string;
            ThroughputRoute.q_percentiles := None |})
     = Some "Invalid startDate format"%string.
Proof. repeat split; vm_compute; reflexivity. Qed.

Lemma validateForwardUrl_implies_validateBaseUrlForFetch_witness :
  ValidateBaseUrl.validateBaseUrlForFetch sampleParser
    (Some "  https://api.example.com/v1 "%string)
  = ForwardAuth.Valid.
Proof.
  apply (validateForwardUrl_implies_validateBaseUrlForFetch sampleParser
           "https://api.example.com/v1" "  https://api.example.com/v1 "
           {| ForwardAuth.protocol := "https:";
              ForwardAuth.hostname := "api.example.com" |});
    [discriminate|reflexivity|reflexivity|reflexivity].
Defined.

Section PercentileCacheFacts.
Import PercentileService PercentileCache.
Local Open Scope string_scope.

Variable floor : float -> float.
Variable ceil : float -> float.
Variable round : float -> float.
Variable indexOf : float -> option nat.
Variable sortAscending : list float -> list float.
Variable getTime : string -> option Z.

Lemma cleanup_lookup now cache k :
  cleanup now cache !! k
  = match cache !! k with
    | Some entry =>
        if (100 <? size cache)%nat && negb (now <? expiresAt entry)%Z
        then None else Some entry
    | None => None
    end.
Proof.
  unfold cleanup. destruct (100 <? size cache)%nat; cbn [andb].
  - destruct (cache !! k) as [entry|] eqn:Hk.
    + destruct (Z.ltb_spec now (expiresAt entry)); cbn [negb].
      * apply map_lookup_filter_Some. split; [exact Hk|assumption].
      * apply map_lookup_filter_None. right. intros e He. rewrite Hk in He.
        injection He as <-. cbn. lia.
    + apply map_lookup_filter_None. left. exact Hk.
  - destruct (cache !! k); reflexivity.
Qed.

(** What a call does to the cache: on a hit nothing, on a miss it stores
    the result until [now + CACHE_TTL_MS] and may clean up. *)
Lemma calculateThroughputPercentiles_cases fuel now db filter cache result cache' :
  calculateThroughputPercentiles floor ceil round indexOf sortAscending getTime
    fuel now db filter cache = Some (result, cache') ->
  (exists expires,
     cache !! generateCacheKey filter
       = Some {| data := result; expiresAt := expires |}
     /\ (now < expires)%Z /\ cache' = cache)
  \/ ((forall entry, cache !! generateCacheKey filter = Some entry ->
         (expiresAt entry <= now)%Z)
      /\ let stored :=
           <[ generateCacheKey filter :=
                {| data := result; expiresAt := (now + CACHE_TTL_MS)%Z |} ]> cache in
         cache' = stored \/ cache' = cleanup now stored).
Proof.
  unfold calculateThroughputPercentiles.
  destruct (cache !! generateCacheKey filter) as [[cached expires]|] eqn:Hkey;
    cbn [expiresAt data].
  - destruct (Z.ltb_spec now expires) as [Hlt|Hge].
    + intros [= <- <-]. left. exists expires. auto.
    + intros H. right. split; [intros entry [= <-]; exact Hge|].
      destruct (prepare db) as [all|].
      * destruct (name db) as [n|]; [destruct (String.eqb n "mock")|].
        -- injection H as <- <-. left. reflexivity.
        -- destruct (streamThroughputValues getTime all fuel filter);
             try discriminate H.
           injection H as <- <-. right. reflexivity.
        -- destruct (streamThroughputValues getTime all fuel filter);
             try discriminate H.
           injection H as <- <-. right. reflexivity.
      * injection H as <- <-. left. reflexivity.
  - intros H. right. split; [intros entry [=]|].
    destruct (prepare db) as [all|].
    + destruct (name db) as [n|]; [destruct (String.eqb n "mock")|].
      * injection H as <- <-. left. reflexivity.
      * destruct (streamThroughputValues getTime all fuel filter);
          try discriminate H.
        injection H as <- <-. right. reflexivity.
      * destruct (streamThroughputValues getTime all fuel filter);
          try discriminate H.
        injection H as <- <-. right. reflexivity.
    + injection H as <- <-. left. reflexivity.
Qed.

Lemma CACHE_TTL_MS_positive : (0 < CACHE_TTL_MS)%Z.
Proof. reflexivity. Qed.

(** X27.  Whatever [calculateThroughputPercentiles] returns is in the cache
    afterwards under the key of the filter, with an expiry later than the
    call (five minutes later when it was computed by this call); and until
    that expiry every call whose filter has the same key returns the same
    data and leaves the cache as it is, whatever the database holds by
    then. *)
Theorem cached_percentiles_are_served_until_they_expire
    fuel now db filter cache result cache' :
  calculateThroughputPercentiles floor ceil round indexOf sortAscending getTime
    fuel now db filter cache = Some (result, cache') ->
  exists expires,
    cache' !! generateCacheKey filter
      = Some {| data := result; expiresAt := expires |}
    /\ (now < expires)%Z
    /\ ((forall entry, cache !! generateCacheKey filter = Some entry ->
           (expiresAt entry <= now)%Z) ->
        expires = (now + CACHE_TTL_MS)%Z)
    /\ forall fuel' now' db' filter',
         generateCacheKey filter' = generateCacheKey filter ->
         (now' < expires)%Z ->
         calculateThroughputPercentiles floor ceil round indexOf sortAscending
           getTime fuel' now' db' filter' cache'
         = Some (result, cache').
Proof.
  intros Hcall. pose proof CACHE_TTL_MS_positive as Httl.
  assert (Hentry : exists expires,
             cache' !! generateCacheKey filter
               = Some {| data := result; expiresAt := expires |}
             /\ (now < expires)%Z
             /\ ((forall entry, cache !! generateCacheKey filter = Some entry ->
                    (expiresAt entry <= now)%Z) ->
                 expires = (now + CACHE_TTL_MS)%Z)).
  { destruct (calculateThroughputPercentiles_cases _ _ _ _ _ _ _ Hcall)
      as [(expires & Hk & Hlt & ->)|[Hold [-> | ->]]].
    - exists expires. split; [exact Hk|]. split; [exact Hlt|].
      intros H. specialize (H _ Hk). cbn in H. lia.
    - exists (now + CACHE_TTL_MS)%Z. rewrite lookup_insert_eq.
      split; [reflexivity|]. split; [lia|reflexivity].
    - exists (now + CACHE_TTL_MS)%Z. rewrite cleanup_lookup, lookup_insert_eq.
      cbn [expiresAt]. destruct (Z.ltb_spec now (now + CACHE_TTL_MS)); [|lia].
      rewrite andb_false_r. split; [reflexivity|]. split; [lia|reflexivity]. }
  destruct Hentry as (expires & Hk & Hlt & Hnew).
  exists expires. split; [exact Hk|]. split; [exact Hlt|]. split; [exact Hnew|].
  intros fuel' now' db' filter' Hsame Hnow'.
  unfold calculateThroughputPercentiles. rewrite Hsame, Hk. cbn [expiresAt data].
  destruct (Z.ltb_spec now' expires); [reflexivity|lia].
Qed.

(** X28.  A call adds no entry under another key than its filter's, keeps
    every entry that has not expired, and drops an expired one only when
    the cache already holds at least 100 entries. *)
Theorem other_cache_entries_outlive_a_call
    fuel now db filter cache result cache' k :
  calculateThroughputPercentiles floor ceil round indexOf sortAscending getTime
    fuel now db filter cache = Some (result, cache') ->
  k <> generateCacheKey filter ->
  (forall entry, cache' !! k = Some entry -> cache !! k = Some entry)
  /\ (forall entry, cache !! k = Some entry -> (now < expiresAt entry)%Z ->
        cache' !! k = Some entry)
  /\ (forall entry, cache !! k = Some entry -> cache' !! k = None ->
        (expiresAt entry <= now)%Z /\ (100 <= size cache)%nat).
Proof.
  intros Hcall Hk.
  destruct (calculateThroughputPercentiles_cases _ _ _ _ _ _ _ Hcall)
    as [(expires & _ & _ & ->)|[_ [-> | ->]]].
  - split; [auto|]. split; [auto|]. intros entry H1 H2. congruence.
  - rewrite lookup_insert_ne by congruence. split; [auto|]. split; [auto|].
    intros entry H1 H2. congruence.
  - rewrite cleanup_lookup, lookup_insert_ne by congruence.
    set (stored := <[ generateCacheKey filter := _ ]> cache).
    assert (Hsize : (size stored <= S (size cache))%nat).
    { unfold stored. rewrite map_size_insert.
      destruct (cache !! generateCacheKey filter); unfold id; lia. }
    destruct (cache !! k) as [old|];
      [|split; [|split]; intros ? ?; discriminate].
    destruct (Nat.ltb_spec 100 (size stored)) as [Hbig|Hsmall]; cbn [andb].
    + destruct (Z.ltb_spec now (expiresAt old)); cbn [negb].
      * split; [auto|]. split; [auto|]. intros entry _ [=].
      * split; [intros entry [=]|]. split.
        -- intros entry [= <-] Hlt. lia.
        -- intros entry [= <-] _. split; lia.
    + split; [auto|]. split; [auto|]. intros entry _ [=].
Qed.

End PercentileCacheFacts.

Section SettingsGetFacts.
Import Js SettingsGet.
Local Open Scope string_scope.

(** X29.  The settings that GET returns never include "password": the
    answer holds the stored settings without it, hasPassword (whether the
    stored password is truthy) and enableRequestLogs (whether
    ENABLE_REQUEST_LOGS is "true"), the two of which replace stored
    settings of the same name. *)
Theorem GET_never_returns_the_password getSettings ENABLE_REQUEST_LOGS body :
  GET getSettings ENABLE_REQUEST_LOGS = Json body ->
  exists settings,
    getSettings = Some settings
    /\ body !! "password" = None
    /\ body !! "hasPassword"
       = Some (Bool (truthy (default Undefined (settings !! "password"))))
    /\ body !! "enableRequestLogs"
       = Some (Bool (bool_decide (ENABLE_REQUEST_LOGS = Some "true")))
    /\ forall k, k <> "password" -> k <> "hasPassword" ->
         k <> "enableRequestLogs" -> body !! k = settings !! k.
Proof.
  unfold GET. destruct getSettings as [settings|]; [|discriminate].
  intros [= <-]. exists settings. split; [reflexivity|].
  split; [|split; [|split]].
  - rewrite !lookup_insert_ne by discriminate. apply lookup_delete_eq.
  - apply lookup_insert_eq.
  - rewrite lookup_insert_ne by discriminate. rewrite lookup_insert_eq.
    do 2 f_equal. destruct ENABLE_REQUEST_LOGS as [v|].
    + destruct (String.eqb_spec v "true") as [->|Hne].
      * rewrite bool_decide_eq_true_2; reflexivity.
      * rewrite bool_decide_eq_false_2; [reflexivity|congruence].
    + rewrite bool_decide_eq_false_2; [reflexivity|discriminate].
  - intros k Hp Hh He.
    rewrite !lookup_insert_ne by congruence. apply lookup_delete_ne. congruence.
Qed.

End SettingsGetFacts.

Section SettingsPasswordFacts.
Import Js SettingsAllowlist SettingsRoute.
Local Open Scope string_scope.

(** X30.  In this revision of the route a body that carries "password"
    and no newPassword has its password handed to [updateSettings] as it
    came: without hashing and without any check of the current
    password. *)
Theorem PATCH_applies_a_password_from_the_body
    bcryptCompare bcryptHash salt settings production (body : object) :
  truthy (get body "newPassword") = false ->
  isDefined (get body "password") = true ->
  exists updates,
    PATCH bcryptCompare bcryptHash salt settings production body = Updated updates
    /\ updates !! "password" = Some (get body "password").
Proof.
  intros Hnew Hpw. unfold PATCH. rewrite Hnew. eexists. split; [reflexivity|].
  rewrite filterAllowedSettings_lookup, Hpw.
  rewrite bool_decide_eq_true_2; [reflexivity|].
  apply list_elem_of_In. simpl. tauto.
Qed.

End SettingsPasswordFacts.

Lemma cached_percentiles_are_served_until_they_expire_witness :
  let same := fun x : float => x in
  let noIndex := fun _ : float => @None nat in
  let unsorted := fun values : list float => values in
  let noDate := fun _ : string => @None Z in
  let cloud := {| PercentileCache.prepare := None; PercentileCache.name := None |} in
  let result := {| PercentileCache.p50 := 0; PercentileCache.p95 := 0;
                   PercentileCache.p99 := 0; PercentileCache.sampleSize := 0;
                   PercentileCache.calculatedAt := 1000 |} in
  let cache' : gmap string PercentileCache.Entry :=
    {[ "all|all|all|all|all"%string :=
         {| PercentileCache.data := result; PercentileCache.expiresAt := 301000 |} ]} in
  exists expires,
    cache' !! PercentileService.generateCacheKey ThroughputRoute.emptyFilter
      = Some {| PercentileCache.data := result; PercentileCache.expiresAt := expires |}
    /\ 1000 < expires
    /\ ((forall entry,
           (∅ : gmap string PercentileCache.Entry)
             !! PercentileService.generateCacheKey ThroughputRoute.emptyFilter
           = Some entry ->
           PercentileCache.expiresAt entry <= 1000) ->
        expires = 1000 + PercentileCache.CACHE_TTL_MS)
    /\ forall fuel' now' db' filter',
         PercentileService.generateCacheKey filter'
         = PercentileService.generateCacheKey ThroughputRoute.emptyFilter ->
         now' < expires ->
         PercentileCache.calculateThroughputPercentiles same same same noIndex
           unsorted noDate fuel' now' db' filter' cache'
         = Some (result, cache').
Proof.
  apply (cached_percentiles_are_served_until_they_expire
           (fun x => x) (fun x => x) (fun x => x) (fun _ => None) (fun values => values)
           (fun _ => None) 0 1000
           {| PercentileCache.prepare := None; PercentileCache.name := None |}
           ThroughputRoute.emptyFilter ∅).
  vm_compute. reflexivity.
Defined.

Lemma other_cache_entries_outlive_a_call_witness :
  let stale := {| PercentileCache.data :=
                    {| PercentileCache.p50 := 41.5; PercentileCache.p95 := 80;
                       PercentileCache.p99 := 95; PercentileCache.sampleSize := 12;
                       PercentileCache.calculatedAt := 100 |};
                  PercentileCache.expiresAt := 300100 |} in
  let cache : gmap string PercentileCache.Entry :=
    {[ "openai|all|all|all|all"%string := stale ]} in
  let result := {| PercentileCache.p50 := 0; PercentileCache.p95 := 0;
                   PercentileCache.p99 := 0; PercentileCache.sampleSize := 0;
                   PercentileCache.calculatedAt := 400000 |} in
  let cache' : gmap string PercentileCache.Entry :=
    <[ "all|all|all|all|all"%string :=
         {| PercentileCache.data := result; PercentileCache.expiresAt := 700000 |} ]>
      cache in
  (forall entry, cache' !! "openai|all|all|all|all"%string = Some entry ->
                 cache !! "openai|all|all|all|all"%string = Some entry)
  /\ (forall entry, cache !! "openai|all|all|all|all"%string = Some entry ->
        400000 < PercentileCache.expiresAt entry ->
        cache' !! "openai|all|all|all|all"%string = Some entry)
  /\ (forall entry, cache !! "openai|all|all|all|all"%string = Some entry ->
        cache' !! "openai|all|all|all|all"%string = None ->
        PercentileCache.expiresAt entry <= 400000 /\ (100 <= size cache)%nat).
Proof.
  apply (other_cache_entries_outlive_a_call
           (fun x => x) (fun x => x) (fun x => x) (fun _ => None) (fun values => values)
           (fun _ => None) 0 400000
           {| PercentileCache.prepare := None; PercentileCache.name := None |}
           ThroughputRoute.emptyFilter _
           {| PercentileCache.p50 := 0; PercentileCache.p95 := 0;
              PercentileCache.p99 := 0; PercentileCache.sampleSize := 0;
              PercentileCache.calculatedAt := 400000 |}).
  - vm_compute. reflexivity.
  - discriminate.
Defined.

Lemma GET_never_returns_the_password_witness :
  let settings : gmap string Js.value :=
    {[ "password"%string := Js.Str "$2a$10$hash"; "requireLogin"%string := Js.Bool true ]} in
  let body : gmap string Js.value :=
    {[ "requireLogin"%string := Js.Bool true;
       "enableRequestLogs"%string := Js.Bool false;
       "hasPassword"%string := Js.Bool true ]} in
  exists stored,
    Some settings = Some stored
    /\ body !! "password"%string = None
    /\ body !! "hasPassword"%string
       = Some (Js.Bool (Js.truthy (default Js.Undefined (stored !! "password"%string))))
    /\ body !! "enableRequestLogs"%string
       = Some (Js.Bool (bool_decide (@None string = Some "true"%string)))
    /\ forall k, k <> "password"%string -> k <> "hasPassword"%string ->
         k <> "enableRequestLogs"%string -> body !! k = stored !! k.
Proof.
  apply (GET_never_returns_the_password
           (Some {[ "password"%string := Js.Str "$2a$10$hash";
                    "requireLogin"%string := Js.Bool true ]}) None).
  vm_compute. reflexivity.
Defined.

Lemma PATCH_applies_a_password_from_the_body_witness :
  let body := {| Js.own := {[ "password"%string := Js.Str "chosen-by-the-client" ]};
                 Js.protos := [] |} in
  exists updates,
    SettingsRoute.PATCH (fun _ _ => Some false) (fun _ _ => None) "salt"
      {[ "password"%string := Js.Str "$2a$10$hash" ]} true body
    = SettingsRoute.Updated updates
    /\ updates !! "password"%string = Some (Js.get body "password").
Proof.
  apply (PATCH_applies_a_password_from_the_body
           (fun _ _ => Some false) (fun _ _ => None) "salt"
           {[ "password"%string := Js.Str "$2a$10$hash" ]} true);
    reflexivity.
Defined.
